(** * NLSR load-aware link cost and Hello protocol: a shallow embedding

    Two translation units are embedded:
    - [src/route/load-aware-routing-calculator.cpp], the composite link-cost
      function with its per-neighbor RTT history;
    - [src/hello-protocol.cpp], the neighbor-liveness engine.

    C++ [double] is IEEE 754 binary64; it is modelled by the Standard
    Library's executable specification of floating-point arithmetic
    ([SpecFloat], precision 53, maximal exponent 1024, rounding to nearest
    even), so every arithmetic step below rounds as the compiled code does
    (each operation rounds once; products and sums are not fused). *)

From Stdlib Require Import ZArith Lia Bool Zpower.
From Stdlib Require Import Floats.SpecFloat.
From stdpp Require Import gmap strings list fin_maps.

Local Open Scope Z_scope.

(** ** binary64 arithmetic *)

Module Double.

Definition prec : Z := 53.
Definition emax : Z := 1024.

Definition double : Type := spec_float.

Definition add : double -> double -> double := SFadd prec emax.
Definition sub : double -> double -> double := SFsub prec emax.
Definition mul : double -> double -> double := SFmul prec emax.
Definition div : double -> double -> double := SFdiv prec emax.
Definition sqrt : double -> double := SFsqrt prec emax.

Definition ltb : double -> double -> bool := SFltb.
Definition leb : double -> double -> bool := SFleb.

(** A value of [spec_float] is a binary64 number when its mantissa and
    exponent are in canonical form. *)
Definition valid (x : double) : bool := valid_binary prec emax x.

(** Integer to [double] conversion (an implicit conversion in the C++
    source): the nearest representable value. *)
Definition of_Z (z : Z) : double := binary_normalize prec emax z 0 false.

Definition zero : double := S754_zero false.

(** [std::min(a, b)] is [(b < a) ? b : a]; [std::max(a, b)] is
    [(a < b) ? b : a]. *)
Definition min (a b : double) : double := if ltb b a then b else a.
Definition max (a b : double) : double := if ltb a b then b else a.

(** A decimal literal [n/d] is read as the binary64 number nearest to it,
    which is what the correctly rounded quotient of the two integers
    gives. *)
Definition lit (n d : Z) : double := div (of_Z n) (of_Z d).

(** Predicates on [double] values used to state the properties: not a
    number; zero or above (the negative zero left out); above zero; above
    zero and finite; finite; a zero. *)
Definition is_nan (x : double) : bool :=
  match x with S754_nan => true | _ => false end.
Definition nonneg (x : double) : bool :=
  match x with
  | S754_zero false | S754_finite false _ _ | S754_infinity false => true
  | _ => false
  end.
Definition is_positive (x : double) : bool :=
  match x with S754_finite false _ _ | S754_infinity false => true | _ => false end.
Definition finite_pos (x : double) : bool :=
  match x with S754_finite false _ _ => true | _ => false end.
Definition is_finite (x : double) : bool :=
  match x with S754_zero _ | S754_finite _ _ _ => true | _ => false end.
Definition is_zero (x : double) : bool :=
  match x with S754_zero _ => true | _ => false end.

(** Whether bits were lost in the shifts recorded by [mrs], and the value a
    rounding ends with, given its last mantissa and exponent. *)
Definition inexact (mrs : shr_record) : bool := shr_r mrs || shr_s mrs.

Definition rounded (s : bool) (m e : Z) : double :=
  match m with
  | Z0 => S754_zero s
  | Zpos p => if e <=? emax - prec then S754_finite s p e else S754_infinity s
  | Zneg _ => S754_nan
  end.

End Double.

Import Double.

#[global] Arguments add : simpl never.
#[global] Arguments sub : simpl never.
#[global] Arguments mul : simpl never.
#[global] Arguments div : simpl never.
#[global] Arguments sqrt : simpl never.
#[global] Arguments of_Z : simpl never.

(** ** Names and time *)

(** An NDN name is a sequence of components.  A component is kept as its
    URI text, so [toUri] is the identity and comparing [toUri()] with a
    literal is comparing the component with it. *)
Abbreviation Component := string (only parsing).
Abbreviation Name := (list string) (only parsing).

Module Time.

(** Durations and steady-clock instants count nanoseconds, the resolution
    of [ndn::time::steady_clock]. *)
Definition nanoseconds : Type := Z.
Definition time_point : Type := Z.

(** [duration_cast] to a coarser unit truncates toward zero. *)
Definition to_milliseconds (d : nanoseconds) : Z := Z.quot d 1000000.
Definition to_seconds (d : nanoseconds) : Z := Z.quot d 1000000000.

Definition of_milliseconds (ms : Z) : nanoseconds := ms * 1000000.
Definition of_seconds (s : Z) : nanoseconds := s * 1000000000.

End Time.

(** ** The load-aware cost calculator *)

Module LoadAware.

(** Modelled from the spec: [LinkCostManager::LinkMetrics], declared in a
    header that is not among the sources.  The snapshot holds the
    neighbor, the configured cost, and three optional observations: the
    current RTT, a duration (kept at the clock's resolution), the timeout
    count, an unsigned integer, and the instant of the last success. *)
Record LinkMetrics : Type := {
    neighbor : Name;
    originalCost : double;
    currentRtt : option Time.nanoseconds;
    timeoutCount : option N;
    lastSuccessTime : option Time.time_point
  }.

(** The algorithm's constants, as binary64 values. *)
Definition DEFAULT_RTT_WEIGHT : double := Eval vm_compute in lit 3 10.
Definition DEFAULT_LOAD_WEIGHT : double := Eval vm_compute in lit 4 10.
Definition DEFAULT_STABILITY_WEIGHT : double := Eval vm_compute in lit 3 10.
Definition RTT_THRESHOLD_EXCELLENT : double := Eval vm_compute in of_Z 10.
Definition RTT_THRESHOLD_GOOD : double := Eval vm_compute in of_Z 50.
Definition RTT_THRESHOLD_FAIR : double := Eval vm_compute in of_Z 100.
Definition RTT_THRESHOLD_POOR : double := Eval vm_compute in of_Z 200.

(** The literals of the function bodies. *)
Definition d0_0 : double := zero.
Definition d0_1 : double := Eval vm_compute in lit 1 10.
Definition d0_2 : double := Eval vm_compute in lit 2 10.
Definition d0_3 : double := Eval vm_compute in lit 3 10.
Definition d0_5 : double := Eval vm_compute in lit 5 10.
Definition d0_7 : double := Eval vm_compute in lit 7 10.
Definition d1_0 : double := Eval vm_compute in of_Z 1.
Definition d1_5 : double := Eval vm_compute in lit 15 10.
Definition d2_0 : double := Eval vm_compute in of_Z 2.
Definition d3_0 : double := Eval vm_compute in of_Z 3.
Definition d60_0 : double := Eval vm_compute in of_Z 60.

(** The calculator object: the three weights, the RTT history of every
    neighbor (a [std::map] from name to a double-ended queue of samples,
    oldest first) and the two counters. *)
Record Calculator : Type := {
    m_rttWeight : double;
    m_loadWeight : double;
    m_stabilityWeight : double;
    m_rttHistory : gmap Name (list double);
    m_calculationCount : N;
    m_costAdjustmentCount : N
  }.

Definition set_history (h : gmap Name (list double)) (c : Calculator) : Calculator :=
  {| m_rttWeight := m_rttWeight c;
     m_loadWeight := m_loadWeight c;
     m_stabilityWeight := m_stabilityWeight c;
     m_rttHistory := h;
     m_calculationCount := m_calculationCount c;
     m_costAdjustmentCount := m_costAdjustmentCount c |}.

Definition count_adjustment (c : Calculator) : Calculator :=
  {| m_rttWeight := m_rttWeight c;
     m_loadWeight := m_loadWeight c;
     m_stabilityWeight := m_stabilityWeight c;
     m_rttHistory := m_rttHistory c;
     m_calculationCount := m_calculationCount c;
     m_costAdjustmentCount := N.succ (m_costAdjustmentCount c) |}.

(** Modelled from the spec: the weights a calculator starts with
    (0.3, 0.4, 0.3); the member initialisers are in the absent header. *)
Definition initial : Calculator :=
  {| m_rttWeight := DEFAULT_RTT_WEIGHT;
     m_loadWeight := DEFAULT_LOAD_WEIGHT;
     m_stabilityWeight := DEFAULT_STABILITY_WEIGHT;
     m_rttHistory := ∅;
     m_calculationCount := 0%N;
     m_costAdjustmentCount := 0%N |}.

Section History.

(** The bound of a history; its declaration is in the absent header. *)
Variable MAX_RTT_HISTORY : nat.

(** [while (history.size() > MAX_RTT_HISTORY) history.pop_front();] *)
Fixpoint pop_excess (history : list double) : list double :=
  match history with
  | [] => []
  | _ :: rest =>
      if (MAX_RTT_HISTORY <? length history)%nat then pop_excess rest
      else history
  end.

(** [m_rttHistory[neighbor]] creates an empty history when the neighbor
    has none. *)
Definition history_of (n : Name) (h : gmap Name (list double)) : list double :=
  default [] (h !! n).

Definition updateRttHistory (n : Name) (currentRttMs : double)
    (h : gmap Name (list double)) : gmap Name (list double) :=
  <[ n := pop_excess (history_of n h ++ [currentRttMs]) ]> h.

Definition getRttFactor (metrics : LinkMetrics) : double :=
  match currentRtt metrics with
  | None => d0_0
  | Some rtt =>
      let rttMsValue := Time.to_milliseconds rtt in
      if leb (of_Z rttMsValue) RTT_THRESHOLD_EXCELLENT then d0_0
      else if leb (of_Z rttMsValue) RTT_THRESHOLD_GOOD then d0_2
      else if leb (of_Z rttMsValue) RTT_THRESHOLD_FAIR then d0_5
      else if leb (of_Z rttMsValue) RTT_THRESHOLD_POOR then d1_0
      else d2_0
  end.

(** The two loops over the history and the classification of the
    variation rate. *)
Definition sum_of (history : list double) : double :=
  fold_left (fun sum rtt => add sum rtt) history d0_0.

Definition variance_of (mean : double) (history : list double) : double :=
  fold_left (fun variance rtt => add variance (mul (sub rtt mean) (sub rtt mean)))
            history d0_0.

Definition classify_variation (variationRate : double) : double :=
  if leb variationRate d0_1 then d0_0
  else if leb variationRate d0_2 then d0_3
  else if leb variationRate d0_5 then d0_7
  else d1_5.

Definition load_of_history (history : list double) : double :=
  let size := of_Z (Z.of_nat (length history)) in
  let mean := div (sum_of history) size in
  let stddev := sqrt (div (variance_of mean history) size) in
  let variationRate := if ltb zero mean then div stddev mean else d0_0 in
  classify_variation variationRate.

Definition getLoadFactor (metrics : LinkMetrics)
    (h : gmap Name (list double)) : double * gmap Name (list double) :=
  let h1 :=
    match currentRtt metrics with
    | Some rtt => updateRttHistory (neighbor metrics) (of_Z (Time.to_milliseconds rtt)) h
    | None => h
    end in
  match h1 !! neighbor metrics with
  | None => (d0_0, h1)
  | Some history =>
      if (length history <? 3)%nat then (d0_0, h1)
      else (load_of_history history, h1)
  end.

(** [now] is the reading of the steady clock inside the call. *)
Definition getStabilityFactor (now : Time.time_point) (metrics : LinkMetrics) : double :=
  let factor := d0_0 in
  let factor :=
    match timeoutCount metrics with
    | Some count => add factor (mul (of_Z (Z.of_N count)) d0_2)
    | None => factor
    end in
  match lastSuccessTime metrics with
  | Some last =>
      let secondsSinceSuccess := Time.to_seconds (now - last) in
      if 60 <? secondsSinceSuccess then
        add factor (min d2_0 (mul (div (of_Z secondsSinceSuccess) d60_0) d0_1))
      else factor
  | None => factor
  end.

Definition calculateLoadAwareCost (now : Time.time_point) (n : Name)
    (rttBasedCost : double) (metrics : LinkMetrics) (c : Calculator)
    : double * Calculator :=
  if leb rttBasedCost zero || leb (originalCost metrics) zero then (rttBasedCost, c)
  else
    let rttFactor := getRttFactor metrics in
    let '(loadFactor, h1) := getLoadFactor metrics (m_rttHistory c) in
    let stabilityFactor := getStabilityFactor now metrics in
    let adjustmentFactor :=
      add (add (mul (m_rttWeight c) rttFactor) (mul (m_loadWeight c) loadFactor))
          (mul (m_stabilityWeight c) stabilityFactor) in
    let adjustedCost := mul rttBasedCost (add d1_0 adjustmentFactor) in
    let adjustedCost := min adjustedCost (mul (originalCost metrics) d3_0) in
    let adjustedCost := max adjustedCost (mul (originalCost metrics) d0_5) in
    let h2 :=
      match currentRtt metrics with
      | Some rtt => updateRttHistory n (of_Z (Time.to_milliseconds rtt)) h1
      | None => h1
      end in
    (adjustedCost, count_adjustment (set_history h2 c)).

End History.

End LoadAware.

(** ** The Hello protocol *)

Module Hello.

Local Open Scope N_scope.

Definition NLSR_COMPONENT : Component := "NLSR"%string.
Definition INFO_COMPONENT : Component := "INFO"%string.

(** [name.get(-k)] for [k >= 1]: the k-th component from the end.  The
    library does not check the index, so a shorter name has no defined
    result. *)
Definition get_back (k : nat) (name : Name) : option Component :=
  if (k <=? length name)%nat then name !! (length name - k)%nat else None.

(** [name.getPrefix(-k)]: the name without its last [k] components.  On a
    shorter name the unsigned count wraps and is clipped to the size, so the
    whole name is returned. *)
Definition getPrefix_back (k : nat) (name : Name) : Name :=
  if (k <=? length name)%nat then take (length name - k)%nat name else name.

Definition to_uint32 (n : N) : N := n mod 2 ^ 32.

(** Modelled from the spec: the adjacency record and the adjacency list
    ([adjacent.hpp], [adjacency-list.cpp] are not among the sources).  A
    record has a face id (0: no face), a status and a count of timed-out
    probes; the list is a registry looked up by exact name, [status_of] is
    [INACTIVE] for an unknown name, and a mutation of an unknown name
    changes nothing (the count of an unknown name, on which the spec is
    silent, is read as 0).  The enumerators are numbered 0 and 1 for the
    subtraction the response handler makes. *)
Inductive Status : Type := STATUS_INACTIVE | STATUS_ACTIVE.

#[export] Instance Status_eq_dec : EqDecision Status.
Proof. solve_decision. Defined.

Definition status_value (s : Status) : Z :=
  match s with STATUS_INACTIVE => 0%Z | STATUS_ACTIVE => 1%Z end.

Record Adjacent : Type := {
    faceId : N;
    status : Status;
    interestTimedOutNo : N
  }.

Definition with_count (a : Adjacent) (k : N) : Adjacent :=
  {| faceId := faceId a; status := status a; interestTimedOutNo := k |}.

Definition with_status (a : Adjacent) (s : Status) : Adjacent :=
  {| faceId := faceId a; status := s; interestTimedOutNo := interestTimedOutNo a |}.

Abbreviation AdjacencyList := (gmap Name Adjacent) (only parsing).

Definition findAdjacent (l : AdjacencyList) (n : Name) : option Adjacent := l !! n.

Definition isNeighbor (l : AdjacencyList) (n : Name) : bool :=
  match l !! n with Some _ => true | None => false end.

Definition getStatusOfNeighbor (l : AdjacencyList) (n : Name) : Status :=
  match l !! n with Some a => status a | None => STATUS_INACTIVE end.

Definition getTimedOutInterestCount (l : AdjacencyList) (n : Name) : N :=
  match l !! n with Some a => interestTimedOutNo a | None => 0 end.

Definition setStatusOfNeighbor (l : AdjacencyList) (n : Name) (s : Status) : AdjacencyList :=
  alter (fun a => with_status a s) n l.

Definition setTimedOutInterestCount (l : AdjacencyList) (n : Name) (count : N) : AdjacencyList :=
  alter (fun a => with_count a count) n l.

Definition incrementTimedOutInterestCount (l : AdjacencyList) (n : Name) : AdjacencyList :=
  alter (fun a => with_count a (interestTimedOutNo a + 1)) n l.

(** Modelled from the spec: the configuration the engine reads
    ([conf-parameter.hpp] is not among the sources); the three integers
    are [uint32_t]. *)
Inductive HyperbolicState : Type := HYPERBOLIC_STATE_OFF | HYPERBOLIC_STATE_ON.

Record ConfParameter : Type := {
    getRouterPrefix : Name;
    getInfoInterestInterval : N;
    getInterestResendTime : N;
    getInterestRetryNumber : N;
    getHyperbolicState : HyperbolicState;
    getSigningInfo : string
  }.

(** Packets, as far as the engine sets or reads them. *)
Record Interest : Type := {
    interestName : Name;
    interestLifetime : N;
    mustBeFresh : bool;
    canBePrefix : bool
  }.

Record Data : Type := {
    dataName : Name;
    freshnessPeriod : N;
    content : string;
    signedWith : option string
  }.

Inductive PacketType : Type :=
  SENT_HELLO_INTEREST | RCV_HELLO_INTEREST | SENT_HELLO_DATA | RCV_HELLO_DATA.

Inductive Task : Type :=
  | SendHelloInterestTask (n : Name)
  | ProcessInterestTimedOutTask (i : Interest).

(** What a handler does besides changing the adjacency list, in program
    order: the signals it emits, the statistics signal, the calls on the
    face, the scheduler, the validator, the routing table and the LSDB. *)
Inductive Effect : Type :=
  | OnInterestSent (n : Name)
  | OnDataReceived (n : Name)
  | OnTimeout (n : Name) (count : N)
  | OnNeighborStatusChanged (n : Name) (s : Status)
  | OnInitialHelloDataValidated (n : Name)
  | HpIncrementSignal (t : PacketType)
  | FaceExpressInterest (i : Interest)
  | FacePut (d : Data)
  | Schedule (seconds : N) (t : Task)
  | ValidatorValidate (d : Data)
  | ScheduleRoutingTableCalculation
  | ScheduleAdjLsaBuild.

Section Engine.

(** The TLV codec of the packet library: the encoding of a name as one
    component, and its decoding, which fails on a malformed block. *)
Variable wireEncode : Name -> Component.
Variable blockFromValue : Component -> option Name.

Variable conf : ConfParameter.

(** [/<neighbor>/NLSR/INFO/<router>] *)
Definition helloName (n : Name) : Name :=
  n ++ [NLSR_COMPONENT; INFO_COMPONENT; wireEncode (getRouterPrefix conf)].

Definition helloInterest (name : Name) (seconds : N) : Interest :=
  {| interestName := name; interestLifetime := seconds;
     mustBeFresh := true; canBePrefix := true |}.

Definition expressInterest (name : Name) (seconds : N) : list Effect :=
  [ OnInterestSent (getPrefix_back 3 name);
    FaceExpressInterest (helloInterest name seconds);
    HpIncrementSignal SENT_HELLO_INTEREST ].

(** The Nack callback that [expressInterest] registers. *)
Definition onNack (seconds : N) (i : Interest) : list Effect :=
  [ Schedule (to_uint32 (2 * seconds)) (ProcessInterestTimedOutTask i) ].

Definition reconverge : Effect :=
  match getHyperbolicState conf with
  | HYPERBOLIC_STATE_ON => ScheduleRoutingTableCalculation
  | HYPERBOLIC_STATE_OFF => ScheduleAdjLsaBuild
  end.

Definition sendHelloInterest (l : AdjacencyList) (n : Name) : list Effect :=
  match findAdjacent l n with
  | None => []
  | Some adjacent =>
      (if negb (faceId adjacent =? 0)
       then expressInterest (helloName n) (getInterestResendTime conf)
       else [])
      ++ [ Schedule (getInfoInterestInterval conf) (SendHelloInterestTask n) ]
  end.

(** [version] is the component [appendVersion] adds. *)
Definition processInterest (l : AdjacencyList) (i : Interest) (version : Component)
    : option (list Effect) :=
  let name := interestName i in
  let received := [ HpIncrementSignal RCV_HELLO_INTEREST ] in
  c ← get_back 2 name;
  if negb (String.eqb c INFO_COMPONENT) then Some received
  else
    last ← get_back 1 name;
    n ← blockFromValue last;
    if isNeighbor l n then
      let data := {| dataName := name ++ [version]; freshnessPeriod := 0;
                     content := INFO_COMPONENT;
                     signedWith := Some (getSigningInfo conf) |} in
      let replied := received ++ [ FacePut data; HpIncrementSignal SENT_HELLO_DATA ] in
      adjacent ← findAdjacent l n;
      match status adjacent with
      | STATUS_INACTIVE =>
          if negb (faceId adjacent =? 0)
          then Some (replied ++ expressInterest (helloName n) (getInterestResendTime conf))
          else Some replied
      | STATUS_ACTIVE => Some replied
      end
    else Some received.

Definition processInterestTimedOut (l : AdjacencyList) (i : Interest)
    : option (AdjacencyList * list Effect) :=
  c ← get_back 2 (interestName i);
  if negb (String.eqb c INFO_COMPONENT) then Some (l, [])
  else
    let n := getPrefix_back 3 (interestName i) in
    let l1 := incrementTimedOutInterestCount l n in
    let st := getStatusOfNeighbor l1 n in
    let infoIntTimedOutCount := to_uint32 (getTimedOutInterestCount l1 n) in
    let emitted := [ OnTimeout n infoIntTimedOutCount ] in
    if infoIntTimedOutCount <? getInterestRetryNumber conf then
      Some (l1, emitted ++ expressInterest (helloName n) (getInterestResendTime conf))
    else
      match st with
      | STATUS_ACTIVE =>
          Some (setStatusOfNeighbor l1 n STATUS_INACTIVE,
                emitted ++ [ OnNeighborStatusChanged n STATUS_INACTIVE; reconverge ])
      | STATUS_INACTIVE => Some (l1, emitted)
      end.

(** What [k] successive timeouts below the retry limit emit for [n], the
    count being [count] before the first of them: each reports the new count
    and reissues the probe. *)
Fixpoint reissues (n : Name) (count : N) (k : nat) : list Effect :=
  match k with
  | O => []
  | S k' =>
      [ OnTimeout n (count + 1) ]
      ++ expressInterest (helloName n) (getInterestResendTime conf)
      ++ reissues n (count + 1) k'
  end.

Definition onContent (d : Data) : list Effect := [ ValidatorValidate d ].

Definition onContentValidated (l : AdjacencyList) (d : Data)
    : option (AdjacencyList * list Effect) :=
  c ← get_back 3 (dataName d);
  if String.eqb c INFO_COMPONENT then
    let n := getPrefix_back 4 (dataName d) in
    let oldStatus := getStatusOfNeighbor l n in
    let l1 := setStatusOfNeighbor l n STATUS_ACTIVE in
    let l2 := setTimedOutInterestCount l1 n 0 in
    let newStatus := getStatusOfNeighbor l2 n in
    let changed :=
      if negb (status_value oldStatus - status_value newStatus =? 0)%Z then
        (match newStatus with
         | STATUS_ACTIVE => [ OnNeighborStatusChanged n STATUS_ACTIVE ]
         | STATUS_INACTIVE => []
         end)
        ++ [ reconverge; OnInitialHelloDataValidated n ]
      else [] in
    Some (l2, [ OnDataReceived n ] ++ changed ++ [ HpIncrementSignal RCV_HELLO_DATA ])
  else Some (l, [ HpIncrementSignal RCV_HELLO_DATA ]).

Definition onContentValidationFailed (d : Data) : list Effect := [].

(** One event delivered to the engine by the face, the scheduler or the
    validator, and the engine's reaction to it. *)
Inductive Input : Type :=
  | SendHelloTick (n : Name)
  | InterestArrived (i : Interest) (version : Component)
  | InterestTimedOut (i : Interest)
  | NackArrived (seconds : N) (i : Interest)
  | ContentArrived (d : Data)
  | ContentValidated (d : Data)
  | ContentValidationFailed (d : Data).

Definition step (l : AdjacencyList) (x : Input) : option (AdjacencyList * list Effect) :=
  match x with
  | SendHelloTick n => Some (l, sendHelloInterest l n)
  | InterestArrived i version => e ← processInterest l i version; Some (l, e)
  | InterestTimedOut i => processInterestTimedOut l i
  | NackArrived seconds i => Some (l, onNack seconds i)
  | ContentArrived d => Some (l, onContent d)
  | ContentValidated d => onContentValidated l d
  | ContentValidationFailed d => Some (l, onContentValidationFailed d)
  end.

(** A trace: the events are handled one after the other, each to
    completion, and the effects accumulate in order. *)
Fixpoint run (l : AdjacencyList) (xs : list Input) : option (AdjacencyList * list Effect) :=
  match xs with
  | [] => Some (l, [])
  | x :: rest =>
      '(l1, e1) ← step l x;
      '(l2, e2) ← run l1 rest;
      Some (l2, e1 ++ e2)
  end.

End Engine.

(** The statuses reported for [n], in order of emission. *)
Fixpoint status_events (n : Name) (es : list Effect) : list Status :=
  match es with
  | [] => []
  | OnNeighborStatusChanged m s :: rest =>
      if decide (m = n) then s :: status_events n rest else status_events n rest
  | _ :: rest => status_events n rest
  end.

Fixpoint alternates (ss : list Status) : bool :=
  match ss with
  | s1 :: ((s2 :: _) as rest) => negb (bool_decide (s1 = s2)) && alternates rest
  | _ => true
  end.

Definition is_reconverge (e : Effect) : bool :=
  match e with
  | ScheduleRoutingTableCalculation | ScheduleAdjLsaBuild => true
  | _ => false
  end.

Definition is_probe (e : Effect) : bool :=
  match e with FaceExpressInterest _ => true | _ => false end.

Definition is_schedule (e : Effect) : bool :=
  match e with Schedule _ _ => true | _ => false end.

End Hello.

(** ** Queries and exchanges

    What the further properties are stated with: the calculator serving a
    sequence of queries, and readings of what the engine emits. *)

Module Nearest.

(** Where the bits [R] that [n] shifts drop lie against the half of the
    last place kept, and the mantissa [M] shifted by [n] places and rounded
    to nearest, ties to even. *)
Definition remainder_location (R n : Z) : location :=
  if R =? 0 then loc_Exact else loc_Inexact (2 * R ?= 2 ^ n).

Definition nearest (M n : Z) : Z :=
  round_nearest_even (M / 2 ^ n) (remainder_location (M mod 2 ^ n) n).

End Nearest.

Module Queries.

Import LoadAware.

(** A query of the link-cost manager through the callback the constructor
    registers, and the calculator serving a sequence of queries: the costs
    it returns, in order, and the state it ends in. *)
Record Query : Type := {
    q_now : Time.time_point;
    q_neighbor : Name;
    q_rttBasedCost : double;
    q_metrics : LinkMetrics
  }.

Fixpoint serve (MAX_RTT_HISTORY : nat) (qs : list Query) (c : Calculator)
    : list double * Calculator :=
  match qs with
  | [] => ([], c)
  | q :: rest =>
      let '(cost, c1) := calculateLoadAwareCost MAX_RTT_HISTORY (q_now q) (q_neighbor q)
                           (q_rttBasedCost q) (q_metrics q) c in
      let '(costs, c2) := serve MAX_RTT_HISTORY rest c1 in
      (cost :: costs, c2)
  end.

(** The guard of the cost function:
    [rttBasedCost <= 0 || metrics.originalCost <= 0]. *)
Definition not_adjustable (rttBasedCost : double) (metrics : LinkMetrics) : bool :=
  leb rttBasedCost zero || leb (originalCost metrics) zero.

(** The metrics with another timeout count, and a calculator whose weights
    are finite binary64 numbers above zero. *)
Definition with_timeouts (metrics : LinkMetrics) (count : N) : LinkMetrics :=
  {| neighbor := neighbor metrics; originalCost := originalCost metrics;
     currentRtt := currentRtt metrics; timeoutCount := Some count;
     lastSuccessTime := lastSuccessTime metrics |}.

Definition positive_weight (w : double) : bool := finite_pos w && valid w.

(** The metrics with another original cost. *)
Definition with_original_cost (metrics : LinkMetrics) (cost : double) : LinkMetrics :=
  {| neighbor := neighbor metrics; originalCost := cost;
     currentRtt := currentRtt metrics; timeoutCount := timeoutCount metrics;
     lastSuccessTime := lastSuccessTime metrics |}.

End Queries.

Module Exchange.

Import Hello.

(** The name the constructor sets the interest filter on:
    [/<router>/NLSR/INFO]. *)
Definition filterName (conf : ConfParameter) : Name :=
  getRouterPrefix conf ++ [NLSR_COMPONENT; INFO_COMPONENT].

(** Readings of an effect list: the neighbors [InterestSent] was emitted
    for, the interests handed to the face and the data put on it, in
    order; and the kinds of effect that are counted. *)
Fixpoint sent_to (es : list Effect) : list Name :=
  match es with
  | [] => []
  | OnInterestSent n :: rest => n :: sent_to rest
  | _ :: rest => sent_to rest
  end.

Fixpoint expressed (es : list Effect) : list Interest :=
  match es with
  | [] => []
  | FaceExpressInterest i :: rest => i :: expressed rest
  | _ :: rest => expressed rest
  end.

Fixpoint put (es : list Effect) : list Data :=
  match es with
  | [] => []
  | FacePut d :: rest => d :: put rest
  | _ :: rest => put rest
  end.

Definition is_status_change (e : Effect) : bool :=
  match e with OnNeighborStatusChanged _ _ => true | _ => false end.

Definition is_activation (e : Effect) : bool :=
  match e with OnNeighborStatusChanged _ STATUS_ACTIVE => true | _ => false end.

Definition is_initial_validated (e : Effect) : bool :=
  match e with OnInitialHelloDataValidated _ => true | _ => false end.

Definition is_sent_interest_count (e : Effect) : bool :=
  match e with HpIncrementSignal SENT_HELLO_INTEREST => true | _ => false end.

(** The effects that tell of a change of status: the signal, the
    reconvergence request, [InitialHelloDataValidated]. *)
Definition is_change_notice (e : Effect) : bool :=
  is_status_change e || is_reconverge e || is_initial_validated e.

Definition count (p : Effect -> bool) (es : list Effect) : nat := length (List.filter p es).

Section Emitted.

Variable wireEncode : Name -> Component.
Variable conf : ConfParameter.

(** The groups of effects the handlers emit together: a probe with its
    signal and its count, the next periodic send, the count of a received
    interest, a reply with its count, a timeout report, a deactivation with
    its reconvergence, the task a Nack schedules, a validation request, a
    data report, an activation with its reconvergence and its
    [InitialHelloDataValidated], the count of received data. *)
Inductive group : list Effect -> Prop :=
  | group_probe (n : Name) :
      group (expressInterest (helloName wireEncode conf n) (getInterestResendTime conf))
  | group_next (n : Name) :
      group [ Schedule (getInfoInterestInterval conf) (SendHelloInterestTask n) ]
  | group_rcv_interest : group [ HpIncrementSignal RCV_HELLO_INTEREST ]
  | group_reply (d : Data) : group [ FacePut d; HpIncrementSignal SENT_HELLO_DATA ]
  | group_timeout (n : Name) (k : N) : group [ OnTimeout n k ]
  | group_down (n : Name) :
      group [ OnNeighborStatusChanged n STATUS_INACTIVE; reconverge conf ]
  | group_nack (seconds : N) (i : Interest) : group (onNack seconds i)
  | group_validate (d : Data) : group [ ValidatorValidate d ]
  | group_data (n : Name) : group [ OnDataReceived n ]
  | group_up (n : Name) :
      group [ OnNeighborStatusChanged n STATUS_ACTIVE; reconverge conf;
              OnInitialHelloDataValidated n ]
  | group_rcv_data : group [ HpIncrementSignal RCV_HELLO_DATA ].

Inductive groups : list Effect -> Prop :=
  | groups_nil : groups []
  | groups_cons (g es : list Effect) : group g -> groups es -> groups (g ++ es).

End Emitted.

End Exchange.

(** ** Sample data

    A router [/ndn/site/r0] with one neighbor [/ndn/site/r1] on face 7,
    probes every 60 s with a lifetime of 15 s and a retry limit of 3; the
    scenarios the properties are tried on. *)

Module Sample.

Import LoadAware Hello.

Definition router : Name := ["ndn"; "site"; "r0"]%string.
Definition r1 : Name := ["ndn"; "site"; "r1"]%string.

Definition encode (n : Name) : Component := String.concat "/" n.
Definition decode (c : Component) : option Name :=
  if String.eqb c (encode r1) then Some r1 else None.

Definition conf : ConfParameter :=
  {| getRouterPrefix := router;
     getInfoInterestInterval := 60;
     getInterestResendTime := 15;
     getInterestRetryNumber := 3;
     getHyperbolicState := HYPERBOLIC_STATE_OFF;
     getSigningInfo := "id:/ndn/site/r0"%string |}.

Definition r1_active : Adjacent :=
  {| faceId := 7; status := STATUS_ACTIVE; interestTimedOutNo := 0 |}.
Definition r1_inactive : Adjacent :=
  {| faceId := 7; status := STATUS_INACTIVE; interestTimedOutNo := 2 |}.

Definition adjacency_up : gmap Name Adjacent := {[ r1 := r1_active ]}.
Definition adjacency_down : gmap Name Adjacent := {[ r1 := r1_inactive ]}.

Definition probe : Interest :=
  helloInterest (helloName encode conf r1) (getInterestResendTime conf).

(** [/ndn/site/r1/NLSR/INFO/<router>/v1], a well-formed response, and a
    response whose antepenultimate component is not [INFO]. *)
Definition response : Data :=
  {| dataName := helloName encode conf r1 ++ ["v1"%string];
     freshnessPeriod := 0; content := INFO_COMPONENT; signedWith := Some "id:/ndn/site/r1"%string |}.
Definition stray : Data :=
  {| dataName := r1 ++ ["NLSR"; "LSA"; "x"; "v1"]%string;
     freshnessPeriod := 0; content := "x"%string; signedWith := Some "id:/ndn/site/r1"%string |}.

(** Link metrics: cost 100, a timeout count of 0, a success at the instant
    of the call. *)
Definition metrics (rtt : option Time.nanoseconds) : LinkMetrics :=
  {| neighbor := r1; originalCost := of_Z 100; currentRtt := rtt;
     timeoutCount := Some 0%N; lastSuccessTime := Some (Time.of_seconds 1000) |}.

Definition now : Time.time_point := Time.of_seconds 1000.

(** 10.0001 ms *)
Definition rtt_10_0001ms : Time.nanoseconds := 10000100.

(** The link of the cost scenario: RTT 60 ms, two timeouts, last success
    120 s before [now], after four samples of 40, 80, 40 and 80 ms. *)
Definition loaded_metrics : LinkMetrics :=
  {| neighbor := r1; originalCost := of_Z 100;
     currentRtt := Some (Time.of_milliseconds 60);
     timeoutCount := Some 2%N; lastSuccessTime := Some (Time.of_seconds 880) |}.
Definition four_samples : Calculator :=
  set_history {[ r1 := [of_Z 40; of_Z 80; of_Z 40; of_Z 80] ]} initial.

(** A calculator that has seen two samples of [r1], 10 ms and 100 ms. *)
Definition two_samples : Calculator :=
  set_history {[ r1 := [of_Z 10; of_Z 100] ]} initial.


(** A second neighbor [/ndn/site/r2] and a query about it; metrics of
    [r1] without a timeout count, the last success 900 s before [now]; a
    history of two equal samples. *)
Definition r2 : Name := ["ndn"; "site"; "r2"]%string.

Definition query_r2 : Queries.Query :=
  {| Queries.q_now := now; Queries.q_neighbor := r2; Queries.q_rttBasedCost := of_Z 100;
     Queries.q_metrics :=
       {| neighbor := r2; originalCost := of_Z 100;
          currentRtt := Some (Time.of_milliseconds 80);
          timeoutCount := None; lastSuccessTime := None |} |}.

Definition unwatched_metrics : LinkMetrics :=
  {| neighbor := r1; originalCost := of_Z 100; currentRtt := None;
     timeoutCount := None; lastSuccessTime := Some (Time.of_seconds 100) |}.

Definition steady_history : gmap Name (list double) := {[ r1 := [of_Z 30; of_Z 30] ]}.

(** The other end: the configuration of [r1], which has the router as an
    inactive neighbor on face 9, and the probe it sends to the router. *)
Definition conf_r1 : ConfParameter :=
  {| getRouterPrefix := r1;
     getInfoInterestInterval := 60;
     getInterestResendTime := 15;
     getInterestRetryNumber := 3;
     getHyperbolicState := HYPERBOLIC_STATE_OFF;
     getSigningInfo := "id:/ndn/site/r1"%string |}.

Definition adjacency_of_r1 : gmap Name Adjacent :=
  {[ router := {| faceId := 9; status := STATUS_INACTIVE; interestTimedOutNo := 0 |} ]}.

Definition probe_of_r1 : Interest :=
  helloInterest (helloName encode conf_r1 router) (getInterestResendTime conf_r1).

(** A trace: a periodic send and a response bring the neighbor up, three
    timeouts take it down, a response brings it up again. *)
Definition lifecycle : list Input :=
  [ SendHelloTick r1; ContentValidated response ]
  ++ replicate 3 (InterestTimedOut probe)
  ++ [ ContentValidated response ].

(** What the trace emits, event by event; it ends in [adjacency_up]. *)
Definition lifecycle_effects : list Effect :=
  [ OnInterestSent r1; FaceExpressInterest probe; HpIncrementSignal SENT_HELLO_INTEREST;
    Schedule 60 (SendHelloInterestTask r1) ]
  ++ [ OnDataReceived r1; OnNeighborStatusChanged r1 STATUS_ACTIVE; ScheduleAdjLsaBuild;
       OnInitialHelloDataValidated r1; HpIncrementSignal RCV_HELLO_DATA ]
  ++ [ OnTimeout r1 1; OnInterestSent r1; FaceExpressInterest probe;
       HpIncrementSignal SENT_HELLO_INTEREST ]
  ++ [ OnTimeout r1 2; OnInterestSent r1; FaceExpressInterest probe;
       HpIncrementSignal SENT_HELLO_INTEREST ]
  ++ [ OnTimeout r1 3; OnNeighborStatusChanged r1 STATUS_INACTIVE; ScheduleAdjLsaBuild ]
  ++ [ OnDataReceived r1; OnNeighborStatusChanged r1 STATUS_ACTIVE; ScheduleAdjLsaBuild;
       OnInitialHelloDataValidated r1; HpIncrementSignal RCV_HELLO_DATA ].

(** The reply of the router to the probe of [r1], and what the interest
    handler emits for that probe: the reply and, [r1] being inactive, a
    probe in return. *)
Definition reply : Data :=
  {| dataName := interestName probe_of_r1 ++ ["v1"%string]; freshnessPeriod := 0;
     content := INFO_COMPONENT; signedWith := Some (getSigningInfo conf) |}.

Definition reply_effects : list Effect :=
  [ HpIncrementSignal RCV_HELLO_INTEREST; FacePut reply; HpIncrementSignal SENT_HELLO_DATA;
    OnInterestSent r1; FaceExpressInterest probe; HpIncrementSignal SENT_HELLO_INTEREST ].

(** A calculator that has seen three samples of 5 ms for [r1]. *)
Definition steady_calculator : Calculator :=
  set_history {[ r1 := [of_Z 5; of_Z 5; of_Z 5] ]} initial.

End Sample.

(** * Properties *)

(** ** binary64 rounding

    What the cost function needs of IEEE arithmetic: rounding to nearest
    never crosses a representable number, so it is monotone; and the sign
    and the absence of NaN are kept by the operations on numbers that are
    zero or above. *)

Section Shifts.

Lemma digits2_pos_size (p : positive) : digits2_pos p = Pos.size p.
Proof. induction p as [p IH|p IH|]; cbn; by rewrite ?IH. Qed.

Lemma Zdigits2_log2 (M : Z) : 0 < M -> Zdigits2 M = Z.log2 M + 1.
Proof.
  destruct M as [|p|p]; try lia. intros _. cbn [Zdigits2].
  rewrite digits2_pos_size. destruct p as [p|p|]; cbn [Pos.size Z.log2]; lia.
Qed.

Lemma Zdigits2_bounds (M : Z) : 0 < M -> 2 ^ (Zdigits2 M - 1) <= M < 2 ^ Zdigits2 M.
Proof.
  intros HM. rewrite Zdigits2_log2 by assumption.
  replace (Z.log2 M + 1 - 1) with (Z.log2 M) by lia.
  pose proof (Z.log2_spec M HM). lia.
Qed.

Lemma Zdigits2_mono (a b : Z) : 0 < a <= b -> Zdigits2 a <= Zdigits2 b.
Proof.
  intros H. rewrite !Zdigits2_log2 by lia.
  pose proof (Z.log2_le_mono a b). lia.
Qed.

Lemma Zdigits2_mul_pow2 (a k : Z) : 0 < a -> 0 <= k -> Zdigits2 (a * 2 ^ k) = Zdigits2 a + k.
Proof.
  intros Ha Hk. rewrite !Zdigits2_log2 by (try apply Z.mul_pos_pos; lia).
  rewrite Z.log2_mul_pow2 by lia. lia.
Qed.

(** digits of a quotient by a power of two *)
Lemma Zdigits2_div_pow2 (a k : Z) :
  0 < a -> 0 <= k -> k < Zdigits2 a -> Zdigits2 (a / 2 ^ k) = Zdigits2 a - k.
Proof.
  intros Ha Hk Hlt.
  pose proof (Zdigits2_bounds a Ha) as [Hlo Hhi].
  assert (Hq : 0 < a / 2 ^ k).
  { apply Z.div_str_pos. split; [lia|].
    apply Z.le_trans with (2 ^ (Zdigits2 a - 1)); [|assumption].
    apply Z.pow_le_mono_r; lia. }
  rewrite !Zdigits2_log2 by lia.
  rewrite <- Z.shiftr_div_pow2 by lia.
  rewrite Z.log2_shiftr by lia.
  rewrite Zdigits2_log2 in Hlt by lia. lia.
Qed.

Lemma iter_pos_nat {A : Type} (f : A -> A) (p : positive) (x : A) :
  SpecFloat.iter_pos f p x = Nat.iter (Pos.to_nat p) f x.
Proof.
  revert x. induction p as [p IH|p IH|]; intros x; cbn [SpecFloat.iter_pos].
  - rewrite !IH, Pos2Nat.inj_xI.
    replace (S (2 * Pos.to_nat p)) with (Pos.to_nat p + (Pos.to_nat p + 1))%nat by lia.
    rewrite !Nat.iter_add. reflexivity.
  - rewrite !IH, Pos2Nat.inj_xO.
    replace (2 * Pos.to_nat p)%nat with (Pos.to_nat p + Pos.to_nat p)%nat by lia.
    by rewrite Nat.iter_add.
  - reflexivity.
Qed.

Lemma shr_1_spec (mrs : shr_record) :
  0 <= shr_m mrs ->
  shr_m (shr_1 mrs) = shr_m mrs / 2
  /\ inexact (shr_1 mrs) = Z.odd (shr_m mrs) || inexact mrs.
Proof.
  destruct mrs as [m r s]. cbn [shr_m]. intros Hm. unfold inexact.
  destruct m as [|p|p]; [| |lia].
  - cbn. split; [reflexivity|]. by destruct r, s.
  - destruct p as [p|p|]; cbn [shr_1 shr_m shr_r shr_s Z.odd].
    + split; [|by destruct r, s].
      rewrite Pos2Z.inj_xI. apply Z.div_unique with (r := 1); lia.
    + split; [|by destruct r, s].
      rewrite Pos2Z.inj_xO. apply Z.div_unique with (r := 0); lia.
    + split; [|by destruct r, s]. reflexivity.
Qed.

Lemma shr_iter (n : nat) (mrs : shr_record) :
  0 <= shr_m mrs ->
  shr_m (Nat.iter n shr_1 mrs) = shr_m mrs / 2 ^ Z.of_nat n
  /\ (inexact (Nat.iter n shr_1 mrs) = true ->
      inexact mrs = true \/ shr_m mrs mod 2 ^ Z.of_nat n <> 0).
Proof.
  intros Hm. induction n as [|n [IHm IHi]].
  - change (Nat.iter 0 shr_1 mrs) with mrs.
    rewrite Z.pow_0_r, Z.div_1_r. split; [reflexivity|]. by left.
  - rewrite Nat.iter_succ.
    assert (Hpos : 0 <= shr_m (Nat.iter n shr_1 mrs)).
    { rewrite IHm. apply Z.div_pos; lia. }
    destruct (shr_1_spec _ Hpos) as [H1 H2].
    rewrite Nat2Z.inj_succ, Z.pow_succ_r by lia. split.
    + rewrite H1, IHm, Z.div_div by lia. f_equal. lia.
    + rewrite H2. intros Hor. apply orb_true_iff in Hor as [Hodd|Hin].
      * right. intros Hmod. rewrite IHm in Hodd.
        apply Z.mod_divide in Hmod; [|lia]. destruct Hmod as [c Hc].
        rewrite Hc in Hodd.
        replace (c * (2 * 2 ^ Z.of_nat n)) with ((c * 2) * 2 ^ Z.of_nat n) in Hodd by lia.
        rewrite Z.div_mul in Hodd by lia.
        rewrite Z.odd_mul in Hodd. cbn in Hodd. by rewrite andb_false_r in Hodd.
      * destruct (IHi Hin) as [Hi|Hi]; [by left|right].
        intros Hmod. apply Hi.
        apply Z.mod_divide in Hmod; [|lia]. destruct Hmod as [c Hc].
        rewrite Hc. replace (c * (2 * 2 ^ Z.of_nat n)) with ((c * 2) * 2 ^ Z.of_nat n) by lia.
        apply Z.mod_mul. lia.
Qed.

End Shifts.

Section RoundedValue.

Lemma inexact_of_loc (M : Z) (l : location) :
  inexact (shr_record_of_loc M l) = true -> l <> loc_Exact.
Proof. destruct l as [|[]]; cbn; congruence. Qed.

Lemma shr_m_of_loc (M : Z) (l : location) : shr_m (shr_record_of_loc M l) = M.
Proof. by destruct l as [|[]]. Qed.

Lemma rne_bounds (mrs : shr_record) :
  let m1 := round_nearest_even (shr_m mrs) (loc_of_shr_record mrs) in
  shr_m mrs <= m1 <= shr_m mrs + 1 /\ (inexact mrs = false -> m1 = shr_m mrs).
Proof.
  destruct mrs as [m [] []]; cbn; unfold inexact; cbn;
    try destruct (Z.even m); split; try lia; try congruence.
Qed.

Lemma shr_fexp_spec (M E : Z) (l : location) :
  0 <= M ->
  let n := Z.max 0 (fexp prec emax (Zdigits2 M + E) - E) in
  shr_m (fst (shr_fexp prec emax M E l)) = M / 2 ^ n
  /\ snd (shr_fexp prec emax M E l) = E + n
  /\ (inexact (fst (shr_fexp prec emax M E l)) = true ->
      l <> loc_Exact \/ M mod 2 ^ n <> 0).
Proof.
  intros HM. cbv zeta. unfold shr_fexp, shr.
  destruct (fexp prec emax (Zdigits2 M + E) - E) as [|p|p] eqn:Hn; cbn [fst snd].
  - rewrite Z.max_l by lia. rewrite Z.pow_0_r, Z.div_1_r, shr_m_of_loc.
    split; [reflexivity|]. split; [lia|]. intros Hi. left. by eapply inexact_of_loc.
  - rewrite Z.max_r by lia. rewrite iter_pos_nat.
    pose proof (shr_iter (Pos.to_nat p) (shr_record_of_loc M l)) as Hit.
    rewrite shr_m_of_loc, positive_nat_Z in Hit. destruct (Hit HM) as [H1 H2].
    split; [assumption|]. split; [reflexivity|].
    intros Hi. destruct (H2 Hi) as [H3|H3]; [left; by eapply inexact_of_loc|by right].
  - rewrite Z.max_l by lia. rewrite Z.pow_0_r, Z.div_1_r, shr_m_of_loc.
    split; [reflexivity|]. split; [lia|]. intros Hi. left. by eapply inexact_of_loc.
Qed.


Lemma binary_round_aux_spec (s : bool) (M E : Z) (l : location) :
  0 <= M ->
  exists m1 : Z,
    let n1 := Z.max 0 (fexp prec emax (Zdigits2 M + E) - E) in
    let e1 := E + n1 in
    let n2 := Z.max 0 (fexp prec emax (Zdigits2 m1 + e1) - e1) in
    M / 2 ^ n1 <= m1 <= M / 2 ^ n1 + 1
    /\ (l = loc_Exact -> M mod 2 ^ n1 = 0 -> m1 = M / 2 ^ n1)
    /\ binary_round_aux prec emax s M E l = rounded s (m1 / 2 ^ n2) (e1 + n2).
Proof.
  intros HM. unfold binary_round_aux.
  pose proof (shr_fexp_spec M E l HM) as (H1 & H2 & H3). cbv zeta in H1, H2, H3.
  destruct (shr_fexp prec emax M E l) as [mrs' e'] eqn:Hs1. cbn [fst snd] in H1, H2, H3.
  pose proof (rne_bounds mrs') as [Hb Hex]. cbv zeta in Hb, Hex.
  set (m1 := round_nearest_even (shr_m mrs') (loc_of_shr_record mrs')) in *.
  exists m1. cbv zeta. rewrite <- H1, <- H2. split; [assumption|]. split.
  - intros -> Hmod. apply Hex. destruct (inexact mrs') eqn:Hi; [|reflexivity].
    destruct (H3 eq_refl) as [?|?]; [congruence|]. rewrite H1 in *. contradiction.
  - assert (Hm1 : 0 <= m1).
    { apply Z.le_trans with (shr_m mrs'); [|lia]. rewrite H1. apply Z.div_pos; lia. }
    pose proof (shr_fexp_spec m1 e' loc_Exact Hm1) as (G1 & G2 & _). cbv zeta in G1, G2.
    destruct (shr_fexp prec emax m1 e' loc_Exact) as [mrs'' e''] eqn:Hs2.
    cbn [fst snd] in G1, G2. rewrite G1, G2. reflexivity.
Qed.

End RoundedValue.

Section MonotoneRounding.

Lemma leb_finite (m p : positive) (e e2 : Z) :
  e < e2 \/ (e = e2 /\ Z.pos m <= Z.pos p) ->
  leb (S754_finite false m e) (S754_finite false p e2) = true.
Proof.
  intros H. unfold leb, SFleb, SFcompare.
  destruct (Z.compare_spec e e2) as [Heq|Hlt|Hgt]; [|reflexivity|lia].
  destruct H as [?|[_ Hle]]; [lia|].
  rewrite Pos.compare_cont_spec. cbn [Pos.switch_Eq].
  destruct (Pos.compare_spec m p); try reflexivity. lia.
Qed.

Lemma leb_finite_rounded (m : positive) (e m2 e2 : Z) :
  1 <= m2 ->
  e < e2 \/ (e = e2 /\ Z.pos m <= m2) ->
  leb (S754_finite false m e) (rounded false m2 e2) = true.
Proof.
  intros Hm2 H. unfold rounded. destruct m2 as [|p|p]; try lia.
  destruct (e2 <=? emax - prec); [by apply leb_finite|reflexivity].
Qed.

Lemma leb_rounded_finite (m : positive) (e m2 e2 : Z) :
  0 <= m2 -> e2 <= emax - prec ->
  m2 = 0 \/ e2 < e \/ (e2 = e /\ m2 <= Z.pos m) ->
  leb (rounded false m2 e2) (S754_finite false m e) = true.
Proof.
  intros Hm2 He2 H. unfold rounded. destruct m2 as [|p|p]; try lia; [reflexivity|].
  destruct (Z.leb_spec e2 (emax - prec)); [|lia].
  apply leb_finite. destruct H as [?|[?|?]]; [lia|by left|right; lia].
Qed.

Lemma div_pow2_ge (m M k : Z) : 0 <= k -> m * 2 ^ k <= M -> m <= M / 2 ^ k.
Proof.
  intros Hk H. apply Z.div_le_lower_bound; [apply Z.pow_pos_nonneg; lia|lia].
Qed.

Lemma div_pow2_lt (m M k : Z) : 0 <= k -> M < m * 2 ^ k -> M / 2 ^ k < m.
Proof.
  intros Hk H. apply Z.div_lt_upper_bound; [apply Z.pow_pos_nonneg; lia|lia].
Qed.

(** A quotient that keeps 53 digits, or the digits there are. *)
Lemma div_pow2_digits (M n : Z) :
  0 < M -> 0 <= n -> Zdigits2 M - 53 <= n ->
  Zdigits2 (M / 2 ^ n) <= 53.
Proof.
  intros HM Hn Hd. destruct (Z.lt_ge_cases n (Zdigits2 M)) as [Hlt|Hge].
  - rewrite Zdigits2_div_pow2 by lia. lia.
  - rewrite Z.div_small; [cbn; lia|].
    split; [lia|]. pose proof (Zdigits2_bounds M HM) as [_ Hhi].
    apply Z.lt_le_trans with (2 ^ Zdigits2 M); [assumption|].
    apply Z.pow_le_mono_r; lia.
Qed.

Lemma div_pow2_53_digits (M : Z) :
  0 < M -> 53 < Zdigits2 M ->
  2 ^ 52 <= M / 2 ^ (Zdigits2 M - 53).
Proof.
  intros HM Hd.
  assert (Hq : Zdigits2 (M / 2 ^ (Zdigits2 M - 53)) = 53).
  { rewrite Zdigits2_div_pow2 by lia. lia. }
  assert (Hpos : 0 < M / 2 ^ (Zdigits2 M - 53)).
  { assert (0 <= M / 2 ^ (Zdigits2 M - 53))
      by (apply Z.div_pos; [lia|apply Z.pow_pos_nonneg; lia]).
    destruct (M / 2 ^ (Zdigits2 M - 53)) as [|p|p] eqn:Hp; cbn in Hq; lia. }
  pose proof (Zdigits2_bounds _ Hpos) as [Hlo _]. rewrite Hq in Hlo.
  exact Hlo.
Qed.

Lemma digits_le_53 (m1 : Z) : 0 <= m1 -> m1 < 2 ^ 53 -> Zdigits2 m1 <= 53.
Proof.
  intros H0 Hlt. destruct (Z.eq_dec m1 0) as [->|Hne]; [cbn; lia|].
  pose proof (Zdigits2_bounds m1 ltac:(lia)) as [Hlo _].
  destruct (Z.le_gt_cases (Zdigits2 m1) 53) as [|Hgt]; [assumption|exfalso].
  assert (2 ^ 53 <= 2 ^ (Zdigits2 m1 - 1)) by (apply Z.pow_le_mono_r; lia).
  lia.
Qed.

Lemma canonical_exponent (m : positive) (e : Z) :
  canonical_mantissa prec emax m e = true ->
  e = Z.max (Zdigits2 (Z.pos m) + e - 53) (-1074).
Proof.
  unfold canonical_mantissa, fexp, emin, prec, emax. intros H.
  apply Z.eqb_eq in H. cbn [Zdigits2]. lia.
Qed.

Lemma fexp_eq (x : Z) : fexp prec emax x = Z.max (x - 53) (-1074).
Proof. reflexivity. Qed.

(** Rounding is monotone against a representable lower bound. *)
Lemma round_ge (m : positive) (e M k : Z) (l : location) :
  canonical_mantissa prec emax m e = true ->
  0 <= k -> Z.pos m * 2 ^ k <= M ->
  leb (S754_finite false m e) (binary_round_aux prec emax false M (e - k) l) = true.
Proof.
  intros Hcan Hk HM.
  assert (Hpow : 0 < 2 ^ k) by (apply Z.pow_pos_nonneg; lia).
  assert (HM0 : 0 < M) by nia.
  destruct (binary_round_aux_spec false M (e - k) l ltac:(lia)) as (m1 & Hb & _ & ->).
  cbv zeta in Hb |- *. rewrite !fexp_eq in *.
  apply canonical_exponent in Hcan.
  assert (Hdig : Zdigits2 (Z.pos m) + k <= Zdigits2 M).
  { rewrite <- Zdigits2_mul_pow2 by lia. apply Zdigits2_mono. lia. }
  set (dM := Zdigits2 M) in *. set (dm := Zdigits2 (Z.pos m)) in *.
  set (n1 := Z.max 0 (Z.max (dM + (e - k) - 53) (-1074) - (e - k))) in *.
  set (q := M / 2 ^ n1) in *.
  assert (Hq : 1 <= q /\ (e < e - k + n1 \/ (e = e - k + n1 /\ Z.pos m <= q))).
  { destruct (Z.eq_dec (e - k + n1) e) as [He1|He1].
    - assert (n1 = k) by lia.
      assert (Z.pos m <= q) by (unfold q; rewrite H; by apply div_pow2_ge).
      split; [lia|]. right. split; [lia|assumption].
    - assert (Hgt : e < e - k + n1) by lia.
      assert (Hn1 : n1 = dM - 53) by lia.
      assert (2 ^ 52 <= q).
      { unfold q. rewrite Hn1. apply div_pow2_53_digits; lia. }
      split; [lia|]. by left. }
  destruct Hq as [Hq1 Hq2].
  set (e1 := e - k + n1) in *.
  set (d1 := Zdigits2 m1).
  assert (He1 : -1074 <= e1) by lia.
  destruct (Z.le_gt_cases d1 53) as [Hd1|Hd1].
  - replace (Z.max 0 (Z.max (d1 + e1 - 53) (-1074) - e1)) with 0 by lia.
    rewrite Z.pow_0_r, Z.div_1_r, Z.add_0_r.
    apply leb_finite_rounded; [lia|]. destruct Hq2 as [?|[? ?]]; [by left|right; lia].
  - replace (Z.max 0 (Z.max (d1 + e1 - 53) (-1074) - e1)) with (d1 - 53) by lia.
    apply leb_finite_rounded; [|left; lia].
    pose proof (div_pow2_53_digits m1 ltac:(lia) Hd1). fold d1 in H. lia.
Qed.

(** Rounding an exact value is monotone against a representable upper
    bound. *)
Lemma round_le (m : positive) (e M k : Z) :
  canonical_mantissa prec emax m e = true ->
  e <= emax - prec ->
  0 <= k -> 0 < M <= Z.pos m * 2 ^ k ->
  leb (binary_round_aux prec emax false M (e - k) loc_Exact) (S754_finite false m e) = true.
Proof.
  intros Hcan Hbound Hk HM.
  assert (Hpow : 0 < 2 ^ k) by (apply Z.pow_pos_nonneg; lia).
  destruct (binary_round_aux_spec false M (e - k) loc_Exact ltac:(lia)) as (m1 & Hb & Hex & ->).
  cbv zeta in Hb, Hex |- *. rewrite !fexp_eq in *. specialize (Hex eq_refl).
  apply canonical_exponent in Hcan.
  assert (Hdig : Zdigits2 M <= Zdigits2 (Z.pos m) + k).
  { rewrite <- Zdigits2_mul_pow2 by lia. apply Zdigits2_mono. lia. }
  set (dM := Zdigits2 M) in *. set (dm := Zdigits2 (Z.pos m)) in *.
  set (n1 := Z.max 0 (Z.max (dM + (e - k) - 53) (-1074) - (e - k))) in *.
  set (q := M / 2 ^ n1) in *.
  assert (Hn1 : 0 <= n1) by lia.
  assert (Hq0 : 0 <= q) by (apply Z.div_pos; [lia|apply Z.pow_pos_nonneg; lia]).
  assert (Hqd : Zdigits2 q <= 53) by (apply div_pow2_digits; lia).
  set (e1 := e - k + n1) in *.
  assert (He1 : -1074 <= e1 <= e) by lia.
  (* when the target exponent is [e], the rounded mantissa is at most [m] *)
  assert (Hsame : e1 = e -> m1 <= Z.pos m).
  { intros Heq. assert (Hnk : n1 = k) by lia.
    destruct (Z.eq_dec (M mod 2 ^ n1) 0) as [Hmod|Hmod].
    - rewrite (Hex Hmod). unfold q. rewrite Hnk.
      apply Z.div_le_upper_bound; lia.
    - assert (M < Z.pos m * 2 ^ k).
      { destruct (Z.eq_dec M (Z.pos m * 2 ^ k)) as [HMeq|]; [|lia].
        exfalso. apply Hmod. rewrite Hnk, HMeq. apply Z.mod_mul. lia. }
      assert (q < Z.pos m) by (unfold q; rewrite Hnk; by apply div_pow2_lt).
      lia. }
  assert (Hm1 : 0 <= m1) by lia.
  set (d1 := Zdigits2 m1).
  destruct (Z.le_gt_cases d1 53) as [Hd1|Hd1].
  - replace (Z.max 0 (Z.max (d1 + e1 - 53) (-1074) - e1)) with 0 by lia.
    rewrite Z.pow_0_r, Z.div_1_r, Z.add_0_r.
    apply leb_rounded_finite; [lia|unfold emax, prec in *; lia|].
    destruct (Z.eq_dec e1 e) as [Heq|Hne]; [right; right; split; auto|right; left; lia].
  - (* the mantissa overflowed to 2^53 *)
    assert (Hq53 : q < 2 ^ 53).
    { destruct (Z.eq_dec q 0) as [->|Hq]; [lia|].
      pose proof (Zdigits2_bounds q ltac:(lia)) as [_ Hhi].
      apply Z.lt_le_trans with (2 ^ Zdigits2 q); [assumption|].
      apply Z.pow_le_mono_r; lia. }
    assert (Hm1eq : m1 = 2 ^ 53).
    { destruct (Z.eq_dec m1 (2 ^ 53)) as [|Hne]; [assumption|exfalso].
      pose proof (digits_le_53 m1 Hm1 ltac:(lia)). fold d1 in H. lia. }
    assert (Hd1eq : d1 = 54) by (unfold d1; rewrite Hm1eq; reflexivity).
    assert (Hlt : e1 < e).
    { destruct (Z.eq_dec e1 e) as [Heq|]; [|lia].
      specialize (Hsame Heq).
      assert (Z.pos m < 2 ^ 53); [|lia].
      pose proof (Zdigits2_bounds (Z.pos m) ltac:(lia)) as [_ Hhi]. fold dm in Hhi.
      apply Z.lt_le_trans with (2 ^ dm); [assumption|].
      apply Z.pow_le_mono_r; lia. }
    replace (Z.max 0 (Z.max (d1 + e1 - 53) (-1074) - e1)) with 1 by lia.
    rewrite Hm1eq. change (2 ^ 53 / 2 ^ 1) with (2 ^ 52).
    apply leb_rounded_finite; [lia|unfold emax, prec in *; lia|].
    destruct (Z.eq_dec (e1 + 1) e) as [Heq|Hne]; [|right; left; lia].
    right. right. split; [assumption|].
    assert (dm = 53) by lia.
    pose proof (Zdigits2_bounds (Z.pos m) ltac:(lia)) as [Hlo _]. fold dm in Hlo.
    rewrite H in Hlo. exact Hlo.
Qed.

End MonotoneRounding.

Section Order.

Lemma SFcompare_antisym (a b : double) :
  SFcompare b a = option_map CompOpp (SFcompare a b).
Proof.
  destruct a as [sa|sa| |sa ma ea], b as [sb|sb| |sb mb eb];
    try destruct sa; try destruct sb; try reflexivity; cbn.
  - rewrite (Z.compare_antisym eb ea). destruct (eb ?= ea); cbn; try reflexivity.
    rewrite (Pos.compare_cont_antisym _ _ Eq). cbn. by rewrite CompOpp_involutive.
  - rewrite (Z.compare_antisym eb ea). destruct (eb ?= ea); cbn; try reflexivity.
    by rewrite (Pos.compare_cont_antisym _ _ Eq).
Qed.

Lemma ltb_false_leb (a b : double) :
  is_nan a = false -> is_nan b = false -> ltb a b = false -> leb b a = true.
Proof.
  intros Ha Hb. unfold ltb, leb, SFltb, SFleb. rewrite (SFcompare_antisym a b).
  destruct (SFcompare a b) as [[]|] eqn:Hc; cbn; try congruence.
  destruct a as [sa|sa| |sa ma ea], b as [sb|sb| |sb mb eb]; cbn in *; congruence.
Qed.

Lemma leb_refl (a : double) : is_nan a = false -> leb a a = true.
Proof.
  intros Ha. apply ltb_false_leb; try assumption.
  unfold ltb, SFltb. pose proof (SFcompare_antisym a a) as H.
  destruct (SFcompare a a) as [[]|]; cbn in H; congruence.
Qed.

Lemma leb_not_nan (a b : double) : leb a b = true -> is_nan a = false /\ is_nan b = false.
Proof. destruct a as [| | |], b as [| | |]; cbn; try congruence; by split. Qed.

(** The clamp [max (min x hi) lo] lies between [lo] and [hi]. *)
Lemma clamp_bounds (x lo hi : double) :
  is_nan x = false -> leb lo hi = true ->
  leb lo (max (min x hi) lo) = true /\ leb (max (min x hi) lo) hi = true.
Proof.
  intros Hx Hlh. destruct (leb_not_nan _ _ Hlh) as [Hlo Hhi].
  assert (Hmin : is_nan (min x hi) = false /\ leb (min x hi) hi = true).
  { unfold min. destruct (ltb hi x) eqn:Hlt.
    - split; [assumption|by apply leb_refl].
    - split; [assumption|by apply ltb_false_leb]. }
  destruct Hmin as [Hmn Hmh]. unfold max.
  destruct (ltb (min x hi) lo) eqn:Hlt.
  - split; [by apply leb_refl|assumption].
  - split; [by apply ltb_false_leb|assumption].
Qed.

Lemma leb_trans_finite (a c : double) (m : positive) (e : Z) :
  leb a (S754_finite false m e) = true ->
  leb (S754_finite false m e) c = true ->
  leb a c = true.
Proof.
  unfold leb, SFleb.
  destruct a as [sa|sa| |sa ma ea], c as [sc|sc| |sc mc ec];
    try destruct sa; try destruct sc; cbn; try congruence.
  destruct (Z.compare_spec ea e), (Z.compare_spec e ec), (Z.compare_spec ea ec);
    try congruence; try lia.
  rewrite !Pos.compare_cont_spec. cbn [Pos.switch_Eq].
  destruct (Pos.compare_spec ma m), (Pos.compare_spec m mc), (Pos.compare_spec ma mc);
    cbn; try congruence; try lia.
Qed.

Lemma leb_finite_positive (c : double) (m : positive) (e : Z) :
  leb (S754_finite false m e) c = true -> is_positive c = true.
Proof. destruct c as [sc|sc| |sc mc ec]; try destruct sc; cbn; congruence. Qed.

Lemma ltb_zero_positive (x : double) : ltb zero x = true <-> is_positive x = true.
Proof. destruct x as [s|s| |s m e]; try destruct s; cbn; intuition congruence. Qed.

Lemma nonneg_not_nan (x : double) : nonneg x = true -> is_nan x = false.
Proof. destruct x as [s|s| |s m e]; try destruct s; cbn; congruence. Qed.

End Order.

Section Closure.

Lemma rounded_nonneg (m e : Z) : 0 <= m -> nonneg (rounded false m e) = true.
Proof.
  intros Hm. unfold rounded. destruct m as [|p|p]; [reflexivity| |lia].
  by destruct (e <=? emax - prec).
Qed.

Lemma binary_round_aux_nonneg (M E : Z) (l : location) :
  0 <= M -> nonneg (binary_round_aux prec emax false M E l) = true.
Proof.
  intros HM. destruct (binary_round_aux_spec false M E l HM) as (m1 & Hb & _ & ->).
  cbv zeta in Hb |- *. apply rounded_nonneg. apply Z.div_pos.
  - apply Z.le_trans with (M / 2 ^ Z.max 0 (fexp prec emax (Zdigits2 M + E) - E)); [|lia].
    apply Z.div_pos; [lia|apply Z.pow_pos_nonneg; lia].
  - apply Z.pow_pos_nonneg; lia.
Qed.

Lemma binary_round_nonneg (m : positive) (e : Z) :
  nonneg (binary_round prec emax false m e) = true.
Proof.
  unfold binary_round. destruct (shl_align _ _ _) as [mz ez].
  apply binary_round_aux_nonneg. lia.
Qed.

Lemma of_Z_nonneg (z : Z) : 0 <= z -> nonneg (of_Z z) = true.
Proof.
  intros Hz. unfold of_Z, binary_normalize. destruct z as [|p|p]; [reflexivity| |lia].
  apply binary_round_nonneg.
Qed.

Lemma mul_nonneg (w f : double) :
  finite_pos w = true -> nonneg f = true -> nonneg (mul w f) = true.
Proof.
  destruct w as [sw|sw| |sw mw ew]; try destruct sw; try discriminate. intros _.
  destruct f as [sf|sf| |sf mf ef]; try destruct sf; try discriminate; intros _;
    try reflexivity.
  unfold mul, SFmul. cbn [xorb]. apply binary_round_aux_nonneg. lia.
Qed.

Lemma mul_positive (a b : double) :
  is_positive a = true -> is_positive b = true -> nonneg (mul a b) = true.
Proof.
  destruct a as [sa|sa| |sa ma ea]; try destruct sa; try discriminate; intros _;
    destruct b as [sb|sb| |sb mb eb]; try destruct sb; try discriminate; intros _;
    try reflexivity.
  unfold mul, SFmul. cbn [xorb]. apply binary_round_aux_nonneg. lia.
Qed.

Lemma add_nonneg (a b : double) :
  nonneg a = true -> nonneg b = true -> nonneg (add a b) = true.
Proof.
  destruct a as [sa|sa| |sa ma ea]; try destruct sa; try discriminate; intros _;
    destruct b as [sb|sb| |sb mb eb]; try destruct sb; try discriminate; intros _;
    try reflexivity.
  unfold add, SFadd. cbn [cond_Zopp].
  match goal with |- context [Z.pos ?a + Z.pos ?b] =>
    change (Z.pos a + Z.pos b) with (Z.pos (a + b)) end.
  cbn [binary_normalize]. apply binary_round_nonneg.
Qed.

Lemma div_nonneg (a b : double) :
  nonneg a = true -> finite_pos b = true -> nonneg (div a b) = true.
Proof.
  destruct b as [sb|sb| |sb mb eb]; try destruct sb; try discriminate.
  destruct a as [sa|sa| |sa ma ea]; try destruct sa; try discriminate; intros _ _;
    try reflexivity.
  unfold div, SFdiv, SFdiv_core_binary. cbn [xorb].
  match goal with |- context [Z.div_eucl ?x ?y] =>
    pose proof (Z_div_mod x y ltac:(lia)) as Hdm;
    assert (Hx : 0 <= x);
    [|destruct (Z.div_eucl x y) as [q r]]
  end.
  { match goal with |- 0 <= match ?s with _ => _ end => destruct s eqn:Hs end; try lia.
    rewrite Z.shiftl_mul_pow2 by lia. apply Z.mul_nonneg_nonneg; [lia|].
    apply Z.pow_nonneg; lia. }
  apply binary_round_aux_nonneg. destruct Hdm as [Hdm Hr]. nia.
Qed.

Lemma mul_nonneg_r (f w : double) :
  nonneg f = true -> finite_pos w = true -> nonneg (mul f w) = true.
Proof.
  destruct w as [sw|sw| |sw mw ew]; try destruct sw; try discriminate.
  destruct f as [sf|sf| |sf mf ef]; try destruct sf; try discriminate; intros _ _;
    try reflexivity.
  unfold mul, SFmul. cbn [xorb]. apply binary_round_aux_nonneg. lia.
Qed.

Lemma mul_zero_r (w : double) : is_finite w = true -> is_zero (mul w zero) = true.
Proof. destruct w as [s|s| |s m e]; try discriminate; reflexivity. Qed.

(** Zeros added to a term do not show once 1.0 is added. *)
Lemma add_one_zeros (p z1 z2 : double) :
  is_zero z1 = true -> is_zero z2 = true ->
  add (S754_finite false 4503599627370496 (-52)) (add (add p z1) z2)
  = add (S754_finite false 4503599627370496 (-52)) p.
Proof.
  destruct z1 as [s1| | |]; try discriminate.
  destruct z2 as [s2| | |]; try discriminate. intros _ _.
  destruct p as [s|s| |s m e]; try destruct s; destruct s1, s2; reflexivity.
Qed.

Lemma min_nonneg (a b : double) :
  nonneg a = true -> nonneg b = true -> nonneg (min a b) = true.
Proof. intros Ha Hb. unfold min. by destruct (ltb b a). Qed.

End Closure.

Section Arithmetic.

Lemma shl_align_spec (mx : positive) (ex ex' : Z) :
  snd (shl_align mx ex ex') = Z.min ex ex'
  /\ Z.pos (fst (shl_align mx ex ex')) = Z.pos mx * 2 ^ (ex - snd (shl_align mx ex ex')).
Proof.
  unfold shl_align. destruct (ex' - ex) as [|d|d] eqn:Hd; cbn [fst snd].
  - split; [lia|]. rewrite Z.sub_diag. lia.
  - split; [lia|]. rewrite Z.sub_diag. lia.
  - split; [lia|]. replace (ex - ex') with (Z.pos d) by lia.
    change (Pos.iter xO mx d) with (shift_pos d mx).
    rewrite shift_pos_correct. change (Zpower_pos 2 d) with (2 ^ Z.pos d). lia.
Qed.

(** Adding a non-negative number does not make a positive number smaller. *)
Lemma add_ge_l (m : positive) (e : Z) (y : double) :
  canonical_mantissa prec emax m e = true ->
  nonneg y = true ->
  leb (S754_finite false m e) (add (S754_finite false m e) y) = true.
Proof.
  intros Hcan Hy.
  destruct y as [sy|sy| |sy my ey]; try destruct sy; try discriminate;
    try (apply leb_refl; reflexivity); try reflexivity.
  unfold add, SFadd. cbn [cond_Zopp].
  set (ez := Z.min e ey).
  destruct (shl_align_spec m e ez) as [Hs1 Hv1].
  destruct (shl_align_spec my ey ez) as [Hs2 Hv2].
  set (a := fst (shl_align m e ez)) in *. set (b := fst (shl_align my ey ez)) in *.
  change (Z.pos a + Z.pos b) with (Z.pos (a + b)).
  cbn [binary_normalize]. unfold binary_round.
  destruct (shl_align_spec (a + b) ez
              (fexp prec emax (Z.pos (digits2_pos (a + b)) + ez))) as [Hs3 Hv3].
  destruct (shl_align (a + b) ez _) as [mz ez2]. cbn [fst snd] in Hs3, Hv3.
  replace ez2 with (e - (e - ez2)) by lia.
  assert (Hez : ez <= e) by (unfold ez; lia).
  assert (Hez2 : ez2 <= ez) by lia.
  apply round_ge; [assumption|lia|].
  rewrite Hv3, Pos2Z.inj_add, Hv1, Hs1.
  replace (e - ez2) with ((e - Z.min e ez) + (ez - ez2)) by lia.
  rewrite Z.pow_add_r by lia.
  assert (0 < 2 ^ (ez - ez2)) by (apply Z.pow_pos_nonneg; lia).
  nia.
Qed.

Lemma valid_finite (s : bool) (m : positive) (e : Z) :
  valid (S754_finite s m e) = true ->
  canonical_mantissa prec emax m e = true /\ e <= emax - prec.
Proof.
  unfold valid, valid_binary, bounded. intros H.
  apply andb_prop in H as [H1 H2]. split; [assumption|]. by apply Z.leb_le.
Qed.

(** Halving does not increase, and tripling does not decrease, a positive
    binary64 number. *)
Lemma mul_half_le (m : positive) (e : Z) :
  valid (S754_finite false m e) = true ->
  leb (mul (S754_finite false m e) LoadAware.d0_5) (S754_finite false m e) = true.
Proof.
  intros Hv. apply valid_finite in Hv as [Hcan Hb].
  unfold mul, SFmul, LoadAware.d0_5. cbn [xorb].
  replace (e + -53) with (e - 53) by lia.
  apply round_le; [assumption|assumption|lia|].
  rewrite Pos2Z.inj_mul. change (Z.pos 4503599627370496) with (2 ^ 52).
  change (2 ^ 53) with (2 * 2 ^ 52). lia.
Qed.

Lemma mul_three_ge (m : positive) (e : Z) :
  valid (S754_finite false m e) = true ->
  leb (S754_finite false m e) (mul (S754_finite false m e) LoadAware.d3_0) = true.
Proof.
  intros Hv. apply valid_finite in Hv as [Hcan Hb].
  unfold mul, SFmul, LoadAware.d3_0. cbn [xorb].
  replace (e + -51) with (e - 51) by lia.
  apply round_ge; [assumption|lia|].
  rewrite Pos2Z.inj_mul. change (Z.pos 6755399441055744) with (3 * 2 ^ 51). lia.
Qed.

(** The clamp bounds of a positive cost are ordered. *)
Lemma clamp_bounds_ordered (x : double) :
  is_positive x = true -> valid x = true ->
  leb (mul x LoadAware.d0_5) (mul x LoadAware.d3_0) = true.
Proof.
  destruct x as [s|s| |s m e]; try destruct s; try discriminate; intros _ Hv.
  - reflexivity.
  - eapply leb_trans_finite; [by apply mul_half_le|by apply mul_three_ge].
Qed.

End Arithmetic.


(** ** The RTT history *)

Section HistoryFacts.

Import LoadAware.

Variable MAX_RTT_HISTORY : nat.

(** The trimming loop keeps the newest samples: it removes exactly the
    excess, from the front. *)
Lemma pop_excess_drop (history : list double) :
  pop_excess MAX_RTT_HISTORY history
  = drop (length history - MAX_RTT_HISTORY)%nat history.
Proof.
  induction history as [|x rest IH]; [reflexivity|].
  cbn [pop_excess]. destruct (Nat.ltb_spec MAX_RTT_HISTORY (length (x :: rest))) as [Hlt|Hge].
  - rewrite IH. cbn [length] in *.
    replace (S (length rest) - MAX_RTT_HISTORY)%nat
      with (S (length rest - MAX_RTT_HISTORY)) by lia.
    reflexivity.
  - replace (length (x :: rest) - MAX_RTT_HISTORY)%nat with 0%nat by lia.
    reflexivity.
Qed.

Lemma pop_excess_length (history : list double) :
  (length (pop_excess MAX_RTT_HISTORY history) <= MAX_RTT_HISTORY)%nat.
Proof. rewrite pop_excess_drop, length_drop. lia. Qed.

Lemma lookup_update_eq n x h :
  updateRttHistory MAX_RTT_HISTORY n x h !! n
  = Some (pop_excess MAX_RTT_HISTORY (history_of n h ++ [x])).
Proof. unfold updateRttHistory. by rewrite lookup_insert_eq. Qed.

Lemma lookup_update_ne n m x h :
  n <> m -> updateRttHistory MAX_RTT_HISTORY n x h !! m = h !! m.
Proof. intros Hne. unfold updateRttHistory. by rewrite lookup_insert_ne. Qed.

Lemma history_of_update_eq n x h :
  history_of n (updateRttHistory MAX_RTT_HISTORY n x h)
  = pop_excess MAX_RTT_HISTORY (history_of n h ++ [x]).
Proof. unfold history_of at 1, updateRttHistory. by rewrite lookup_insert_eq. Qed.

(** Two appends of the same sample, each followed by the trimming loop,
    leave what one trimming of the doubly extended history leaves. *)
Lemma pop_excess_twice (history : list double) (x : double) :
  pop_excess MAX_RTT_HISTORY (pop_excess MAX_RTT_HISTORY (history ++ [x]) ++ [x])
  = drop (length (history ++ [x; x]) - MAX_RTT_HISTORY)%nat (history ++ [x; x]).
Proof.
  rewrite !pop_excess_drop.
  rewrite length_app, length_drop, !length_app. cbn [length].
  replace (history ++ [x; x]) with ((history ++ [x]) ++ [x])
    by (rewrite <- app_assoc; reflexivity).
  set (l := history ++ [x]).
  assert (Hl : length l = (length history + 1)%nat)
    by (unfold l; rewrite length_app; reflexivity).
  destruct (Nat.le_gt_cases (length history + 1) MAX_RTT_HISTORY) as [Hle|Hgt].
  - replace (length history + 1 - MAX_RTT_HISTORY)%nat with 0%nat by lia.
    rewrite drop_0. f_equal. lia.
  - rewrite <- (drop_app_le l [x] (length history + 1 - MAX_RTT_HISTORY)) by lia.
    rewrite drop_drop. f_equal. lia.
Qed.

(** The history the load factor is computed from: the sample of the call,
    when there is one, has been appended. *)
Lemma getLoadFactor_history metrics h :
  snd (getLoadFactor MAX_RTT_HISTORY metrics h)
  = match currentRtt metrics with
    | Some rtt => updateRttHistory MAX_RTT_HISTORY (neighbor metrics)
                    (of_Z (Time.to_milliseconds rtt)) h
    | None => h
    end.
Proof.
  unfold getLoadFactor.
  destruct (_ !! neighbor metrics) as [hist|]; [destruct (length hist <? 3)%nat|];
    reflexivity.
Qed.

(** The cost function touches the history through [updateRttHistory] only:
    once under the name in the metrics, once under the name it was called
    with. *)
Lemma calculateLoadAwareCost_history now n rttBasedCost metrics c rtt :
  leb rttBasedCost zero = false ->
  leb (originalCost metrics) zero = false ->
  currentRtt metrics = Some rtt ->
  m_rttHistory (snd (calculateLoadAwareCost MAX_RTT_HISTORY now n rttBasedCost metrics c))
  = updateRttHistory MAX_RTT_HISTORY n (of_Z (Time.to_milliseconds rtt))
      (updateRttHistory MAX_RTT_HISTORY (neighbor metrics)
         (of_Z (Time.to_milliseconds rtt)) (m_rttHistory c)).
Proof.
  intros Hr Ho Hrtt. unfold calculateLoadAwareCost, getLoadFactor.
  rewrite Hr, Ho, Hrtt. cbn [orb].
  destruct (updateRttHistory _ (neighbor metrics) _ _ !! neighbor metrics) as [hist|];
    [destruct (length hist <? 3)%nat|]; reflexivity.
Qed.

End HistoryFacts.

(** A positive [double] is not [<= 0]. *)
Lemma positive_not_leb_zero (x : double) : ltb zero x = true -> leb x zero = false.
Proof. destruct x as [s|s| |s m e]; try destruct s; cbn; congruence. Qed.

Section HistoryClaims.

Import LoadAware.

Variable MAX_RTT_HISTORY : nat.

(** Every history a cost computation leaves changed has been written by
    [updateRttHistory], so it is within the bound. *)
Lemma calculateLoadAwareCost_bounded now n rttBasedCost metrics c m :
  let c' := snd (calculateLoadAwareCost MAX_RTT_HISTORY now n rttBasedCost metrics c) in
  m_rttHistory c' !! m = m_rttHistory c !! m
  \/ exists history, m_rttHistory c' !! m = Some history
                     /\ (length history <= MAX_RTT_HISTORY)%nat.
Proof.
  cbv zeta. unfold calculateLoadAwareCost.
  destruct (leb rttBasedCost zero || leb (originalCost metrics) zero); [by left|].
  pose proof (getLoadFactor_history MAX_RTT_HISTORY metrics (m_rttHistory c)) as Hh1.
  destruct (getLoadFactor MAX_RTT_HISTORY metrics (m_rttHistory c)) as [loadFactor h1].
  cbn [snd] in Hh1 |- *. cbn [m_rttHistory count_adjustment set_history]. subst h1.
  destruct (currentRtt metrics) as [rtt|]; [|by left].
  destruct (decide (n = m)) as [<-|Hn].
  { right. rewrite lookup_update_eq. eexists. split; [reflexivity|].
    apply pop_excess_length. }
  rewrite lookup_update_ne by assumption.
  destruct (decide (neighbor metrics = m)) as [<-|Hm].
  - right. rewrite lookup_update_eq. eexists. split; [reflexivity|].
    apply pop_excess_length.
  - left. by rewrite lookup_update_ne.
Qed.

(** C9. After [updateRttHistory] (the only operation that writes a
    history) the neighbor's history has at most [MAX_RTT_HISTORY] samples,
    and it is the appended history without its oldest excess samples: the
    most recent ones, in their order.  The other neighbors' histories are
    not touched.  And every history a cost computation leaves changed is
    within the bound. *)
Theorem C9_history_bounded_fifo (n : Name) (x : double) (h : gmap Name (list double)) :
  let appended := history_of n h ++ [x] in
  let after := history_of n (updateRttHistory MAX_RTT_HISTORY n x h) in
  (length after <= MAX_RTT_HISTORY)%nat
  /\ after = drop (length appended - MAX_RTT_HISTORY)%nat appended
  /\ updateRttHistory MAX_RTT_HISTORY n x h !! n = Some after
  /\ (forall m, m <> n -> updateRttHistory MAX_RTT_HISTORY n x h !! m = h !! m)
  /\ (forall now name rttBasedCost metrics c m,
        let c' := snd (calculateLoadAwareCost MAX_RTT_HISTORY now name
                         rttBasedCost metrics c) in
        m_rttHistory c' !! m = m_rttHistory c !! m
        \/ exists history, m_rttHistory c' !! m = Some history
                           /\ (length history <= MAX_RTT_HISTORY)%nat).
Proof.
  cbv zeta. rewrite history_of_update_eq. split; [apply pop_excess_length|].
  split; [apply pop_excess_drop|]. split; [|split].
  - apply lookup_update_eq.
  - intros m Hm. by apply lookup_update_ne.
  - intros now0 n0 r0 metrics c m. apply calculateLoadAwareCost_bounded.
Qed.

(** C10. In a call with positive costs and a present [currentRtt] the
    millisecond value is appended twice, once by the load-factor
    computation under the neighbor named in the metrics and once after the
    clamp under the name the call was given, each time cut from the front
    to [MAX_RTT_HISTORY].  When the two names are the same neighbor, its
    history afterwards is the old one followed by two copies of the sample;
    when they differ, each of the two histories is its old one followed by
    one copy.  No other history changes. *)
Theorem C10_sample_appended_under_both_names (now : Time.time_point) (n : Name)
    (rttBasedCost : double) (metrics : LinkMetrics) (c : Calculator)
    (rtt : Time.nanoseconds) :
  ltb zero rttBasedCost = true ->
  ltb zero (originalCost metrics) = true ->
  currentRtt metrics = Some rtt ->
  let sample := of_Z (Time.to_milliseconds rtt) in
  let h := m_rttHistory c in
  let c' := snd (calculateLoadAwareCost MAX_RTT_HISTORY now n rttBasedCost metrics c) in
  let newest (history : list double) :=
    drop (length history - MAX_RTT_HISTORY)%nat history in
  m_rttHistory c'
  = updateRttHistory MAX_RTT_HISTORY n sample
      (updateRttHistory MAX_RTT_HISTORY (neighbor metrics) sample h)
  /\ (neighbor metrics = n ->
        m_rttHistory c' !! n = Some (newest (history_of n h ++ [sample; sample])))
  /\ (neighbor metrics <> n ->
        m_rttHistory c' !! n = Some (newest (history_of n h ++ [sample]))
        /\ m_rttHistory c' !! neighbor metrics
           = Some (newest (history_of (neighbor metrics) h ++ [sample])))
  /\ (forall m, m <> n -> m <> neighbor metrics -> m_rttHistory c' !! m = h !! m).
Proof.
  intros Hr Ho Hrtt. cbv zeta.
  rewrite (calculateLoadAwareCost_history MAX_RTT_HISTORY now n rttBasedCost metrics c rtt)
    by auto using positive_not_leb_zero.
  split; [reflexivity|]. split; [|split].
  - intros ->. unfold updateRttHistory at 1. rewrite lookup_insert_eq. f_equal.
    rewrite history_of_update_eq. apply pop_excess_twice.
  - intros Hne. split.
    + unfold updateRttHistory at 1. rewrite lookup_insert_eq. f_equal.
      unfold history_of at 1. rewrite lookup_update_ne by assumption.
      apply pop_excess_drop.
    + rewrite lookup_update_ne by congruence. rewrite lookup_update_eq. f_equal.
      apply pop_excess_drop.
  - intros m Hn Hm. rewrite !lookup_update_ne by congruence. reflexivity.
Qed.

End HistoryClaims.

(** ** The RTT factor *)

Section RttFactor.

Import LoadAware.

(** The comparison of a millisecond count with the two lowest thresholds,
    checked on every count from 11 to 50. *)
Lemma good_class_range (ms : Z) :
  11 <= ms <= 50 ->
  leb (of_Z ms) RTT_THRESHOLD_EXCELLENT = false
  /\ leb (of_Z ms) RTT_THRESHOLD_GOOD = true.
Proof.
  intros Hms.
  assert (Hall : forallb (fun k => negb (leb (of_Z k) RTT_THRESHOLD_EXCELLENT)
                                   && leb (of_Z k) RTT_THRESHOLD_GOOD)
                         (seqZ 11 40) = true) by (vm_compute; reflexivity).
  rewrite forallb_forall in Hall.
  specialize (Hall ms). cbv beta in Hall.
  rewrite andb_true_iff, negb_true_iff in Hall.
  apply Hall, list_elem_of_In, elem_of_seqZ. lia.
Qed.

Lemma to_milliseconds_between (rtt lo : Z) :
  0 <= lo -> lo * 1000000 <= rtt < (lo + 1) * 1000000 ->
  Time.to_milliseconds rtt = lo.
Proof.
  intros Hlo Hr. unfold Time.to_milliseconds.
  rewrite Z.quot_div_nonneg by lia.
  symmetry. apply Z.div_unique with (r := rtt - lo * 1000000); lia.
Qed.

Lemma to_milliseconds_bounds (rtt lo hi : Z) :
  0 <= lo -> lo * 1000000 <= rtt <= hi * 1000000 ->
  lo <= Time.to_milliseconds rtt <= hi.
Proof.
  intros Hlo Hr. unfold Time.to_milliseconds.
  rewrite Z.quot_div_nonneg by lia. split.
  - apply Z.div_le_lower_bound; lia.
  - apply Z.div_le_upper_bound; lia.
Qed.

(** C3 (as amended). The factor is computed from [currentRtt] truncated to
    whole milliseconds.  It is 0.0 for a [currentRtt] of 10 ms and for every
    one below 11 ms, and 0.2 for every [currentRtt] of at least 11 ms and at
    most 50 ms. *)
Theorem C3_rtt_factor_of_whole_milliseconds (metrics : LinkMetrics) (rtt : Time.nanoseconds) :
  currentRtt metrics = Some rtt ->
  (Time.of_milliseconds 10 <= rtt < Time.of_milliseconds 11 ->
     getRttFactor metrics = d0_0)
  /\ (Time.of_milliseconds 11 <= rtt <= Time.of_milliseconds 50 ->
     getRttFactor metrics = d0_2).
Proof.
  intros Hrtt. unfold getRttFactor, Time.of_milliseconds. rewrite Hrtt. split; intros Hr.
  - rewrite (to_milliseconds_between rtt 10) by lia. reflexivity.
  - pose proof (to_milliseconds_bounds rtt 11 50 ltac:(lia) ltac:(lia)) as Hms.
    destruct (good_class_range _ Hms) as [Hex Hgood].
    rewrite Hex, Hgood. reflexivity.
Qed.

End RttFactor.

(** ** The Hello protocol: single handlers *)

Section HelloNames.

Import Hello.

Variable wireEncode : Name -> Component.
Variable conf : ConfParameter.

Lemma get_back_helloName (n : Name) :
  get_back 2 (helloName wireEncode conf n) = Some INFO_COMPONENT.
Proof.
  unfold get_back, helloName. rewrite length_app. cbn [length].
  destruct (Nat.leb_spec 2 (length n + 3)) as [_|Hlt]; [|lia].
  replace (length n + 3 - 2)%nat with (length n + 1)%nat by lia.
  rewrite lookup_app_r by lia.
  replace (length n + 1 - length n)%nat with 1%nat by lia. reflexivity.
Qed.

Lemma getPrefix_back_helloName (n : Name) :
  getPrefix_back 3 (helloName wireEncode conf n) = n.
Proof.
  unfold getPrefix_back, helloName. rewrite length_app. cbn [length].
  destruct (Nat.leb_spec 3 (length n + 3)) as [_|Hlt]; [|lia].
  replace (length n + 3 - 3)%nat with (length n) by lia.
  by rewrite take_app_length.
Qed.

End HelloNames.

Section AdjacencyFacts.

Import Hello.

Lemma status_after_set (l : AdjacencyList) (n m : Name) (s : Status) :
  getStatusOfNeighbor (setStatusOfNeighbor l n s) m
  = if decide (n = m) then (if isNeighbor l n then s else STATUS_INACTIVE)
    else getStatusOfNeighbor l m.
Proof.
  unfold getStatusOfNeighbor, setStatusOfNeighbor, isNeighbor.
  destruct (decide (n = m)) as [->|Hne].
  - rewrite lookup_alter_eq. destruct (l !! m); reflexivity.
  - by rewrite lookup_alter_ne.
Qed.

Lemma status_after_set_count (l : AdjacencyList) (n m : Name) (k : N) :
  getStatusOfNeighbor (setTimedOutInterestCount l n k) m = getStatusOfNeighbor l m.
Proof.
  unfold getStatusOfNeighbor, setTimedOutInterestCount.
  destruct (decide (n = m)) as [->|Hne].
  - rewrite lookup_alter_eq. destruct (l !! m); reflexivity.
  - by rewrite lookup_alter_ne.
Qed.

Lemma status_after_increment (l : AdjacencyList) (n m : Name) :
  getStatusOfNeighbor (incrementTimedOutInterestCount l n) m = getStatusOfNeighbor l m.
Proof.
  unfold getStatusOfNeighbor, incrementTimedOutInterestCount.
  destruct (decide (n = m)) as [->|Hne].
  - rewrite lookup_alter_eq. destruct (l !! m); reflexivity.
  - by rewrite lookup_alter_ne.
Qed.

Lemma count_after_set_count (l : AdjacencyList) (n : Name) (k : N) :
  isNeighbor l n = true ->
  getTimedOutInterestCount (setTimedOutInterestCount l n k) n = k.
Proof.
  unfold getTimedOutInterestCount, setTimedOutInterestCount, isNeighbor.
  rewrite lookup_alter_eq. destruct (l !! n); [reflexivity|discriminate].
Qed.

Lemma isNeighbor_after_set (l : AdjacencyList) (n m : Name) (s : Status) :
  isNeighbor (setStatusOfNeighbor l n s) m = isNeighbor l m.
Proof.
  unfold isNeighbor, setStatusOfNeighbor.
  destruct (decide (n = m)) as [->|Hne].
  - rewrite lookup_alter_eq. destruct (l !! m); reflexivity.
  - by rewrite lookup_alter_ne.
Qed.

End AdjacencyFacts.

Section HelloResponse.

Import Hello.

Variable conf : ConfParameter.

(** The response handler is defined on every name of at least three
    components, the timeout handler on every name of at least two. *)
Lemma get_back_defined (k : nat) (name : Name) :
  (1 <= k <= length name)%nat -> is_Some (get_back k name).
Proof.
  intros Hk. unfold get_back.
  destruct (Nat.leb_spec k (length name)) as [_|Hlt]; [|lia].
  apply lookup_lt_is_Some. lia.
Qed.

Lemma onContentValidated_defined (l : AdjacencyList) (d : Data) :
  (3 <= length (dataName d))%nat -> is_Some (onContentValidated conf l d).
Proof.
  intros Hlen. unfold onContentValidated.
  destruct (get_back_defined 3 (dataName d) ltac:(lia)) as [c ->].
  cbn [mbind option_bind]. by destruct (String.eqb c INFO_COMPONENT).
Qed.

(** C4 (as amended). Validated data whose antepenultimate name component
    is not [INFO] changes no adjacency state and emits no event; the one
    thing the handler does with it is to count it as [RCV_HELLO_DATA],
    once. *)
Theorem C4_malformed_data_only_counted (l : AdjacencyList) (d : Data) (c : Component) :
  get_back 3 (dataName d) = Some c ->
  c <> INFO_COMPONENT ->
  onContentValidated conf l d = Some (l, [ HpIncrementSignal RCV_HELLO_DATA ]).
Proof.
  intros Hget Hc. unfold onContentValidated. rewrite Hget. cbn [mbind option_bind].
  destruct (String.eqb_spec c INFO_COMPONENT); [contradiction|reflexivity].
Qed.

(** C7. When the response handler has emitted [DataReceived] for a
    configured neighbor, that neighbor's count of timed-out probes is 0 and
    its status is [ACTIVE]. *)
Theorem C7_data_received_resets (l l' : AdjacencyList) (d : Data)
    (es : list Effect) (n : Name) :
  onContentValidated conf l d = Some (l', es) ->
  In (OnDataReceived n) es ->
  isNeighbor l n = true ->
  getTimedOutInterestCount l' n = 0%N /\ getStatusOfNeighbor l' n = STATUS_ACTIVE.
Proof.
  unfold onContentValidated. intros Hrun Hin Hn.
  destruct (get_back 3 (dataName d)) as [c|]; [|discriminate].
  cbn [mbind option_bind] in Hrun.
  destruct (String.eqb c INFO_COMPONENT).
  - injection Hrun as <- <-.
    assert (Heq : getPrefix_back 4 (dataName d) = n).
    { cbn [app In] in Hin. destruct Hin as [Hin|Hin]; [congruence|].
      apply in_app_or in Hin as [Hin|Hin].
      - destruct (negb _); [|contradiction].
        apply in_app_or in Hin as [Hin|Hin].
        + destruct (getStatusOfNeighbor _ _); cbn in Hin; intuition discriminate.
        + cbn in Hin. unfold reconverge in Hin.
          destruct (getHyperbolicState conf); intuition discriminate.
      - cbn in Hin. intuition discriminate. }
    rewrite Heq. split.
    + apply count_after_set_count. by rewrite isNeighbor_after_set.
    + rewrite status_after_set_count, status_after_set.
      rewrite decide_True by reflexivity. by rewrite Hn.
  - injection Hrun as <- <-. cbn in Hin. intuition discriminate.
Qed.

End HelloResponse.

Section HelloSend.

Import Hello.

Variable wireEncode : Name -> Component.
Variable conf : ConfParameter.

(** C8. For a neighbor in the adjacency list, the periodic send
    dispatches a probe exactly when the face id is not 0, and in both cases
    its last action, done once, is to schedule the next send for that
    neighbor [info_interest_interval] seconds later. *)
Theorem C8_probe_iff_face_and_reschedule (l : AdjacencyList) (n : Name) (a : Adjacent) :
  findAdjacent l n = Some a ->
  let es := sendHelloInterest wireEncode conf l n in
  (existsb is_probe es = true <-> faceId a <> 0%N)
  /\ es = (if decide (faceId a = 0%N) then []
           else expressInterest (helloName wireEncode conf n) (getInterestResendTime conf))
          ++ [ Schedule (getInfoInterestInterval conf) (SendHelloInterestTask n) ]
  /\ List.filter is_schedule es
     = [ Schedule (getInfoInterestInterval conf) (SendHelloInterestTask n) ].
Proof.
  intros Hfind. cbv zeta. unfold sendHelloInterest. rewrite Hfind.
  destruct (N.eqb_spec (faceId a) 0) as [H0|H0]; cbn [negb].
  - rewrite decide_True by assumption. cbn. split; [|split; reflexivity].
    split; [discriminate|intros Hne; contradiction].
  - rewrite decide_False by assumption. cbn. split; [|split; reflexivity].
    split; [intros _; assumption|reflexivity].
Qed.

End HelloSend.

(** ** The Hello protocol: traces *)

Section HelloTraces.

Import Hello.

Variable wireEncode : Name -> Component.
Variable blockFromValue : Component -> option Name.
Variable conf : ConfParameter.

Lemma status_events_app (n : Name) (es1 es2 : list Effect) :
  status_events n (es1 ++ es2) = status_events n es1 ++ status_events n es2.
Proof.
  induction es1 as [|e es1 IH]; [reflexivity|].
  destruct e; cbn [app status_events]; try apply IH.
  destruct (decide (_ = n)); cbn [app]; by rewrite IH.
Qed.

Lemma reconverge_cases :
  reconverge conf = ScheduleRoutingTableCalculation
  \/ reconverge conf = ScheduleAdjLsaBuild.
Proof. unfold reconverge. destruct (getHyperbolicState conf); auto. Qed.

(** One handled event reports at most one status for a neighbor, and it
    reports one exactly when it changes that neighbor's status. *)
Lemma step_status (n : Name) (l l' : AdjacencyList) (x : Input) (es : list Effect) :
  step wireEncode blockFromValue conf l x = Some (l', es) ->
  (status_events n es = [] /\ getStatusOfNeighbor l' n = getStatusOfNeighbor l n)
  \/ (exists s, status_events n es = [s]
                /\ getStatusOfNeighbor l n <> s /\ getStatusOfNeighbor l' n = s).
Proof.
  destruct x as [m|i v|i|secs i|d|d|d]; cbn [step]; intros Hstep.
  - injection Hstep as <- <-. left. split; [|reflexivity].
    unfold sendHelloInterest. destruct (findAdjacent l m); [|reflexivity].
    by destruct (negb _).
  - destruct (processInterest _ _ _ _ _ _) as [e|] eqn:He; [|discriminate].
    cbn in Hstep. injection Hstep as <- <-. left. split; [|reflexivity].
    unfold processInterest in He.
    destruct (get_back 2 _); [|discriminate]. cbn [mbind option_bind] in He.
    destruct (negb _); [by injection He as <-|].
    destruct (get_back 1 _); [|discriminate]. cbn [mbind option_bind] in He.
    destruct (blockFromValue _) as [m|]; [|discriminate]. cbn [mbind option_bind] in He.
    destruct (isNeighbor l m); [|by injection He as <-].
    destruct (findAdjacent l m) as [a|]; [|discriminate]. cbn [mbind option_bind] in He.
    destruct (status a); [destruct (negb _)|]; by injection He as <-.
  - unfold processInterestTimedOut in Hstep.
    destruct (get_back 2 _); [|discriminate]. cbn [mbind option_bind] in Hstep.
    destruct (negb _); [injection Hstep as <- <-; by left|].
    set (m := getPrefix_back 3 (interestName i)) in *.
    destruct (_ <? _)%N.
    { injection Hstep as <- <-. left. split; [reflexivity|].
      apply status_after_increment. }
    destruct (getStatusOfNeighbor (incrementTimedOutInterestCount l m) m) eqn:Hst.
    { injection Hstep as <- <-. left. split; [reflexivity|].
      apply status_after_increment. }
    injection Hstep as <- <-. rewrite status_after_increment in Hst.
    destruct reconverge_cases as [-> | ->]; cbn [app status_events];
      rewrite status_after_set, status_after_increment;
      (destruct (decide (m = n)) as [->|Hne];
       [ right; exists STATUS_INACTIVE; split; [reflexivity|]; split; [congruence|];
         by destruct (isNeighbor _ n)
       | left; by split ]).
  - injection Hstep as <- <-. by left.
  - injection Hstep as <- <-. by left.
  - unfold onContentValidated in Hstep.
    destruct (get_back 3 _); [|discriminate]. cbn [mbind option_bind] in Hstep.
    destruct (String.eqb _ _); [|injection Hstep as <- <-; by left].
    set (m := getPrefix_back 4 (dataName d)) in *.
    injection Hstep as <- <-.
    rewrite !status_after_set_count, !status_after_set.
    destruct (decide (m = m)) as [_|Hmm]; [|by destruct Hmm].
    unfold getStatusOfNeighbor at 1 2, isNeighbor.
    destruct reconverge_cases as [-> | ->];
      (destruct (decide (m = n)) as [->|Hne];
       [ unfold getStatusOfNeighbor; destruct (l !! n) as [a|]; [|by left];
         destruct (status a); cbn [status_value];
         [ change (negb (0 - 1 =? 0)%Z) with true; cbn;
           rewrite decide_True by reflexivity;
           right; exists STATUS_ACTIVE; by repeat split
         | by left ]
       | left; split; [|reflexivity];
         destruct (l !! m) as [a|]; [destruct (status a)|]; cbn [status_value];
         [ change (negb (0 - 1 =? 0)%Z) with true
         | change (negb (1 - 1 =? 0)%Z) with false
         | change (negb (0 - 0 =? 0)%Z) with false ]; cbn;
         by rewrite ?decide_False ]).
  - injection Hstep as <- <-. by left.
Qed.

(** C6. Along every trace of handled events, from any adjacency list, the
    statuses reported for a neighbor by [NeighborStatusChanged] alternate:
    no two consecutive ones are equal.  (The first one differs from the
    status the neighbor had at the start.) *)
Theorem C6_status_events_alternate (n : Name) (l l' : AdjacencyList)
    (xs : list Input) (es : list Effect) :
  run wireEncode blockFromValue conf l xs = Some (l', es) ->
  alternates (status_events n es) = true
  /\ (forall s, head (status_events n es) = Some s -> getStatusOfNeighbor l n <> s).
Proof.
  revert l l' es. induction xs as [|x rest IH]; intros l l' es Hrun.
  - injection Hrun as <- <-. split; [reflexivity|discriminate].
  - cbn [run] in Hrun.
    destruct (step _ _ _ l x) as [[l1 e1]|] eqn:Hstep; [|discriminate].
    cbn [mbind option_bind] in Hrun.
    destruct (run _ _ _ l1 rest) as [[l2 e2]|] eqn:Hrest; [|discriminate].
    cbn in Hrun. injection Hrun as <- <-.
    destruct (IH _ _ _ Hrest) as [Halt Hhead].
    rewrite status_events_app.
    remember (status_events n e2) as ev2 eqn:Hev2. clear Hev2.
    destruct (step_status n _ _ _ _ Hstep) as [[-> Hsame]|(s & -> & Hold & Hnew)].
    + cbn [app]. split; [assumption|]. intros s Hs. rewrite <- Hsame. by apply Hhead.
    + cbn [app]. split.
      * destruct ev2 as [|s2 ss]; [reflexivity|].
        cbn [alternates] in *. rewrite Halt, andb_true_r.
        apply negb_true_iff, bool_decide_eq_false. intros ->.
        apply (Hhead s2); [reflexivity|assumption].
      * intros s' [= <-]. assumption.
Qed.

End HelloTraces.

(** ** The Hello protocol: timeouts up to the retry limit *)

Section HelloTimeouts.

Import Hello.

Variable wireEncode : Name -> Component.
Variable blockFromValue : Component -> option Name.
Variable conf : ConfParameter.

Local Open Scope N_scope.

Lemma increment_known (l : AdjacencyList) (n : Name) (a : Adjacent) :
  l !! n = Some a ->
  incrementTimedOutInterestCount l n = <[ n := with_count a (interestTimedOutNo a + 1) ]> l.
Proof.
  intros Hl. unfold incrementTimedOutInterestCount. apply map_eq. intros m.
  destruct (decide (n = m)) as [<-|Hne].
  - by rewrite lookup_alter_eq, lookup_insert_eq, Hl.
  - by rewrite lookup_alter_ne, lookup_insert_ne.
Qed.

Lemma processInterestTimedOut_defined (l : AdjacencyList) (i : Interest) :
  (2 <= length (interestName i))%nat ->
  is_Some (processInterestTimedOut wireEncode conf l i).
Proof.
  intros Hlen. unfold processInterestTimedOut.
  destruct (get_back_defined 2 (interestName i) ltac:(lia)) as [c ->].
  cbn [mbind option_bind]. destruct (negb _); [done|].
  destruct (_ <? _)%N; [done|]. by destruct (getStatusOfNeighbor _ _).
Qed.

(** A timeout whose incremented count is below the retry limit reports the
    count and reissues the probe; only the count changes. *)
Lemma timeout_below_limit (l : AdjacencyList) (i : Interest) :
  get_back 2 (interestName i) = Some INFO_COMPONENT ->
  let n := getPrefix_back 3 (interestName i) in
  let l1 := incrementTimedOutInterestCount l n in
  let count := to_uint32 (getTimedOutInterestCount l1 n) in
  count < getInterestRetryNumber conf ->
  processInterestTimedOut wireEncode conf l i
  = Some (l1, [ OnTimeout n count ]
              ++ expressInterest (helloName wireEncode conf n) (getInterestResendTime conf)).
Proof.
  intros Hget n l1 count Hlt. unfold processInterestTimedOut.
  rewrite Hget. cbn [mbind option_bind]. change (negb (String.eqb INFO_COMPONENT INFO_COMPONENT)) with false.
  cbv iota. fold n. fold l1. fold count.
  apply N.ltb_lt in Hlt. by rewrite Hlt.
Qed.

(** A timeout of an [ACTIVE] neighbor whose incremented count has reached
    the retry limit makes it [INACTIVE], reports the change and asks for
    one reconvergence. *)
Lemma timeout_at_limit (l : AdjacencyList) (i : Interest) :
  get_back 2 (interestName i) = Some INFO_COMPONENT ->
  let n := getPrefix_back 3 (interestName i) in
  let l1 := incrementTimedOutInterestCount l n in
  let count := to_uint32 (getTimedOutInterestCount l1 n) in
  getInterestRetryNumber conf <= count ->
  getStatusOfNeighbor l n = STATUS_ACTIVE ->
  processInterestTimedOut wireEncode conf l i
  = Some (setStatusOfNeighbor l1 n STATUS_INACTIVE,
          [ OnTimeout n count; OnNeighborStatusChanged n STATUS_INACTIVE; reconverge conf ]).
Proof.
  intros Hget n l1 count Hge Hst. unfold processInterestTimedOut.
  rewrite Hget. cbn [mbind option_bind]. change (negb (String.eqb INFO_COMPONENT INFO_COMPONENT)) with false.
  cbv iota. fold n. fold l1. fold count.
  apply N.ltb_ge in Hge. rewrite Hge.
  unfold l1. rewrite status_after_increment, Hst. reflexivity.
Qed.

Lemma run_reissues (i : Interest) (n : Name) (k : nat) :
  get_back 2 (interestName i) = Some INFO_COMPONENT ->
  getPrefix_back 3 (interestName i) = n ->
  forall (l : AdjacencyList) (a : Adjacent),
  l !! n = Some a ->
  interestTimedOutNo a + N.of_nat k < getInterestRetryNumber conf ->
  getInterestRetryNumber conf < 2 ^ 32 ->
  run wireEncode blockFromValue conf l (replicate k (InterestTimedOut i))
  = Some (<[ n := with_count a (interestTimedOutNo a + N.of_nat k) ]> l,
          reissues wireEncode conf n (interestTimedOutNo a) k).
Proof.
  intros Hget Hn. induction k as [|k IH]; intros l a Hl Hlt Hmax.
  - cbn [replicate run reissues]. f_equal. f_equal.
    rewrite N.add_0_r. symmetry. apply insert_id. rewrite Hl. by destruct a.
  - cbn [replicate run step reissues].
    pose proof (timeout_below_limit l i Hget) as Hstep. cbv zeta in Hstep.
    rewrite Hn in Hstep. rewrite (increment_known l n a Hl) in Hstep.
    unfold getTimedOutInterestCount in Hstep. rewrite lookup_insert_eq in Hstep.
    cbn [with_count interestTimedOutNo] in Hstep.
    assert (Hsmall : to_uint32 (interestTimedOutNo a + 1) = interestTimedOutNo a + 1).
    { unfold to_uint32. apply N.mod_small. lia. }
    rewrite Hsmall in Hstep. rewrite Hstep by lia. cbn [mbind option_bind].
    rewrite (IH _ (with_count a (interestTimedOutNo a + 1))); cycle 1.
    + by rewrite lookup_insert_eq.
    + cbn [with_count interestTimedOutNo]. lia.
    + assumption.
    + cbn [mbind option_bind with_count interestTimedOutNo faceId status].
      rewrite insert_insert_eq.
      replace (interestTimedOutNo a + 1 + N.of_nat k)
        with (interestTimedOutNo a + N.of_nat (S k)) by lia.
      reflexivity.
Qed.

End HelloTimeouts.

Section HelloRetryLimit.

Import Hello.

Variable wireEncode : Name -> Component.
Variable blockFromValue : Component -> option Name.
Variable conf : ConfParameter.

Local Open Scope N_scope.

Lemma run_app (l : AdjacencyList) (xs ys : list Input) :
  run wireEncode blockFromValue conf l (xs ++ ys)
  = '(l1, e1) ← run wireEncode blockFromValue conf l xs;
    '(l2, e2) ← run wireEncode blockFromValue conf l1 ys;
    Some (l2, e1 ++ e2).
Proof.
  revert l. induction xs as [|x xs IH]; intros l.
  - cbn. destruct (run _ _ _ l ys) as [[l2 e2]|]; reflexivity.
  - cbn [app run]. destruct (step _ _ _ l x) as [[l1 e1]|]; [|reflexivity].
    cbn [mbind option_bind]. rewrite IH.
    destruct (run _ _ _ l1 xs) as [[l2 e2]|]; [|reflexivity].
    cbn [mbind option_bind].
    destruct (run _ _ _ l2 ys) as [[l3 e3]|]; [|reflexivity].
    cbn. by rewrite app_assoc.
Qed.

Lemma status_events_reissues (n : Name) (count : N) (k : nat) :
  status_events n (reissues wireEncode conf n count k) = [].
Proof. revert count. induction k as [|k IH]; intros count; [reflexivity|]. cbn. apply IH. Qed.

Lemma reconverge_reissues (n : Name) (count : N) (k : nat) :
  List.filter is_reconverge (reissues wireEncode conf n count k) = [].
Proof. revert count. induction k as [|k IH]; intros count; [reflexivity|]. cbn. apply IH. Qed.

Lemma is_reconverge_reconverge : is_reconverge (reconverge conf) = true.
Proof. unfold reconverge. by destruct (getHyperbolicState conf). Qed.

(** C2. Let a neighbor be [ACTIVE] with no timed-out probe counted, and
    let its probe time out [retry_limit] times in a row.  Each of the first
    [retry_limit - 1] timeouts reports the count and reissues the probe;
    the last one sets the status to [INACTIVE], emits
    [NeighborStatusChanged(neighbor, INACTIVE)] and asks for reconvergence,
    once.  And whenever the incremented count of a timeout is below the
    limit, the same probe (name and lifetime) is expressed again and no
    status changes. *)
Theorem C2_timeouts_up_to_retry_limit (l : AdjacencyList) (n : Name) (a : Adjacent) :
  l !! n = Some a ->
  status a = STATUS_ACTIVE ->
  interestTimedOutNo a = 0 ->
  0 < getInterestRetryNumber conf ->
  getInterestRetryNumber conf < 2 ^ 32 ->
  let retry := getInterestRetryNumber conf in
  let probe := helloInterest (helloName wireEncode conf n) (getInterestResendTime conf) in
  let es := reissues wireEncode conf n 0 (N.to_nat retry - 1)
            ++ [ OnTimeout n retry; OnNeighborStatusChanged n STATUS_INACTIVE;
                 reconverge conf ] in
  run wireEncode blockFromValue conf l (replicate (N.to_nat retry) (InterestTimedOut probe))
  = Some (<[ n := with_status (with_count a retry) STATUS_INACTIVE ]> l, es)
  /\ status_events n es = [ STATUS_INACTIVE ]
  /\ length (List.filter is_reconverge es) = 1%nat
  /\ (forall (l0 : AdjacencyList) (i : Interest),
        get_back 2 (interestName i) = Some INFO_COMPONENT ->
        let m := getPrefix_back 3 (interestName i) in
        let l1 := incrementTimedOutInterestCount l0 m in
        let count := to_uint32 (getTimedOutInterestCount l1 m) in
        count < retry ->
        processInterestTimedOut wireEncode conf l0 i
        = Some (l1, [ OnTimeout m count; OnInterestSent m;
                      FaceExpressInterest
                        (helloInterest (helloName wireEncode conf m) (getInterestResendTime conf));
                      HpIncrementSignal SENT_HELLO_INTEREST ])
        /\ (forall x, getStatusOfNeighbor l1 x = getStatusOfNeighbor l0 x)).
Proof.
  intros Hl Hst Hcount Hpos Hmax. cbv zeta.
  assert (Hget : get_back 2 (helloName wireEncode conf n) = Some INFO_COMPONENT)
    by apply get_back_helloName.
  assert (Hpre : getPrefix_back 3 (helloName wireEncode conf n) = n)
    by apply getPrefix_back_helloName.
  split; [|split; [|split]].
  - replace (N.to_nat (getInterestRetryNumber conf))
      with (S (N.to_nat (getInterestRetryNumber conf) - 1)) at 1 by lia.
    rewrite replicate_S_end, run_app.
    rewrite (run_reissues wireEncode blockFromValue conf
               (helloInterest (helloName wireEncode conf n) (getInterestResendTime conf))
               n _ Hget Hpre l a Hl)
      by (rewrite ?Hcount; lia).
    cbn [mbind option_bind run step]. rewrite Hcount.
    set (k := 0 + N.of_nat (N.to_nat (getInterestRetryNumber conf) - 1)).
    assert (Hk : k + 1 = getInterestRetryNumber conf) by lia.
    pose proof (timeout_at_limit wireEncode conf (<[ n := with_count a k ]> l)
                  (helloInterest (helloName wireEncode conf n) (getInterestResendTime conf))
                  Hget) as Hlast.
    cbv zeta in Hlast. cbn [interestName helloInterest] in Hlast. rewrite Hpre in Hlast.
    rewrite (increment_known _ n (with_count a k)) in Hlast by apply lookup_insert_eq.
    unfold getTimedOutInterestCount, getStatusOfNeighbor in Hlast.
    rewrite !lookup_insert_eq in Hlast. cbn [with_count interestTimedOutNo status] in Hlast.
    rewrite Hk in Hlast.
    assert (Hsmall : to_uint32 (getInterestRetryNumber conf) = getInterestRetryNumber conf)
      by (apply N.mod_small; lia).
    rewrite Hsmall in Hlast. rewrite Hlast by (lia || assumption).
    cbn [mbind option_bind]. rewrite app_nil_r. f_equal. f_equal.
    unfold setStatusOfNeighbor. rewrite insert_insert_eq.
    apply map_eq. intros m. destruct (decide (n = m)) as [<-|Hne].
    + by rewrite lookup_alter_eq, !lookup_insert_eq.
    + by rewrite lookup_alter_ne, !lookup_insert_ne.
  - rewrite status_events_app, status_events_reissues.
    destruct (reconverge_cases conf) as [-> | ->]; cbn; by rewrite decide_True.
  - rewrite List.filter_app, reconverge_reissues. cbn.
    by rewrite is_reconverge_reconverge.
  - intros l0 i Hget0 Hbelow. split.
    + pose proof (timeout_below_limit wireEncode conf l0 i Hget0) as Hstep.
      cbv zeta in Hstep. rewrite Hstep by assumption.
      unfold expressInterest. by rewrite getPrefix_back_helloName.
    + apply status_after_increment.
Qed.

End HelloRetryLimit.

(** ** The composite cost *)

Section CostBounds.

Import LoadAware.

Variable MAX_RTT_HISTORY : nat.

Lemma getRttFactor_nonneg (metrics : LinkMetrics) : nonneg (getRttFactor metrics) = true.
Proof.
  unfold getRttFactor. destruct (currentRtt metrics); [|reflexivity].
  repeat (destruct (leb _ _); [reflexivity|]). reflexivity.
Qed.

Lemma classify_variation_nonneg (v : double) : nonneg (classify_variation v) = true.
Proof.
  unfold classify_variation. repeat (destruct (leb _ _); [reflexivity|]). reflexivity.
Qed.

Lemma getLoadFactor_nonneg (metrics : LinkMetrics) (h : gmap Name (list double)) :
  nonneg (fst (getLoadFactor MAX_RTT_HISTORY metrics h)) = true.
Proof.
  unfold getLoadFactor. destruct (_ !! neighbor metrics) as [hist|]; [|reflexivity].
  destruct (length hist <? 3)%nat; [reflexivity|]. apply classify_variation_nonneg.
Qed.

Lemma getStabilityFactor_nonneg (now : Time.time_point) (metrics : LinkMetrics) :
  nonneg (getStabilityFactor now metrics) = true.
Proof.
  unfold getStabilityFactor.
  assert (H1 : nonneg (match timeoutCount metrics with
                       | Some count => add d0_0 (mul (of_Z (Z.of_N count)) d0_2)
                       | None => d0_0
                       end) = true).
  { destruct (timeoutCount metrics) as [count|]; [|reflexivity].
    apply add_nonneg; [reflexivity|]. apply mul_nonneg_r; [|reflexivity].
    apply of_Z_nonneg. lia. }
  destruct (lastSuccessTime metrics) as [last|]; [|assumption].
  destruct (Z.ltb_spec 60 (Time.to_seconds (now - last))) as [Hlt|Hge]; [|assumption].
  apply add_nonneg; [assumption|]. apply min_nonneg; [reflexivity|].
  apply mul_nonneg_r; [|reflexivity]. apply div_nonneg; [|reflexivity].
  apply of_Z_nonneg. lia.
Qed.

Lemma one_plus_positive (y : double) : nonneg y = true -> is_positive (add d1_0 y) = true.
Proof.
  intros Hy. eapply leb_finite_positive. apply (add_ge_l 4503599627370496 (-52)); auto.
Qed.

(** C1. In a call with [rttBasedCost > 0] and [originalCost > 0]
    (a binary64 number), on a calculator whose weights are positive and
    finite, the returned cost is at least [originalCost * 0.5] and at most
    [originalCost * 3.0], the two products being the ones the code computes
    in binary64 arithmetic. *)
Theorem C1_cost_within_clamp (now : Time.time_point) (n : Name)
    (rttBasedCost : double) (metrics : LinkMetrics) (c : Calculator) :
  ltb zero rttBasedCost = true ->
  ltb zero (originalCost metrics) = true ->
  valid (originalCost metrics) = true ->
  finite_pos (m_rttWeight c) = true ->
  finite_pos (m_loadWeight c) = true ->
  finite_pos (m_stabilityWeight c) = true ->
  let cost := fst (calculateLoadAwareCost MAX_RTT_HISTORY now n rttBasedCost metrics c) in
  leb (mul (originalCost metrics) d0_5) cost = true
  /\ leb cost (mul (originalCost metrics) d3_0) = true.
Proof.
  intros Hr Ho Hv HwR HwL HwS. cbv zeta. unfold calculateLoadAwareCost.
  rewrite (positive_not_leb_zero _ Hr), (positive_not_leb_zero _ Ho). cbn [orb].
  pose proof (getLoadFactor_nonneg metrics (m_rttHistory c)) as Hlf.
  destruct (getLoadFactor MAX_RTT_HISTORY metrics (m_rttHistory c)) as [loadFactor h1].
  cbn [fst] in Hlf |- *.
  apply clamp_bounds.
  - apply nonneg_not_nan, mul_positive; [by apply ltb_zero_positive|].
    apply one_plus_positive. apply add_nonneg; [apply add_nonneg|].
    + apply mul_nonneg; [assumption|apply getRttFactor_nonneg].
    + by apply mul_nonneg.
    + apply mul_nonneg; [assumption|apply getStabilityFactor_nonneg].
  - apply clamp_bounds_ordered; [by apply ltb_zero_positive|assumption].
Qed.

(** C5 (as amended). In a call with positive costs, on a calculator whose
    load and stability weights are finite, where the neighbor's history,
    counted after the load-factor computation has appended the sample of
    this call, has fewer than 3 samples, the timeout count is 0 and the last
    success is at most 60 s before now, the returned cost is
    [rttBasedCost * (1 + w_R * f_R)] clamped to
    [[originalCost * 0.5, originalCost * 3.0]]. *)
Theorem C5_cost_without_load_and_stability (now : Time.time_point) (n : Name)
    (rttBasedCost : double) (metrics : LinkMetrics) (c : Calculator)
    (last : Time.time_point) :
  ltb zero rttBasedCost = true ->
  ltb zero (originalCost metrics) = true ->
  is_finite (m_loadWeight c) = true ->
  is_finite (m_stabilityWeight c) = true ->
  (length (history_of (neighbor metrics)
             (snd (getLoadFactor MAX_RTT_HISTORY metrics (m_rttHistory c)))) < 3)%nat ->
  timeoutCount metrics = Some 0%N ->
  lastSuccessTime metrics = Some last ->
  0 <= now - last <= Time.of_seconds 60 ->
  fst (calculateLoadAwareCost MAX_RTT_HISTORY now n rttBasedCost metrics c)
  = max (min (mul rttBasedCost (add d1_0 (mul (m_rttWeight c) (getRttFactor metrics))))
             (mul (originalCost metrics) d3_0))
        (mul (originalCost metrics) d0_5).
Proof.
  intros Hr Ho HwL HwS Hlen Htc Hlast Hrecent. unfold calculateLoadAwareCost.
  rewrite (positive_not_leb_zero _ Hr), (positive_not_leb_zero _ Ho). cbn [orb].
  assert (Hload : fst (getLoadFactor MAX_RTT_HISTORY metrics (m_rttHistory c)) = d0_0).
  { revert Hlen. unfold getLoadFactor, history_of.
    set (h1 := match currentRtt metrics with
               | Some rtt => updateRttHistory MAX_RTT_HISTORY (neighbor metrics)
                               (of_Z (Time.to_milliseconds rtt)) (m_rttHistory c)
               | None => m_rttHistory c
               end).
    destruct (h1 !! neighbor metrics) as [hist|] eqn:Hh; [|reflexivity].
    destruct (Nat.ltb_spec (length hist) 3) as [Hlt|Hge]; cbn [snd fst];
      [reflexivity|]. rewrite Hh. cbn [default id]. intros; lia. }
  assert (Hstab : getStabilityFactor now metrics = d0_0).
  { unfold getStabilityFactor. rewrite Htc, Hlast.
    destruct (Z.ltb_spec 60 (Time.to_seconds (now - last))) as [Hlt|Hge]; [|reflexivity].
    exfalso. unfold Time.to_seconds, Time.of_seconds in *.
    rewrite Z.quot_div_nonneg in Hlt by lia.
    assert ((now - last) / 1000000000 <= 60) by (apply Z.div_le_upper_bound; lia). lia. }
  destruct (getLoadFactor MAX_RTT_HISTORY metrics (m_rttHistory c)) as [loadFactor h1].
  cbn [fst] in Hload |- *. rewrite Hload, Hstab.
  unfold d0_0, d1_0. rewrite add_one_zeros by (by apply mul_zero_r). reflexivity.
Qed.

End CostBounds.

(** ** binary64 arithmetic: aligned and exact operations *)

Section AlignedRounding.

(** The mantissa and exponent handed to the rounding are aligned when the
    exponent is not above the one the format gives to the value. *)
Lemma round_ge_aligned (m : positive) (e M E : Z) (l : location) :
  canonical_mantissa prec emax m e = true ->
  e < E -> 0 < M -> E <= fexp prec emax (Zdigits2 M + E) ->
  leb (S754_finite false m e) (binary_round_aux prec emax false M E l) = true.
Proof.
  intros Hcan HeE HM Hal.
  destruct (binary_round_aux_spec false M E l ltac:(lia)) as (m1 & Hb & _ & ->).
  cbv zeta in Hb |- *. rewrite !fexp_eq in *.
  apply canonical_exponent in Hcan.
  set (dM := Zdigits2 M) in *.
  set (n1 := Z.max 0 (Z.max (dM + E - 53) (-1074) - E)) in *.
  assert (Hn1 : n1 = dM - 53) by lia.
  assert (Hq : 2 ^ 52 <= M / 2 ^ n1).
  { destruct (Z.eq_dec dM 53) as [Hd|Hd].
    - rewrite Hn1, Hd. change (2 ^ (53 - 53)) with 1. rewrite Z.div_1_r.
      pose proof (Zdigits2_bounds M HM) as [Hlo _]. fold dM in Hlo. by rewrite Hd in Hlo.
    - rewrite Hn1. apply div_pow2_53_digits; [assumption|fold dM; lia]. }
  set (e1 := E + n1) in *. set (d1 := Zdigits2 m1).
  destruct (Z.le_gt_cases d1 53) as [Hd1|Hd1].
  - replace (Z.max 0 (Z.max (d1 + e1 - 53) (-1074) - e1)) with 0 by lia.
    rewrite Z.pow_0_r, Z.div_1_r, Z.add_0_r.
    apply leb_finite_rounded; [lia|left; lia].
  - replace (Z.max 0 (Z.max (d1 + e1 - 53) (-1074) - e1)) with (d1 - 53) by lia.
    apply leb_finite_rounded; [|left; lia].
    pose proof (div_pow2_53_digits m1 ltac:(lia) Hd1). fold d1 in H. lia.
Qed.

(** An aligned rounding ends on a binary64 number. *)
Lemma binary_round_aux_valid (s : bool) (M E : Z) (l : location) :
  0 < M -> E <= fexp prec emax (Zdigits2 M + E) ->
  valid (binary_round_aux prec emax s M E l) = true.
Proof.
  intros HM Hal.
  destruct (binary_round_aux_spec s M E l ltac:(lia)) as (m1 & Hb & _ & ->).
  cbv zeta in Hb |- *. rewrite !fexp_eq in *.
  set (dM := Zdigits2 M) in *.
  set (n1 := Z.max 0 (Z.max (dM + E - 53) (-1074) - E)) in *.
  set (q := M / 2 ^ n1) in *.
  assert (Hn1 : 0 <= n1) by lia.
  assert (Hq0 : 0 <= q) by (apply Z.div_pos; [lia|apply Z.pow_pos_nonneg; lia]).
  assert (Hqd : Zdigits2 q <= 53) by (apply div_pow2_digits; lia).
  set (e1 := E + n1) in *.
  assert (He1 : e1 = Z.max (dM + E - 53) (-1074)) by lia.
  assert (Hq53 : q < 2 ^ 53).
  { destruct (Z.eq_dec q 0) as [->|Hq]; [lia|].
    pose proof (Zdigits2_bounds q ltac:(lia)) as [_ Hhi].
    apply Z.lt_le_trans with (2 ^ Zdigits2 q); [assumption|].
    apply Z.pow_le_mono_r; lia. }
  assert (Hm1 : 0 <= m1 <= 2 ^ 53) by lia.
  set (d1 := Zdigits2 m1).
  destruct (Z.eq_dec m1 (2 ^ 53)) as [Hm1eq|Hm1ne].
  - assert (Hd1 : d1 = 54) by (unfold d1; rewrite Hm1eq; reflexivity).
    replace (Z.max 0 (Z.max (d1 + e1 - 53) (-1074) - e1)) with 1 by lia.
    rewrite Hm1eq. change (2 ^ 53 / 2 ^ 1) with 4503599627370496.
    unfold rounded. destruct (e1 + 1 <=? emax - prec) eqn:Hle; [|reflexivity].
    unfold valid, valid_binary, bounded. rewrite Hle, andb_true_r.
    unfold canonical_mantissa. apply Z.eqb_eq. rewrite fexp_eq.
    change (Z.pos (digits2_pos 4503599627370496)) with 53. lia.
  - pose proof (digits_le_53 m1 ltac:(lia) ltac:(lia)) as Hd1. fold d1 in Hd1.
    replace (Z.max 0 (Z.max (d1 + e1 - 53) (-1074) - e1)) with 0 by lia.
    rewrite Z.pow_0_r, Z.div_1_r, Z.add_0_r.
    unfold rounded. destruct m1 as [|p|p] eqn:Hp; [reflexivity| |lia].
    destruct (e1 <=? emax - prec) eqn:Hle; [|reflexivity].
    unfold valid, valid_binary, bounded. rewrite Hle, andb_true_r.
    unfold canonical_mantissa. apply Z.eqb_eq. rewrite fexp_eq.
    change (Z.pos (digits2_pos p)) with (Zdigits2 (Z.pos p)). fold d1.
    (* the digits of the rounded mantissa *)
    destruct (Z.eq_dec e1 (-1074)) as [Hmin|Hmin]; [lia|].
    assert (Hn1eq : n1 = dM - 53) by lia.
    assert (2 ^ 52 <= q).
    { destruct (Z.eq_dec dM 53) as [Hd|Hd].
      - unfold q. rewrite Hn1eq, Hd. change (2 ^ (53 - 53)) with 1. rewrite Z.div_1_r.
        pose proof (Zdigits2_bounds M HM) as [Hlo _]. fold dM in Hlo. by rewrite Hd in Hlo.
      - unfold q. rewrite Hn1eq. apply div_pow2_53_digits; [assumption|fold dM; lia]. }
    assert (53 <= d1); [|lia].
    pose proof (Zdigits2_bounds (Z.pos p) ltac:(lia)) as [_ Hhi]. fold d1 in Hhi.
    destruct (Z.le_gt_cases 53 d1) as [|Hlt]; [assumption|exfalso].
    assert (2 ^ d1 <= 2 ^ 52) by (apply Z.pow_le_mono_r; lia). lia.
Qed.

End AlignedRounding.

Section AlignedOperations.

Lemma digits2_pos_Zdigits2 (p : positive) : Z.pos (digits2_pos p) = Zdigits2 (Z.pos p).
Proof. reflexivity. Qed.

(** [binary_round] aligns before it rounds. *)
Lemma binary_round_aligned (m : positive) (e : Z) :
  exists (mz : positive) (ez : Z),
    binary_round prec emax false m e
    = binary_round_aux prec emax false (Z.pos mz) ez loc_Exact
    /\ ez <= e /\ Z.pos mz = Z.pos m * 2 ^ (e - ez)
    /\ ez <= fexp prec emax (Zdigits2 (Z.pos mz) + ez).
Proof.
  unfold binary_round.
  destruct (shl_align_spec m e (fexp prec emax (Z.pos (digits2_pos m) + e))) as [Hs Hv].
  destruct (shl_align m e _) as [mz ez]. cbn [fst snd] in Hs, Hv.
  exists mz, ez. split; [reflexivity|]. split; [lia|]. split; [assumption|].
  rewrite Hv, Zdigits2_mul_pow2 by lia. rewrite digits2_pos_Zdigits2 in Hs.
  replace (Zdigits2 (Z.pos m) + (e - ez) + ez) with (Zdigits2 (Z.pos m) + e) by lia.
  lia.
Qed.

Lemma binary_round_valid (m : positive) (e : Z) :
  valid (binary_round prec emax false m e) = true.
Proof.
  destruct (binary_round_aligned m e) as (mz & ez & -> & _ & _ & Hal).
  apply binary_round_aux_valid; [lia|assumption].
Qed.

(** Rounding never goes below a binary64 number that the value reaches. *)
Lemma binary_round_ge (m : positive) (e : Z) (n : positive) (x : Z) :
  canonical_mantissa prec emax m e = true ->
  (e <= x -> Z.pos m <= Z.pos n * 2 ^ (x - e)) ->
  (x <= e -> Z.pos m * 2 ^ (e - x) <= Z.pos n) ->
  leb (S754_finite false m e) (binary_round prec emax false n x) = true.
Proof.
  intros Hcan Hhi Hlo.
  destruct (binary_round_aligned n x) as (mz & ez & -> & Hez & Hv & Hal).
  destruct (Z.le_gt_cases ez e) as [Hle|Hgt].
  - replace ez with (e - (e - ez)) by lia.
    apply round_ge; [assumption|lia|]. rewrite Hv.
    destruct (Z.le_gt_cases x e) as [Hxe|Hxe].
    + specialize (Hlo Hxe).
      replace (e - ez) with ((e - x) + (x - ez)) by lia.
      rewrite Z.pow_add_r by lia.
      assert (0 < 2 ^ (x - ez)) by (apply Z.pow_pos_nonneg; lia). nia.
    + specialize (Hhi ltac:(lia)).
      replace (x - ez) with ((x - e) + (e - ez)) by lia.
      rewrite Z.pow_add_r by lia.
      assert (0 < 2 ^ (e - ez)) by (apply Z.pow_pos_nonneg; lia). nia.
  - apply round_ge_aligned; [assumption|lia|lia|assumption].
Qed.

(** The product of two binary64 numbers is rounded from an aligned pair. *)
Lemma mul_aligned (mx my : positive) (ex ey : Z) :
  canonical_mantissa prec emax mx ex = true ->
  canonical_mantissa prec emax my ey = true ->
  ex + ey <= fexp prec emax (Zdigits2 (Z.pos (mx * my)) + (ex + ey)).
Proof.
  intros Hx Hy. apply canonical_exponent in Hx, Hy. rewrite fexp_eq.
  pose proof (Zdigits2_bounds (Z.pos mx) ltac:(lia)) as [Hxl Hxh].
  pose proof (Zdigits2_bounds (Z.pos my) ltac:(lia)) as [Hyl Hyh].
  set (dx := Zdigits2 (Z.pos mx)) in *. set (dy := Zdigits2 (Z.pos my)) in *.
  assert (Hdx : 1 <= dx) by (unfold dx; cbn; lia).
  assert (Hdy : 1 <= dy) by (unfold dy; cbn; lia).
  assert (Hd : dx + dy - 1 <= Zdigits2 (Z.pos (mx * my))).
  { pose proof (Zdigits2_bounds (Z.pos (mx * my)) ltac:(lia)) as [_ Hh].
    destruct (Z.le_gt_cases (dx + dy - 1) (Zdigits2 (Z.pos (mx * my)))) as [|Hlt];
      [assumption|exfalso].
    assert (2 ^ Zdigits2 (Z.pos (mx * my)) <= 2 ^ (dx + dy - 2))
      by (apply Z.pow_le_mono_r; lia).
    assert (2 ^ (dx + dy - 2) = 2 ^ (dx - 1) * 2 ^ (dy - 1))
      by (rewrite <- Z.pow_add_r by lia; f_equal; lia).
    assert (Z.pos (mx * my) = Z.pos mx * Z.pos my) by lia.
    assert (2 ^ (dx - 1) * 2 ^ (dy - 1) <= Z.pos mx * Z.pos my).
    { apply Z.mul_le_mono_nonneg; try assumption; apply Z.pow_nonneg; lia. }
    lia. }
  lia.
Qed.

(** Multiplying by a binary64 number that is at least 1.0 does not make a
    positive number smaller. *)
Lemma mul_ge_one (m : positive) (e : Z) (y : double) :
  valid (S754_finite false m e) = true ->
  valid y = true ->
  leb (S754_finite false 4503599627370496 (-52)) y = true ->
  leb (S754_finite false m e) (mul (S754_finite false m e) y) = true.
Proof.
  intros Hx Hy Hone. pose proof (leb_finite_positive _ _ _ Hone) as Hpos.
  destruct y as [sy|sy| |sy my ey]; try destruct sy; try discriminate; [reflexivity|].
  apply valid_finite in Hx as [Hx _]. apply valid_finite in Hy as [Hy _].
  pose proof (mul_aligned m my e ey Hx Hy) as Hal.
  unfold mul, SFmul. cbn [xorb].
  assert (Hlex : -52 < ey \/ (ey = -52 /\ 2 ^ 52 <= Z.pos my)).
  { unfold leb, SFleb, SFcompare in Hone.
    destruct (Z.compare_spec (-52) ey) as [Heq|Hlt|Hgt]; [|by left|discriminate].
    right. split; [lia|]. rewrite Pos.compare_cont_spec in Hone. cbn [Pos.switch_Eq] in Hone.
    destruct (Pos.compare_spec 4503599627370496 my); try discriminate; lia. }
  assert (Hmy : 2 ^ 52 <= Z.pos my).
  { destruct Hlex as [Hgt|[_ ?]]; [|assumption].
    pose proof (canonical_exponent _ _ Hy) as Hc.
    pose proof (Zdigits2_bounds (Z.pos my) ltac:(lia)) as [Hlo _].
    replace (Zdigits2 (Z.pos my)) with 53 in Hlo by lia. exact Hlo. }
  destruct (Z.le_gt_cases ey 0) as [Hle|Hgt].
  - replace (e + ey) with (e - (- ey)) by lia.
    apply round_ge; [assumption|lia|]. rewrite Pos2Z.inj_mul.
    assert (2 ^ (- ey) <= 2 ^ 52) by (apply Z.pow_le_mono_r; lia). nia.
  - apply round_ge_aligned; [assumption|lia|lia|].
    change (Z.pos m * Z.pos my) with (Z.pos (m * my)). assumption.
Qed.

End AlignedOperations.

Section OrderFurther.

Lemma ltb_not_leb (a b : double) : ltb a b = true -> leb b a = false.
Proof.
  unfold ltb, leb, SFltb, SFleb. rewrite (SFcompare_antisym a b).
  by destruct (SFcompare a b) as [[]|].
Qed.

Lemma ltb_leb_weak (a b : double) : ltb a b = true -> leb a b = true.
Proof. unfold ltb, leb, SFltb, SFleb. by destruct (SFcompare a b) as [[]|]. Qed.

Lemma positive_is_nonneg (x : double) : is_positive x = true -> nonneg x = true.
Proof. destruct x as [s|s| |s m e]; try destruct s; cbn; congruence. Qed.

(** [<=] is transitive through a number that is zero or above. *)
Lemma leb_trans_nonneg (a b c : double) :
  nonneg b = true -> leb a b = true -> leb b c = true -> leb a c = true.
Proof.
  destruct b as [sb|sb| |sb mb eb]; try destruct sb; try discriminate; intros _.
  - destruct a as [sa|sa| |sa ma ea], c as [sc|sc| |sc mc ec];
      try destruct sa; try destruct sc; cbn; congruence.
  - destruct a as [sa|sa| |sa ma ea], c as [sc|sc| |sc mc ec];
      try destruct sa; try destruct sc; cbn; congruence.
  - apply leb_trans_finite.
Qed.

Lemma leb_positive (a c : double) :
  is_positive a = true -> leb a c = true -> is_positive c = true.
Proof.
  destruct a as [sa|sa| |sa ma ea]; try destruct sa; try discriminate; intros _.
  - destruct c as [sc|sc| |sc mc ec]; try destruct sc; cbn; congruence.
  - apply leb_finite_positive.
Qed.

(** [min] is monotone in its first argument. *)
Lemma min_mono_l (a b hi : double) :
  nonneg b = true -> is_nan a = false -> is_nan hi = false ->
  leb a b = true -> leb (min a hi) (min b hi) = true.
Proof.
  intros Hb Ha Hhi Hab. pose proof (nonneg_not_nan _ Hb) as Hbn. unfold min.
  destruct (ltb hi a) eqn:Hha, (ltb hi b) eqn:Hhb.
  - by apply leb_refl.
  - exfalso. pose proof (ltb_false_leb _ _ Hhi Hbn Hhb) as Hbh.
    pose proof (leb_trans_nonneg _ _ _ Hb Hab Hbh) as Hah.
    apply ltb_not_leb in Hha. congruence.
  - by apply ltb_false_leb.
  - assumption.
Qed.

Lemma leb_max_l (x lo : double) : is_nan x = false -> leb x (max x lo) = true.
Proof.
  intros Hx. unfold max. destruct (ltb x lo) eqn:H; [by apply ltb_leb_weak|by apply leb_refl].
Qed.

Lemma min_positive (a b : double) :
  is_positive a = true -> is_positive b = true -> is_positive (min a b) = true.
Proof. intros Ha Hb. unfold min. by destruct (ltb b a). Qed.

Lemma one_plus_valid (y : double) :
  nonneg y = true -> valid (add (S754_finite false 4503599627370496 (-52)) y) = true.
Proof.
  destruct y as [sy|sy| |sy my ey]; try destruct sy; try discriminate; intros _;
    try reflexivity.
  unfold add, SFadd. cbn [cond_Zopp].
  match goal with |- context [Z.pos ?a + Z.pos ?b] =>
    change (Z.pos a + Z.pos b) with (Z.pos (a + b)) end.
  cbn [binary_normalize]. apply binary_round_valid.
Qed.

End OrderFurther.

Section IntegerConversion.

Import LoadAware.

Lemma of_Z_nonpos (z : Z) (m : positive) (e : Z) :
  z <= 0 -> leb (of_Z z) (S754_finite false m e) = true.
Proof.
  intros Hz. unfold of_Z, binary_normalize. destruct z as [|p|p]; [reflexivity|lia|].
  unfold binary_round. destruct (shl_align p 0 _) as [mz ez].
  destruct (binary_round_aux_spec true (Z.pos mz) ez loc_Exact ltac:(lia)) as (m1 & Hb & _ & ->).
  cbv zeta in Hb |- *.
  match goal with |- leb (rounded true ?q ?x) _ = true =>
    assert (Hq : 0 <= q); [|destruct q as [|r|r]; [reflexivity| |lia]] end.
  - apply Z.div_pos; [|apply Z.pow_pos_nonneg; lia].
    apply Z.le_trans with (Z.pos mz / 2 ^ Z.max 0 (fexp prec emax (Zdigits2 (Z.pos mz) + ez) - ez));
      [|lia].
    apply Z.div_pos; [lia|apply Z.pow_pos_nonneg; lia].
  - unfold rounded. by destruct (_ <=? _).
Qed.

(** From 201 on, an integer converts to a binary64 number that is at least
    201.0. *)
Lemma of_Z_above_200 (z : Z) : 201 <= z -> leb (of_Z 201) (of_Z z) = true.
Proof.
  intros Hz. change (of_Z 201) with (S754_finite false 7072058789855232 (-45)).
  unfold of_Z, binary_normalize. destruct z as [|p|p]; try lia.
  apply binary_round_ge; [reflexivity| |lia].
  intros _. change (0 - -45) with 45.
  change (Z.pos 7072058789855232) with (201 * 2 ^ 45). lia.
Qed.

Lemma leb_above (x r t : double) :
  leb x r = true -> ltb t x = true -> is_positive x = true -> leb r t = false.
Proof.
  intros Hxr Htx Hx. destruct (leb r t) eqn:Hrt; [exfalso|reflexivity].
  pose proof (leb_positive _ _ Hx Hxr) as Hr.
  pose proof (leb_trans_nonneg _ _ _ (positive_is_nonneg _ Hr) Hxr Hrt) as Hxt.
  apply ltb_not_leb in Htx. congruence.
Qed.

(** The comparisons of a millisecond count with the four thresholds are the
    comparisons of integers. *)
Lemma threshold_comparisons (z : Z) :
  leb (of_Z z) RTT_THRESHOLD_EXCELLENT = (z <=? 10)
  /\ leb (of_Z z) RTT_THRESHOLD_GOOD = (z <=? 50)
  /\ leb (of_Z z) RTT_THRESHOLD_FAIR = (z <=? 100)
  /\ leb (of_Z z) RTT_THRESHOLD_POOR = (z <=? 200).
Proof.
  destruct (Z.le_gt_cases z 0) as [Hneg|Hpos].
  - repeat split; (rewrite (proj2 (Z.leb_le _ _)) by lia); by apply of_Z_nonpos.
  - destruct (Z.le_gt_cases z 200) as [Hsmall|Hbig].
    + assert (Hall : forallb (fun k =>
                 Bool.eqb (leb (of_Z k) RTT_THRESHOLD_EXCELLENT) (k <=? 10)
                 && Bool.eqb (leb (of_Z k) RTT_THRESHOLD_GOOD) (k <=? 50)
                 && Bool.eqb (leb (of_Z k) RTT_THRESHOLD_FAIR) (k <=? 100)
                 && Bool.eqb (leb (of_Z k) RTT_THRESHOLD_POOR) (k <=? 200))
               (seqZ 1 200) = true) by (vm_compute; reflexivity).
      rewrite forallb_forall in Hall. specialize (Hall z). cbv beta in Hall.
      rewrite !andb_true_iff, !Bool.eqb_true_iff in Hall.
      assert (Hin : In z (seqZ 1 200)) by (apply list_elem_of_In, elem_of_seqZ; lia).
      destruct (Hall Hin) as [[[H1 H2] H3] H4]. by repeat split.
    + pose proof (of_Z_above_200 z ltac:(lia)) as Hge.
      repeat split; (rewrite (proj2 (Z.leb_gt _ _)) by lia);
        by apply (leb_above (of_Z 201)).
Qed.

End IntegerConversion.

Section ExactIntegers.

(** A value that a binary64 number [K * 2^c] represents is rounded to that
    number. *)
Lemma binary_round_aux_exact (s : bool) (M E c : Z) (K : positive) :
  canonical_mantissa prec emax K c = true -> c <= 971 -> E <= c ->
  M = Z.pos K * 2 ^ (c - E) ->
  binary_round_aux prec emax s M E loc_Exact = S754_finite s K c.
Proof.
  intros HK Hc HE HM. apply canonical_exponent in HK.
  set (d := Zdigits2 (Z.pos K)) in *.
  assert (Hpow : 0 < 2 ^ (c - E)) by (apply Z.pow_pos_nonneg; lia).
  assert (HM0 : 0 <= M) by nia.
  assert (Hd : Zdigits2 M = d + (c - E)).
  { rewrite HM, Zdigits2_mul_pow2 by lia. reflexivity. }
  destruct (binary_round_aux_spec s M E loc_Exact HM0) as (m1 & _ & Hex & ->).
  cbv zeta in Hex |- *. rewrite Hd in Hex |- *.
  assert (Hf : fexp prec emax (d + (c - E) + E) = c) by (rewrite fexp_eq; lia).
  rewrite Hf in Hex |- *. rewrite (Z.max_r 0 (c - E)) in Hex |- * by lia.
  assert (Hm1 : m1 = Z.pos K).
  { rewrite Hex; [|reflexivity|]; rewrite HM.
    - apply Z.div_mul; lia.
    - apply Z_mod_mult. }
  rewrite Hm1. fold d.
  assert (Hf2 : fexp prec emax (d + (E + (c - E))) = c) by (rewrite fexp_eq; lia).
  rewrite Hf2. replace (E + (c - E)) with c by lia.
  rewrite Z.sub_diag. change (Z.max 0 0) with 0.
  rewrite Z.pow_0_r, Z.div_1_r, Z.add_0_r. unfold rounded.
  destruct (Z.leb_spec c (emax - prec)) as [_|Hgt]; [reflexivity|].
  unfold emax, prec in Hgt. lia.
Qed.

Lemma binary_round_aux_canon (s : bool) (M E c : Z) (K : positive) :
  Zdigits2 (Z.pos K) = 53 -> -1074 <= c <= 971 -> E <= c ->
  M = Z.pos K * 2 ^ (c - E) ->
  binary_round_aux prec emax s M E loc_Exact = S754_finite s K c.
Proof.
  intros HK Hc HE HM. apply binary_round_aux_exact; [|lia|assumption|assumption].
  unfold canonical_mantissa. apply Z.eqb_eq.
  rewrite digits2_pos_Zdigits2, HK, fexp_eq. lia.
Qed.

Lemma binary_round_canon (m : positive) (e c : Z) (K : positive) :
  Zdigits2 (Z.pos K) = 53 -> -1074 <= c <= 971 ->
  (e <= c -> Z.pos m = Z.pos K * 2 ^ (c - e)) ->
  (c <= e -> Z.pos K = Z.pos m * 2 ^ (e - c)) ->
  binary_round prec emax false m e = S754_finite false K c.
Proof.
  intros HK Hc Hlo Hhi.
  destruct (binary_round_aligned m e) as (mz & ez & -> & Hez & Hv & Hal).
  assert (Hdig : Zdigits2 (Z.pos mz) + ez = 53 + c).
  { rewrite Hv, Zdigits2_mul_pow2 by lia.
    destruct (Z.le_gt_cases e c) as [Hec|Hec].
    - rewrite (Hlo Hec), Zdigits2_mul_pow2 by lia. lia.
    - assert (Hk : Zdigits2 (Z.pos K) = Zdigits2 (Z.pos m) + (e - c)).
      { rewrite (Hhi ltac:(lia)), Zdigits2_mul_pow2 by lia. reflexivity. }
      lia. }
  rewrite Hdig, fexp_eq in Hal.
  apply binary_round_aux_canon; [assumption|lia|lia|].
  rewrite Hv. destruct (Z.le_gt_cases e c) as [Hec|Hec].
  - rewrite (Hlo Hec), <- Z.mul_assoc, <- Z.pow_add_r by lia. do 2 f_equal. lia.
  - rewrite (Hhi ltac:(lia)), <- Z.mul_assoc, <- Z.pow_add_r by lia. do 2 f_equal. lia.
Qed.

(** The binary64 number of an integer below [2^53]: its mantissa and its
    exponent. *)
Lemma of_Z_canon (z : Z) :
  0 < z < 2 ^ 53 ->
  exists (K : positive) (c : Z),
    of_Z z = S754_finite false K c
    /\ Zdigits2 (Z.pos K) = 53 /\ c = Zdigits2 z - 53 /\ -52 <= c <= 0
    /\ Z.pos K = z * 2 ^ (- c).
Proof.
  intros Hz.
  pose proof (digits_le_53 z ltac:(lia) ltac:(lia)) as Hd53.
  pose proof (Zdigits2_bounds z ltac:(lia)) as Hdb.
  assert (Hd1 : 1 <= Zdigits2 z).
  { destruct (Z.le_gt_cases 1 (Zdigits2 z)) as [?|Hlt]; [assumption|].
    assert (2 ^ Zdigits2 z <= 2 ^ 0) by (apply Z.pow_le_mono_r; lia).
    change (2 ^ 0) with 1 in *. lia. }
  set (c := Zdigits2 z - 53).
  assert (Hpow : 0 < 2 ^ (- c)) by (apply Z.pow_pos_nonneg; lia).
  destruct (z * 2 ^ (- c)) as [|K|K] eqn:HK; try nia.
  exists K, c.
  assert (HdK : Zdigits2 (Z.pos K) = 53).
  { rewrite <- HK, Zdigits2_mul_pow2 by lia. lia. }
  split; [|repeat split; try assumption; try lia].
  unfold of_Z, binary_normalize. destruct z as [|p|p]; try lia.
  apply binary_round_canon; [assumption|lia| |].
  - intros H0. assert (c = 0) by lia. replace (c - 0) with 0 by lia.
    rewrite Z.mul_1_r. replace (- c) with 0 in HK by lia. lia.
  - intros _. replace (0 - c) with (- c) by lia. by rewrite HK.
Qed.

(** Sums of such integers are exact. *)
Lemma add_of_Z (a b : Z) :
  0 <= a -> 0 <= b -> a + b < 2 ^ 53 -> add (of_Z a) (of_Z b) = of_Z (a + b).
Proof.
  intros Ha Hb Hab.
  destruct (Z.eq_dec a 0) as [->|Ha0].
  { rewrite Z.add_0_l. destruct (Z.eq_dec b 0) as [->|Hb0]; [reflexivity|].
    destruct (of_Z_canon b ltac:(lia)) as (K & c & -> & _). reflexivity. }
  destruct (Z.eq_dec b 0) as [->|Hb0].
  { rewrite Z.add_0_r. destruct (of_Z_canon a ltac:(lia)) as (K & c & -> & _). reflexivity. }
  destruct (of_Z_canon a ltac:(lia)) as (Ka & ca & -> & HdA & HcA & HbA & HKa).
  destruct (of_Z_canon b ltac:(lia)) as (Kb & cb & -> & HdB & HcB & HbB & HKb).
  destruct (of_Z_canon (a + b) ltac:(lia)) as (K & c & -> & HdK & HcK & HbK & HK).
  unfold add, SFadd. cbn [cond_Zopp].
  set (ez := Z.min ca cb).
  destruct (shl_align_spec Ka ca ez) as [Hs1 Hv1].
  destruct (shl_align_spec Kb cb ez) as [Hs2 Hv2].
  set (a' := fst (shl_align Ka ca ez)) in *. set (b' := fst (shl_align Kb cb ez)) in *.
  change (Z.pos a' + Z.pos b') with (Z.pos (a' + b')).
  cbn [binary_normalize].
  assert (Hca : ca <= c) by (subst ca c; apply Z.sub_le_mono_r, Zdigits2_mono; lia).
  assert (Hcb : cb <= c) by (subst cb c; apply Z.sub_le_mono_r, Zdigits2_mono; lia).
  assert (Hva : Z.pos a' = a * 2 ^ (- ez)).
  { rewrite Hv1, Hs1, HKa, <- Z.mul_assoc, <- Z.pow_add_r by lia. do 2 f_equal. lia. }
  assert (Hvb : Z.pos b' = b * 2 ^ (- ez)).
  { rewrite Hv2, Hs2, HKb, <- Z.mul_assoc, <- Z.pow_add_r by lia. do 2 f_equal. lia. }
  apply binary_round_canon; [assumption|lia| |].
  - intros _. rewrite Pos2Z.inj_add, Hva, Hvb, HK, <- Z.mul_assoc, <- Z.pow_add_r by lia.
    replace (- c + (c - ez)) with (- ez) by lia. lia.
  - intros Hle. assert (c = ez) by lia. subst ez.
    rewrite Pos2Z.inj_add, Hva, Hvb, HK. replace (Z.min ca cb - c) with 0 by lia.
    rewrite Z.mul_1_r. replace (- Z.min ca cb) with (- c) by lia. lia.
Qed.

Lemma Zdigits2_mul_le (k z : Z) : 0 < k -> 0 < z -> Zdigits2 (k * z) <= Zdigits2 k + Zdigits2 z.
Proof.
  intros Hk Hz.
  pose proof (Zdigits2_bounds k Hk) as Hbk. pose proof (Zdigits2_bounds z Hz) as Hbz.
  pose proof (Zdigits2_bounds (k * z) ltac:(nia)) as Hb.
  destruct (Z.le_gt_cases (Zdigits2 (k * z)) (Zdigits2 k + Zdigits2 z)) as [?|Hgt];
    [assumption|exfalso].
  assert (Hdk : 0 <= Zdigits2 k).
  { destruct (Z.le_gt_cases 0 (Zdigits2 k)) as [?|Hlt]; [assumption|].
    rewrite (Z.pow_neg_r 2 (Zdigits2 k)) in Hbk by lia. lia. }
  assert (Hdz : 0 <= Zdigits2 z).
  { destruct (Z.le_gt_cases 0 (Zdigits2 z)) as [?|Hlt]; [assumption|].
    rewrite (Z.pow_neg_r 2 (Zdigits2 z)) in Hbz by lia. lia. }
  assert (H1 : 2 ^ (Zdigits2 k + Zdigits2 z) <= 2 ^ (Zdigits2 (k * z) - 1))
    by (apply Z.pow_le_mono_r; lia).
  rewrite Z.pow_add_r in H1 by lia. nia.
Qed.

Lemma of_Z_positive (k : Z) : 0 < k -> is_positive (of_Z k) = true.
Proof.
  intros Hk. apply (leb_finite_positive _ 4503599627370496 (-52)).
  unfold of_Z, binary_normalize. destruct k as [|p|p]; try lia.
  apply binary_round_ge; [reflexivity| |lia].
  intros _. change (0 - -52) with 52. change (Z.pos 4503599627370496) with (2 ^ 52). lia.
Qed.

Lemma div_zero_positive (y : double) : is_positive y = true -> div zero y = zero.
Proof. by destruct y as [[]|[]| |[] m e]. Qed.

Lemma new_location_0 (n : Z) : new_location n 0 = loc_Exact.
Proof. unfold new_location. by destruct (Z.even n). Qed.

(** A quotient that is an integer below [2^53] is exact. *)
Lemma div_of_Z (k z : Z) :
  0 < k -> 0 <= z -> k * z < 2 ^ 53 -> div (of_Z (k * z)) (of_Z k) = of_Z z.
Proof.
  intros Hk Hz Hkz.
  destruct (Z.eq_dec z 0) as [->|Hz0].
  { rewrite Z.mul_0_r. by apply div_zero_positive, of_Z_positive. }
  assert (Hk53 : k < 2 ^ 53) by nia. assert (Hz53 : z < 2 ^ 53) by nia.
  destruct (of_Z_canon (k * z) ltac:(nia)) as (K1 & c1 & -> & Hd1 & Hc1 & Hb1 & HK1).
  destruct (of_Z_canon k ltac:(lia)) as (K2 & c2 & -> & Hd2 & Hc2 & Hb2 & HK2).
  destruct (of_Z_canon z ltac:(lia)) as (K & c & -> & HdK & HcK & HbK & HK).
  pose proof (Zdigits2_mul_le k z ltac:(lia) ltac:(lia)) as Hdig.
  unfold div, SFdiv, SFdiv_core_binary. cbn [xorb]. rewrite Hd1, Hd2, fexp_eq.
  replace (Z.min (Z.max (53 + c1 - (53 + c2) - 53) (-1074)) (c1 - c2)) with (c1 - c2 - 53)
    by lia.
  replace (c1 - c2 - (c1 - c2 - 53)) with 53 by lia.
  rewrite Z.shiftl_mul_pow2 by lia.
  assert (Hq : Z.pos K1 * 2 ^ 53 = Z.pos K2 * (z * 2 ^ (53 - c1 + c2)) + 0).
  { assert (E1 : 2 ^ (- c1) * 2 ^ 53 = 2 ^ (53 - c1)).
    { rewrite <- Z.pow_add_r by lia. f_equal. lia. }
    assert (E2 : 2 ^ (- c2) * 2 ^ (53 - c1 + c2) = 2 ^ (53 - c1)).
    { rewrite <- Z.pow_add_r by lia. f_equal. lia. }
    rewrite HK1, HK2, Z.add_0_r. rewrite <- !Z.mul_assoc, E1.
    rewrite (Z.mul_comm z (2 ^ (53 - c1 + c2))), (Z.mul_assoc (2 ^ (- c2))), E2.
    ring. }
  assert (Hdm : Z.div_eucl (Z.pos K1 * 2 ^ 53) (Z.pos K2) = (z * 2 ^ (53 - c1 + c2), 0)).
  { pose proof (Z.div_mod_unique (Z.pos K2) ((Z.pos K1 * 2 ^ 53) / Z.pos K2)
                  (z * 2 ^ (53 - c1 + c2)) ((Z.pos K1 * 2 ^ 53) mod Z.pos K2) 0) as Hu.
    pose proof (Z.div_mod (Z.pos K1 * 2 ^ 53) (Z.pos K2) ltac:(lia)) as Hdm.
    pose proof (Z.mod_pos_bound (Z.pos K1 * 2 ^ 53) (Z.pos K2) ltac:(lia)) as Hmb.
    destruct Hu as [Hu1 Hu2]; [left; lia|left; lia|lia|].
    unfold Z.div, Z.modulo in Hu1, Hu2.
    destruct (Z.div_eucl (Z.pos K1 * 2 ^ 53) (Z.pos K2)) as [q r]. cbn in Hu1, Hu2.
    by subst. }
  rewrite Hdm, new_location_0.
  apply binary_round_aux_canon; [assumption|lia|lia|].
  rewrite HK, <- Z.mul_assoc, <- Z.pow_add_r by lia. do 2 f_equal. lia.
Qed.

Lemma sub_self (m : positive) (e : Z) :
  sub (S754_finite false m e) (S754_finite false m e) = zero.
Proof. unfold sub, SFsub. cbn [cond_Zopp]. by rewrite Z.sub_diag. Qed.

End ExactIntegers.

(** ** The cost function: edges, frame and isolation *)

Section CostEdges.

Import LoadAware Queries.

Variable MAX_RTT_HISTORY : nat.

(** X1. On every duration, a negative one included, the RTT factor is the
    step function of the RTT's whole milliseconds: 0.0 up to 10, 0.2 up to
    50, 0.5 up to 100, 1.0 up to 200, 2.0 above.  The comparisons the code
    makes between the converted count and the binary64 thresholds decide
    as the comparisons of the integers do, however large the count. *)
Theorem X1_rtt_factor_steps (metrics : LinkMetrics) :
  getRttFactor metrics
  = match currentRtt metrics with
    | None => d0_0
    | Some rtt =>
        let ms := Time.to_milliseconds rtt in
        if ms <=? 10 then d0_0
        else if ms <=? 50 then d0_2
        else if ms <=? 100 then d0_5
        else if ms <=? 200 then d1_0
        else d2_0
    end.
Proof.
  unfold getRttFactor. destruct (currentRtt metrics) as [rtt|]; [|reflexivity].
  cbv zeta. destruct (threshold_comparisons (Time.to_milliseconds rtt)) as (-> & -> & -> & ->).
  reflexivity.
Qed.

(** X2. The RTT factor is monotone: of two links with a measured RTT, the
    one with the longer RTT never gets the smaller factor. *)
Theorem X2_rtt_factor_monotone (m1 m2 : LinkMetrics) (r1 r2 : Time.nanoseconds) :
  currentRtt m1 = Some r1 -> currentRtt m2 = Some r2 -> r1 <= r2 ->
  leb (getRttFactor m1) (getRttFactor m2) = true.
Proof.
  intros H1 H2 Hle. unfold getRttFactor. rewrite H1, H2. cbv zeta.
  destruct (threshold_comparisons (Time.to_milliseconds r1)) as (-> & -> & -> & ->).
  destruct (threshold_comparisons (Time.to_milliseconds r2)) as (-> & -> & -> & ->).
  assert (Hms : Time.to_milliseconds r1 <= Time.to_milliseconds r2)
    by (apply Z.quot_le_mono; lia).
  repeat match goal with
         | |- context [?a <=? ?b] => destruct (Z.leb_spec a b)
         end; try lia; reflexivity.
Qed.

(** X3. With costs above zero (binary64 numbers) and positive finite
    weights, the adjustment only raises a cost: the call returns at least
    the smaller of the RTT-based cost and the upper clamp
    [originalCost * 3.0], and what it returns is above zero. *)
Theorem X3_cost_not_below_rtt_cost (now : Time.time_point) (n : Name)
    (rttBasedCost : double) (metrics : LinkMetrics) (c : Calculator) :
  ltb zero rttBasedCost = true -> valid rttBasedCost = true ->
  ltb zero (originalCost metrics) = true -> valid (originalCost metrics) = true ->
  finite_pos (m_rttWeight c) = true ->
  finite_pos (m_loadWeight c) = true ->
  finite_pos (m_stabilityWeight c) = true ->
  let cost := fst (calculateLoadAwareCost MAX_RTT_HISTORY now n rttBasedCost metrics c) in
  leb (min rttBasedCost (mul (originalCost metrics) d3_0)) cost = true
  /\ is_positive cost = true.
Proof.
  intros Hr Hrv Ho Hov HwR HwL HwS. cbv zeta. unfold calculateLoadAwareCost.
  rewrite (positive_not_leb_zero _ Hr), (positive_not_leb_zero _ Ho). cbn [orb].
  pose proof (getLoadFactor_nonneg MAX_RTT_HISTORY metrics (m_rttHistory c)) as Hlf.
  destruct (getLoadFactor MAX_RTT_HISTORY metrics (m_rttHistory c)) as [loadFactor h1].
  cbn [fst] in Hlf |- *.
  apply ltb_zero_positive in Hr, Ho.
  set (A := add (add (mul (m_rttWeight c) (getRttFactor metrics))
                     (mul (m_loadWeight c) loadFactor))
                (mul (m_stabilityWeight c) (getStabilityFactor now metrics))).
  assert (HA : nonneg A = true).
  { apply add_nonneg; [apply add_nonneg|].
    - apply mul_nonneg; [assumption|apply getRttFactor_nonneg].
    - by apply mul_nonneg.
    - apply mul_nonneg; [assumption|apply getStabilityFactor_nonneg]. }
  set (hi := mul (originalCost metrics) d3_0).
  set (lo := mul (originalCost metrics) d0_5).
  set (adj := mul rttBasedCost (add d1_0 A)).
  assert (Hy : is_positive (add d1_0 A) = true) by by apply one_plus_positive.
  assert (Hadjn : nonneg adj = true) by by apply mul_positive.
  assert (Hadj : leb rttBasedCost adj = true).
  { unfold adj. destruct rttBasedCost as [s|s| |s m e]; try destruct s; try discriminate.
    - destruct (add d1_0 A) as [sy|sy| |sy my ey]; try destruct sy; try discriminate;
        reflexivity.
    - apply mul_ge_one; [assumption|by apply one_plus_valid|].
      apply (add_ge_l 4503599627370496 (-52)); [reflexivity|assumption]. }
  pose proof (clamp_bounds_ordered _ Ho Hov) as Hlh. fold lo hi in Hlh.
  destruct (leb_not_nan _ _ Hlh) as [Hlon Hhin].
  assert (Hhip : is_positive hi = true).
  { unfold hi. destruct (originalCost metrics) as [s|s| |s m e]; try destruct s;
      try discriminate; [reflexivity|].
    eapply leb_finite_positive. by apply mul_three_ge. }
  assert (Hlow : leb (min rttBasedCost hi) (max (min adj hi) lo) = true).
  { apply leb_trans_nonneg with (b := min adj hi).
    - apply min_nonneg; [assumption|by apply positive_is_nonneg].
    - apply min_mono_l; try assumption.
      destruct rttBasedCost as [s|s| |s m e]; try destruct s; try discriminate; reflexivity.
    - apply leb_max_l. apply nonneg_not_nan, min_nonneg; [assumption|].
      by apply positive_is_nonneg. }
  split; [assumption|].
  eapply leb_positive; [|exact Hlow]. by apply min_positive.
Qed.

(** X4. An RTT-based cost that is not a number comes back as not a
    number, whatever the metrics and the calculator: the guard lets it
    pass, and neither [std::min] nor [std::max] replaces it by a clamp
    bound. *)
Theorem X4_nan_cost_stays_nan (now : Time.time_point) (n : Name)
    (metrics : LinkMetrics) (c : Calculator) :
  fst (calculateLoadAwareCost MAX_RTT_HISTORY now n S754_nan metrics c) = S754_nan.
Proof.
  unfold calculateLoadAwareCost. cbn [leb SFleb SFcompare orb].
  change (leb S754_nan zero) with false. cbn [orb].
  destruct (leb (originalCost metrics) zero); [reflexivity|].
  destruct (getLoadFactor MAX_RTT_HISTORY metrics (m_rttHistory c)) as [loadFactor h1].
  cbn [fst]. change (mul S754_nan ?y) with S754_nan.
  unfold min, max.
  assert (H1 : forall x, ltb x S754_nan = false) by (by intros [| | |]).
  rewrite H1. reflexivity.
Qed.

(** X5. What a call leaves and what it changes.  The weights and the
    count of path calculations stay; the count of cost adjustments goes up
    by one exactly when the guard does not return at once; when it does,
    the cost comes back as given and the calculator as it was; without a
    measured RTT no history changes; and in every case the histories of
    the neighbors other than the one in the call and the one in the
    metrics stay. *)
Theorem X5_cost_call_frame (now : Time.time_point) (n : Name)
    (rttBasedCost : double) (metrics : LinkMetrics) (c : Calculator) :
  let r := calculateLoadAwareCost MAX_RTT_HISTORY now n rttBasedCost metrics c in
  m_rttWeight (snd r) = m_rttWeight c
  /\ m_loadWeight (snd r) = m_loadWeight c
  /\ m_stabilityWeight (snd r) = m_stabilityWeight c
  /\ m_calculationCount (snd r) = m_calculationCount c
  /\ m_costAdjustmentCount (snd r)
     = (m_costAdjustmentCount c
        + if not_adjustable rttBasedCost metrics then 0 else 1)%N
  /\ (not_adjustable rttBasedCost metrics = true -> r = (rttBasedCost, c))
  /\ (currentRtt metrics = None -> m_rttHistory (snd r) = m_rttHistory c)
  /\ (forall m, m <> n -> m <> neighbor metrics ->
        m_rttHistory (snd r) !! m = m_rttHistory c !! m).
Proof.
  cbv zeta. unfold calculateLoadAwareCost, not_adjustable.
  destruct (leb rttBasedCost zero || leb (originalCost metrics) zero).
  { cbn [snd]. repeat split; try reflexivity; try discriminate. lia. }
  pose proof (getLoadFactor_history MAX_RTT_HISTORY metrics (m_rttHistory c)) as Hh1.
  destruct (getLoadFactor MAX_RTT_HISTORY metrics (m_rttHistory c)) as [loadFactor h1].
  cbn [snd] in Hh1 |- *. cbn [m_rttHistory count_adjustment set_history
    m_rttWeight m_loadWeight m_stabilityWeight m_calculationCount m_costAdjustmentCount].
  subst h1. repeat split; try reflexivity; try discriminate.
  - lia.
  - intros ->. reflexivity.
  - intros m Hn Hm. destruct (currentRtt metrics) as [rtt|]; [|reflexivity].
    rewrite !lookup_update_ne by congruence. reflexivity.
Qed.

(** X6. After any run of updates for one neighbor, its history is what
    the bound leaves of the old samples followed by the new ones: the
    newest [MAX_RTT_HISTORY] of them, in order of arrival.  The histories
    of the other neighbors are untouched. *)
Theorem X6_history_after_samples (n : Name) (x : double) (xs : list double)
    (h : gmap Name (list double)) :
  let h' := fold_left (fun h s => updateRttHistory MAX_RTT_HISTORY n s h) (x :: xs) h in
  let all := history_of n h ++ x :: xs in
  h' !! n = Some (drop (length all - MAX_RTT_HISTORY)%nat all)
  /\ (forall m, m <> n -> h' !! m = h !! m).
Proof.
  cbv zeta. revert x h. induction xs as [|y ys IH]; intros x h.
  - cbn [fold_left]. split.
    + rewrite lookup_update_eq. by rewrite pop_excess_drop.
    + intros m Hm. by apply lookup_update_ne.
  - change (fold_left ?f (x :: y :: ys) h)
      with (fold_left f (y :: ys) (updateRttHistory MAX_RTT_HISTORY n x h)).
    destruct (IH y (updateRttHistory MAX_RTT_HISTORY n x h)) as [IH1 IH2]. split.
    + rewrite IH1. f_equal. rewrite history_of_update_eq, pop_excess_drop.
      set (l := history_of n h ++ [x]). set (r := y :: ys).
      replace (history_of n h ++ x :: r) with (l ++ r)
        by (unfold l; by rewrite <- app_assoc).
      rewrite !length_app, length_drop.
      destruct (Nat.le_gt_cases (length l) MAX_RTT_HISTORY) as [Hle|Hgt].
      * replace (length l - MAX_RTT_HISTORY)%nat with 0%nat by lia.
        rewrite drop_0. f_equal. lia.
      * rewrite <- (drop_app_le l r (length l - MAX_RTT_HISTORY)) by lia.
        rewrite drop_drop. f_equal. lia.
    + intros m Hm. rewrite IH2 by assumption. by apply lookup_update_ne.
Qed.

(** X7. A calculator whose histories are within the bound keeps them so
    through any sequence of queries, and returns one cost per query. *)
Theorem X7_histories_stay_bounded (qs : list Query) (c : Calculator) :
  (forall n history, m_rttHistory c !! n = Some history ->
                     (length history <= MAX_RTT_HISTORY)%nat) ->
  let r := serve MAX_RTT_HISTORY qs c in
  length (fst r) = length qs
  /\ (forall n history, m_rttHistory (snd r) !! n = Some history ->
                        (length history <= MAX_RTT_HISTORY)%nat).
Proof.
  cbv zeta. revert c. induction qs as [|q rest IH]; intros c Hc.
  - split; [reflexivity|exact Hc].
  - cbn [serve].
    pose proof (fun m => calculateLoadAwareCost_bounded MAX_RTT_HISTORY (q_now q)
                  (q_neighbor q) (q_rttBasedCost q) (q_metrics q) c m) as Hstep.
    cbv zeta in Hstep.
    destruct (calculateLoadAwareCost _ _ _ _ _ c) as [cost c1]. cbn [snd] in Hstep.
    assert (Hc1 : forall n history, m_rttHistory c1 !! n = Some history ->
                                    (length history <= MAX_RTT_HISTORY)%nat).
    { intros m history Hm. destruct (Hstep m) as [Heq|(h0 & Hh0 & Hlen)].
      - rewrite Heq in Hm. by eapply Hc.
      - congruence. }
    destruct (IH c1 Hc1) as [IH1 IH2].
    destruct (serve MAX_RTT_HISTORY rest c1) as [costs c2]. cbn [fst snd] in *.
    split; [cbn [length]; by f_equal|assumption].
Qed.

End CostEdges.

Section CostIsolation.

Import LoadAware Queries.

Variable MAX_RTT_HISTORY : nat.

(** The load factor reads the calculator through the history of the
    neighbor named in the metrics only. *)
Lemma getLoadFactor_reads_own_history (metrics : LinkMetrics)
    (h h' : gmap Name (list double)) :
  history_of (neighbor metrics) h' = history_of (neighbor metrics) h ->
  fst (getLoadFactor MAX_RTT_HISTORY metrics h')
  = fst (getLoadFactor MAX_RTT_HISTORY metrics h).
Proof.
  intros Hh. unfold getLoadFactor.
  destruct (currentRtt metrics) as [rtt|].
  - rewrite !lookup_update_eq, Hh. by destruct (_ <? _)%nat.
  - unfold history_of in Hh.
    destruct (h' !! neighbor metrics) as [a|], (h !! neighbor metrics) as [b|];
      cbn in Hh; subst; try reflexivity; by destruct (_ <? _)%nat.
Qed.

Lemma calculateLoadAwareCost_reads (now : Time.time_point) (n : Name)
    (rttBasedCost : double) (metrics : LinkMetrics) (c c' : Calculator) :
  m_rttWeight c' = m_rttWeight c ->
  m_loadWeight c' = m_loadWeight c ->
  m_stabilityWeight c' = m_stabilityWeight c ->
  history_of (neighbor metrics) (m_rttHistory c')
  = history_of (neighbor metrics) (m_rttHistory c) ->
  fst (calculateLoadAwareCost MAX_RTT_HISTORY now n rttBasedCost metrics c')
  = fst (calculateLoadAwareCost MAX_RTT_HISTORY now n rttBasedCost metrics c).
Proof.
  intros HR HL HS Hh. unfold calculateLoadAwareCost.
  destruct (leb rttBasedCost zero || leb (originalCost metrics) zero); [reflexivity|].
  pose proof (getLoadFactor_reads_own_history metrics _ _ Hh) as Hlf.
  destruct (getLoadFactor MAX_RTT_HISTORY metrics (m_rttHistory c')) as [f' h1'].
  destruct (getLoadFactor MAX_RTT_HISTORY metrics (m_rttHistory c)) as [f h1].
  cbn [fst] in Hlf |- *. by rewrite HR, HL, HS, Hlf.
Qed.

(** What a call leaves as it was: the weights, and the history of every
    neighbor other than the two it names. *)
Lemma calculateLoadAwareCost_leaves (now : Time.time_point) (n : Name)
    (rttBasedCost : double) (metrics : LinkMetrics) (c : Calculator) :
  let c' := snd (calculateLoadAwareCost MAX_RTT_HISTORY now n rttBasedCost metrics c) in
  m_rttWeight c' = m_rttWeight c
  /\ m_loadWeight c' = m_loadWeight c
  /\ m_stabilityWeight c' = m_stabilityWeight c
  /\ (forall m, m <> n -> m <> neighbor metrics ->
        m_rttHistory c' !! m = m_rttHistory c !! m).
Proof.
  cbv zeta. unfold calculateLoadAwareCost.
  destruct (leb rttBasedCost zero || leb (originalCost metrics) zero); [by repeat split|].
  pose proof (getLoadFactor_history MAX_RTT_HISTORY metrics (m_rttHistory c)) as Hh1.
  destruct (getLoadFactor MAX_RTT_HISTORY metrics (m_rttHistory c)) as [loadFactor h1].
  cbn [snd] in Hh1 |- *. subst h1. repeat split.
  intros m Hn Hm. cbn [m_rttHistory count_adjustment set_history].
  destruct (currentRtt metrics) as [rtt|]; [|reflexivity].
  rewrite !lookup_update_ne by congruence. reflexivity.
Qed.

(** X8. Queries about other neighbors do not change the cost of a
    link: after the calculator has served any queries none of which names
    the neighbor of [metrics], neither in the call nor in the metrics, a
    call for [metrics] returns the cost it would have returned before
    them. *)
Theorem X8_queries_on_other_neighbors_do_not_interfere (qs : list Query) (c : Calculator)
    (now : Time.time_point) (n : Name) (rttBasedCost : double) (metrics : LinkMetrics) :
  Forall (fun q => q_neighbor q <> neighbor metrics
                   /\ neighbor (q_metrics q) <> neighbor metrics) qs ->
  fst (calculateLoadAwareCost MAX_RTT_HISTORY now n rttBasedCost metrics
         (snd (serve MAX_RTT_HISTORY qs c)))
  = fst (calculateLoadAwareCost MAX_RTT_HISTORY now n rttBasedCost metrics c).
Proof.
  intros Hqs. revert c. induction Hqs as [|q rest [Hq1 Hq2] _ IH]; intros c; [reflexivity|].
  cbn [serve].
  pose proof (calculateLoadAwareCost_leaves (q_now q) (q_neighbor q) (q_rttBasedCost q)
                (q_metrics q) c) as (HR & HL & HS & Hh).
  destruct (calculateLoadAwareCost _ _ _ _ _ c) as [cost c1]. cbn [snd] in HR, HL, HS, Hh.
  specialize (IH c1). destruct (serve MAX_RTT_HISTORY rest c1) as [costs c2].
  cbn [snd] in IH |- *. rewrite IH.
  apply calculateLoadAwareCost_reads; try assumption.
  unfold history_of. by rewrite Hh by congruence.
Qed.

End CostIsolation.

Section StabilityCap.

Import LoadAware.

Lemma min_le_l (a x : double) : is_nan a = false -> leb (min a x) a = true.
Proof.
  intros Ha. unfold min. destruct (ltb x a) eqn:Hlt; [by apply ltb_leb_weak|by apply leb_refl].
Qed.

Lemma add_zero_l (x : double) : is_zero x = false -> add zero x = x.
Proof. by destruct x as [s|s| |s m e]. Qed.

Lemma to_seconds_below (d : Time.nanoseconds) :
  d < 61000000000 -> Time.to_seconds d <= 60.
Proof.
  intros Hd. unfold Time.to_seconds.
  change 60 with (Z.quot 60999999999 1000000000). apply Z.quot_le_mono; lia.
Qed.

(** X9. Without a timeout count the stability factor is the time penalty
    alone: it lies between 0.0 and 2.0, the cap [std::min] puts on it, and
    it is 0.0 as long as less than 61 seconds have passed since the last
    success (the whole seconds are compared with 60). *)
Theorem X9_time_penalty_capped (now : Time.time_point) (metrics : LinkMetrics) :
  timeoutCount metrics = None ->
  nonneg (getStabilityFactor now metrics) = true
  /\ leb (getStabilityFactor now metrics) d2_0 = true
  /\ (forall last, lastSuccessTime metrics = Some last -> now - last < 61000000000 ->
        getStabilityFactor now metrics = d0_0).
Proof.
  intros Hnone. split; [apply getStabilityFactor_nonneg|].
  unfold getStabilityFactor. rewrite Hnone.
  destruct (lastSuccessTime metrics) as [last|]; [|split; [reflexivity|discriminate]].
  destruct (Z.ltb_spec 60 (Time.to_seconds (now - last))) as [Hlt|Hge].
  - split.
    + set (x := mul (div (of_Z (Time.to_seconds (now - last))) d60_0) d0_1).
      pose proof (min_le_l d2_0 x eq_refl) as Hmin.
      destruct (min d2_0 x) as [s|s| |s m e] eqn:Hm; try (by rewrite add_zero_l).
      by destruct s.
    + intros last' [= <-] Hd. apply to_seconds_below in Hd. lia.
  - split; [reflexivity|]. by intros.
Qed.

End StabilityCap.

Section SteadyLink.

Import LoadAware.

Variable MAX_RTT_HISTORY : nat.

Lemma sum_of_equal (j : nat) (z : Z) :
  forall i : Z,
  0 <= z -> 0 <= i -> (i + Z.of_nat j) * z < 2 ^ 53 ->
  fold_left (fun sum rtt => add sum rtt) (replicate j (of_Z z)) (of_Z (i * z))
  = of_Z ((i + Z.of_nat j) * z).
Proof.
  induction j as [|j IH]; intros i Hz Hi Hb.
  - cbn [replicate fold_left]. f_equal. lia.
  - cbn [replicate fold_left].
    rewrite add_of_Z by nia. replace (i * z + z) with ((i + 1) * z) by ring.
    rewrite IH by lia. f_equal. lia.
Qed.

Lemma sub_of_Z_self (z : Z) : 0 <= z < 2 ^ 53 -> sub (of_Z z) (of_Z z) = zero.
Proof.
  intros Hz. destruct (Z.eq_dec z 0) as [->|Hz0]; [reflexivity|].
  destruct (of_Z_canon z ltac:(lia)) as (K & c & -> & _). apply sub_self.
Qed.

Lemma variance_of_equal (j : nat) (x : double) :
  sub x x = zero -> variance_of x (replicate j x) = zero.
Proof.
  intros Hx. unfold variance_of. induction j as [|j IH]; [reflexivity|].
  cbn [replicate fold_left]. rewrite Hx. exact IH.
Qed.

(** Equal samples of a whole number of milliseconds: the sum, the mean
    and the variance are exact, the variation rate is 0. *)
Lemma load_of_equal_samples (k : nat) (z : Z) :
  (1 <= k)%nat -> 0 <= z -> Z.of_nat k * z < 2 ^ 53 ->
  load_of_history (replicate k (of_Z z)) = d0_0.
Proof.
  intros Hk Hz Hb. unfold load_of_history. rewrite length_replicate. cbv zeta.
  assert (Hsum : sum_of (replicate k (of_Z z)) = of_Z (Z.of_nat k * z)).
  { unfold sum_of. change d0_0 with (of_Z (0 * z)). by rewrite sum_of_equal by lia. }
  rewrite Hsum, div_of_Z by lia.
  rewrite variance_of_equal by (apply sub_of_Z_self; nia).
  rewrite div_zero_positive by (apply of_Z_positive; lia).
  change (sqrt zero) with zero.
  destruct (Z.eq_dec z 0) as [->|Hz0]; [reflexivity|].
  pose proof (of_Z_positive z ltac:(lia)) as Hpos.
  rewrite (proj2 (ltb_zero_positive _) Hpos), div_zero_positive by assumption.
  reflexivity.
Qed.

(** X10. A steady link has no load penalty: when the current RTT is not
    negative and every sample in the neighbor's history equals its whole
    milliseconds, the load factor is 0.0, whatever the length of the
    history and the bound.  (The sum, the mean and the variance of equal whole numbers are
    exact in binary64 as long as the sum stays below [2^53].) *)
Theorem X10_steady_link_has_no_load_penalty (metrics : LinkMetrics)
    (h : gmap Name (list double)) (rtt : Time.nanoseconds) (j : nat) :
  currentRtt metrics = Some rtt ->
  0 <= Time.to_milliseconds rtt ->
  history_of (neighbor metrics) h
  = replicate j (of_Z (Time.to_milliseconds rtt)) ->
  Z.of_nat (S j) * Time.to_milliseconds rtt < 2 ^ 53 ->
  fst (getLoadFactor MAX_RTT_HISTORY metrics h) = d0_0.
Proof.
  intros Hrtt Hms Hh Hb. unfold getLoadFactor. rewrite Hrtt, lookup_update_eq, Hh.
  rewrite <- replicate_S_end, pop_excess_drop, length_replicate, drop_replicate.
  set (k := (S j - (S j - MAX_RTT_HISTORY))%nat).
  rewrite length_replicate.
  destruct (Nat.ltb_spec k 3) as [_|Hk]; [reflexivity|]. cbn [fst].
  apply load_of_equal_samples; [lia|assumption|].
  assert (Z.of_nat k <= Z.of_nat (S j)) by lia. nia.
Qed.

End SteadyLink.

Section PerfectLink.

Import LoadAware.

Variable MAX_RTT_HISTORY : nat.

(** Multiplying by 1.0 is exact. *)
Lemma mul_one_r (x : double) :
  valid x = true -> is_positive x = true -> mul x d1_0 = x.
Proof.
  intros Hv Hp. destruct x as [s|s| |s m e]; try destruct s; try discriminate;
    [reflexivity|].
  apply valid_finite in Hv as [Hcan Hb]. unfold mul, SFmul, d1_0. cbn [xorb].
  apply binary_round_aux_exact; [assumption|unfold emax, prec in Hb; lia|lia|].
  rewrite Pos2Z.inj_mul. replace (e - (e + -52)) with 52 by lia. reflexivity.
Qed.

Lemma add_one_three_zeros (z1 z2 z3 : double) :
  is_zero z1 = true -> is_zero z2 = true -> is_zero z3 = true ->
  add d1_0 (add (add z1 z2) z3) = d1_0.
Proof.
  destruct z1 as [[]| | |], z2 as [[]| | |], z3 as [[]| | |]; try discriminate; reflexivity.
Qed.

(** X11. A perfect link keeps its cost: with costs above zero and finite
    weights, when the RTT is at most 10 whole milliseconds, every sample in
    the history equals it, there is no timeout and the last success is less
    than 61 seconds ago, the three factors are 0.0 and the call returns the
    RTT-based cost itself, clamped to
    [[originalCost * 0.5, originalCost * 3.0]]: the product by 1.0 is
    exact. *)
Theorem X11_perfect_link_keeps_cost (now : Time.time_point) (n : Name)
    (rttBasedCost : double) (metrics : LinkMetrics) (c : Calculator)
    (rtt : Time.nanoseconds) (j : nat) :
  ltb zero rttBasedCost = true -> valid rttBasedCost = true ->
  ltb zero (originalCost metrics) = true ->
  is_finite (m_rttWeight c) = true ->
  is_finite (m_loadWeight c) = true ->
  is_finite (m_stabilityWeight c) = true ->
  currentRtt metrics = Some rtt ->
  0 <= Time.to_milliseconds rtt <= 10 ->
  history_of (neighbor metrics) (m_rttHistory c)
  = replicate j (of_Z (Time.to_milliseconds rtt)) ->
  Z.of_nat (S j) * Time.to_milliseconds rtt < 2 ^ 53 ->
  timeoutCount metrics = None \/ timeoutCount metrics = Some 0%N ->
  (forall last, lastSuccessTime metrics = Some last -> now - last < 61000000000) ->
  fst (calculateLoadAwareCost MAX_RTT_HISTORY now n rttBasedCost metrics c)
  = max (min rttBasedCost (mul (originalCost metrics) d3_0))
        (mul (originalCost metrics) d0_5).
Proof.
  intros Hr Hrv Ho HwR HwL HwS Hrtt Hms Hh Hb Htc Hlast. unfold calculateLoadAwareCost.
  rewrite (positive_not_leb_zero _ Hr), (positive_not_leb_zero _ Ho). cbn [orb].
  assert (HfR : getRttFactor metrics = d0_0).
  { unfold getRttFactor. rewrite Hrtt. cbv zeta.
    destruct (threshold_comparisons (Time.to_milliseconds rtt)) as (-> & _).
    destruct (Z.leb_spec (Time.to_milliseconds rtt) 10); [reflexivity|lia]. }
  assert (HfL : fst (getLoadFactor MAX_RTT_HISTORY metrics (m_rttHistory c)) = d0_0).
  { unfold getLoadFactor. rewrite Hrtt, lookup_update_eq, Hh.
    rewrite <- replicate_S_end, pop_excess_drop, length_replicate, drop_replicate.
    set (k := (S j - (S j - MAX_RTT_HISTORY))%nat).
    rewrite length_replicate.
    destruct (Nat.ltb_spec k 3) as [_|Hk]; [reflexivity|]. cbn [fst].
    apply load_of_equal_samples; [lia|lia|].
    assert (Z.of_nat k <= Z.of_nat (S j)) by lia. nia. }
  assert (HfS : getStabilityFactor now metrics = d0_0).
  { unfold getStabilityFactor.
    assert (Hto : match timeoutCount metrics with
                  | Some count => add d0_0 (mul (of_Z (Z.of_N count)) d0_2)
                  | None => d0_0
                  end = d0_0) by (destruct Htc as [-> | ->]; reflexivity).
    rewrite Hto. destruct (lastSuccessTime metrics) as [last|]; [|reflexivity].
    specialize (Hlast last eq_refl). apply to_seconds_below in Hlast.
    destruct (Z.ltb_spec 60 (Time.to_seconds (now - last))); [lia|reflexivity]. }
  destruct (getLoadFactor MAX_RTT_HISTORY metrics (m_rttHistory c)) as [loadFactor h1].
  cbn [fst] in HfL |- *. rewrite HfR, HfL, HfS.
  rewrite add_one_three_zeros by (by apply mul_zero_r).
  rewrite mul_one_r; [reflexivity|assumption|by apply ltb_zero_positive].
Qed.

End PerfectLink.

(** ** binary64 arithmetic: rounding is monotone *)

Section NearestEven.

Import Nearest.

(** One shift: the mantissa is halved, the bit that leaves becomes the
    round bit, the old round bit joins the sticky bit. *)
Lemma shr_1_bits (m : Z) (r s : bool) :
  0 <= m ->
  shr_1 {| shr_m := m; shr_r := r; shr_s := s |}
  = {| shr_m := m / 2; shr_r := Z.odd m; shr_s := r || s |}.
Proof.
  intros Hm. destruct m as [|p|p]; [reflexivity| |lia].
  destruct p as [p|p|]; cbn [shr_1 Z.odd].
  - f_equal. rewrite Pos2Z.inj_xI. apply Z.div_unique with (r := 1); lia.
  - f_equal. rewrite Pos2Z.inj_xO. apply Z.div_unique with (r := 0); lia.
  - reflexivity.
Qed.

(** After [k + 1] shifts of an exact mantissa. *)
Lemma shr_iter_bits (k : nat) (M : Z) :
  0 <= M ->
  Nat.iter (S k) shr_1 {| shr_m := M; shr_r := false; shr_s := false |}
  = {| shr_m := M / 2 ^ Z.of_nat (S k);
       shr_r := Z.odd (M / 2 ^ Z.of_nat k);
       shr_s := negb (M mod 2 ^ Z.of_nat k =? 0) |}.
Proof.
  intros HM. induction k as [|k IH].
  - cbn [Nat.iter]. rewrite shr_1_bits by assumption.
    change (2 ^ Z.of_nat 1) with 2. change (2 ^ Z.of_nat 0) with 1.
    rewrite Z.div_1_r, Z.mod_1_r. reflexivity.
  - rewrite Nat.iter_succ, IH.
    assert (Hp : 0 < 2 ^ Z.of_nat k) by (apply Z.pow_pos_nonneg; lia).
    assert (Hp1 : 0 < 2 ^ Z.of_nat (S k)) by (apply Z.pow_pos_nonneg; lia).
    assert (Hq : 0 <= M / 2 ^ Z.of_nat (S k)) by (apply Z.div_pos; lia).
    rewrite shr_1_bits by assumption. f_equal.
    + rewrite Z.div_div by lia.
      f_equal. rewrite (Nat2Z.inj_succ (S k)), Z.pow_succ_r by lia. apply Z.mul_comm.
    + rewrite (Nat2Z.inj_succ k), Z.pow_succ_r by lia.
      rewrite (Z.mul_comm 2), Z.rem_mul_r by lia.
      rewrite Zmod_odd. destruct (Z.odd (M / 2 ^ Z.of_nat k)) eqn:Hodd; cbv iota.
      * destruct (Z.eqb_spec (M mod 2 ^ Z.of_nat k) 0) as [H0|H0]; cbn [negb orb].
        -- symmetry. apply negb_true_iff, Z.eqb_neq. lia.
        -- symmetry. apply negb_true_iff, Z.eqb_neq.
           pose proof (Z.mod_pos_bound M (2 ^ Z.of_nat k) Hp). lia.
      * cbn [orb]. f_equal. rewrite Z.mul_0_r, Z.add_0_r. reflexivity.
Qed.

Lemma shr_iter_location (n : nat) (M : Z) :
  0 <= M ->
  let mrs := Nat.iter n shr_1 {| shr_m := M; shr_r := false; shr_s := false |} in
  shr_m mrs = M / 2 ^ Z.of_nat n
  /\ loc_of_shr_record mrs = remainder_location (M mod 2 ^ Z.of_nat n) (Z.of_nat n).
Proof.
  intros HM. cbv zeta. destruct n as [|k].
  - cbn [Nat.iter shr_m loc_of_shr_record]. change (2 ^ Z.of_nat 0) with 1.
    rewrite Z.div_1_r, Z.mod_1_r. by split.
  - rewrite shr_iter_bits by assumption. cbn [shr_m loc_of_shr_record].
    split; [reflexivity|].
    assert (Hp : 0 < 2 ^ Z.of_nat k) by (apply Z.pow_pos_nonneg; lia).
    pose proof (Z.mod_pos_bound M (2 ^ Z.of_nat k) Hp) as Hlow.
    unfold remainder_location.
    rewrite (Nat2Z.inj_succ k), Z.pow_succ_r by lia.
    rewrite (Z.mul_comm 2 (2 ^ Z.of_nat k)), Z.rem_mul_r by lia.
    rewrite Zmod_odd.
    destruct (Z.odd (M / 2 ^ Z.of_nat k)); cbv iota;
      destruct (Z.eqb_spec (M mod 2 ^ Z.of_nat k) 0) as [H0|H0]; cbn [negb].
    + destruct (Z.eqb_spec (M mod 2 ^ Z.of_nat k + 2 ^ Z.of_nat k * 1) 0); [lia|].
      f_equal. symmetry. apply Z.compare_eq_iff. lia.
    + destruct (Z.eqb_spec (M mod 2 ^ Z.of_nat k + 2 ^ Z.of_nat k * 1) 0); [lia|].
      f_equal. symmetry. apply Z.compare_gt_iff. lia.
    + destruct (Z.eqb_spec (M mod 2 ^ Z.of_nat k + 2 ^ Z.of_nat k * 0) 0); [reflexivity|lia].
    + destruct (Z.eqb_spec (M mod 2 ^ Z.of_nat k + 2 ^ Z.of_nat k * 0) 0); [lia|].
      f_equal. symmetry. apply Z.compare_lt_iff. lia.
Qed.

Lemma nearest_bounds (M n : Z) : M / 2 ^ n <= nearest M n <= M / 2 ^ n + 1.
Proof.
  unfold nearest, remainder_location. destruct (_ =? 0); cbn; [lia|].
  destruct (_ ?= _); cbn; try destruct (Z.even _); lia.
Qed.

(** Rounding to nearest is monotone, also between different shifts. *)
Lemma nearest_mono (M1 n1 M2 n2 : Z) :
  0 <= M1 -> 0 <= M2 -> 0 <= n1 -> 0 <= n2 ->
  M1 * 2 ^ n2 <= M2 * 2 ^ n1 ->
  nearest M1 n1 <= nearest M2 n2.
Proof.
  intros HM1 HM2 Hn1 Hn2 Hle.
  assert (HP1 : 0 < 2 ^ n1) by (apply Z.pow_pos_nonneg; lia).
  assert (HP2 : 0 < 2 ^ n2) by (apply Z.pow_pos_nonneg; lia).
  pose proof (Z.div_mod M1 (2 ^ n1) ltac:(lia)) as Hd1.
  pose proof (Z.div_mod M2 (2 ^ n2) ltac:(lia)) as Hd2.
  pose proof (Z.mod_pos_bound M1 (2 ^ n1) HP1) as Hr1.
  pose proof (Z.mod_pos_bound M2 (2 ^ n2) HP2) as Hr2.
  pose proof (nearest_bounds M1 n1) as Hb1. pose proof (nearest_bounds M2 n2) as Hb2.
  unfold nearest, remainder_location in *.
  set (P1 := 2 ^ n1) in *. set (P2 := 2 ^ n2) in *.
  set (q1 := M1 / P1) in *. set (q2 := M2 / P2) in *.
  set (R1 := M1 mod P1) in *. set (R2 := M2 mod P2) in *.
  rewrite Hd1, Hd2 in Hle. fold P1 P2 q1 q2 R1 R2 in Hle.
  assert (HR2 : R2 * P1 < P2 * P1) by (apply Z.mul_lt_mono_pos_r; lia).
  assert (HR1 : 0 <= R1 * P2) by (apply Z.mul_nonneg_nonneg; lia).
  assert (Hq : q1 <= q2).
  { destruct (Z.le_gt_cases q1 q2) as [|Hgt]; [assumption|exfalso].
    assert (P1 * P2 * (q2 + 1) <= P1 * P2 * q1)
      by (apply Z.mul_le_mono_nonneg_l; [apply Z.mul_nonneg_nonneg|]; lia).
    replace ((P1 * q1 + R1) * P2) with (P1 * P2 * q1 + R1 * P2) in Hle by ring.
    replace ((P2 * q2 + R2) * P1) with (P1 * P2 * q2 + R2 * P1) in Hle by ring.
    replace (P1 * P2 * (q2 + 1)) with (P1 * P2 * q2 + P2 * P1) in H by ring.
    lia. }
  destruct (Z.eq_dec q1 q2) as [Heq|Hne]; [|lia].
  assert (HR : R1 * P2 <= R2 * P1).
  { rewrite Heq in Hle.
    replace ((P1 * q2 + R1) * P2) with (P1 * P2 * q2 + R1 * P2) in Hle by ring.
    replace ((P2 * q2 + R2) * P1) with (P1 * P2 * q2 + R2 * P1) in Hle by ring.
    lia. }
  clear Hle Hd1 Hd2 HR2 HR1.
  clear Hb1. rewrite <- Heq in *.
  destruct (Z.eqb_spec R1 0) as [H1|H1]; [cbn [round_nearest_even]; lia|].
  destruct (Z.eqb_spec R2 0) as [H2|H2]; [nia|].
  destruct (Z.compare_spec (2 * R1) P1) as [C1|C1|C1];
    destruct (Z.compare_spec (2 * R2) P2) as [C2|C2|C2];
    cbn [round_nearest_even] in *; try destruct (Z.even q1); try lia; nia.
Qed.

End NearestEven.

Section RoundingIsMonotone.

Import Nearest.

(** The rounding of an exact value, by its shift: the mantissa is rounded
    to nearest, ties to even, and renormalised when it overflows. *)
Lemma binary_round_aux_nearest (s : bool) (M E : Z) :
  0 <= M ->
  let n1 := Z.max 0 (fexp prec emax (Zdigits2 M + E) - E) in
  let m1 := nearest M n1 in
  let e1 := E + n1 in
  let n2 := Z.max 0 (fexp prec emax (Zdigits2 m1 + e1) - e1) in
  binary_round_aux prec emax s M E loc_Exact = rounded s (m1 / 2 ^ n2) (e1 + n2).
Proof.
  intros HM. cbv zeta. unfold binary_round_aux.
  assert (H1 : let n1 := Z.max 0 (fexp prec emax (Zdigits2 M + E) - E) in
               shr_m (fst (shr_fexp prec emax M E loc_Exact)) = M / 2 ^ n1
               /\ loc_of_shr_record (fst (shr_fexp prec emax M E loc_Exact))
                  = remainder_location (M mod 2 ^ n1) n1
               /\ snd (shr_fexp prec emax M E loc_Exact) = E + n1).
  { cbv zeta. unfold shr_fexp, shr. cbn [shr_record_of_loc].
    destruct (fexp prec emax (Zdigits2 M + E) - E) as [|p|p] eqn:Hn; cbn [fst snd].
    - change (Z.max 0 0) with 0. rewrite Z.pow_0_r, Z.div_1_r, Z.mod_1_r, Z.add_0_r.
      by repeat split.
    - rewrite Z.max_r by lia. rewrite iter_pos_nat.
      destruct (shr_iter_location (Pos.to_nat p) M HM) as [Hm Hl].
      rewrite positive_nat_Z in Hm, Hl. by repeat split.
    - rewrite Z.max_l by lia. rewrite Z.pow_0_r, Z.div_1_r, Z.mod_1_r, Z.add_0_r.
      by repeat split. }
  cbv zeta in H1. destruct H1 as (Hm & Hl & He).
  destruct (shr_fexp prec emax M E loc_Exact) as [mrs' e'] eqn:Hs1.
  cbn [fst snd] in Hm, Hl, He. rewrite Hm, Hl, He. fold (nearest M (Z.max 0 (fexp prec emax (Zdigits2 M + E) - E))).
  set (n1 := Z.max 0 (fexp prec emax (Zdigits2 M + E) - E)) in *.
  set (m1 := nearest M n1).
  assert (Hm1 : 0 <= m1).
  { pose proof (nearest_bounds M n1) as Hb. fold m1 in Hb.
    assert (0 <= M / 2 ^ n1) by (apply Z.div_pos; [lia|apply Z.pow_pos_nonneg; lia]).
    lia. }
  pose proof (shr_fexp_spec m1 (E + n1) loc_Exact Hm1) as (G1 & G2 & _).
  cbv zeta in G1, G2.
  destruct (shr_fexp prec emax m1 (E + n1) loc_Exact) as [mrs'' e''] eqn:Hs2.
  cbn [fst snd] in G1, G2. rewrite G1, G2. reflexivity.
Qed.

Lemma leb_zero_nonneg (y : double) : nonneg y = true -> leb zero y = true.
Proof. by destruct y as [[]|[]| |[] m e]. Qed.

Lemma leb_nonneg_infinity (x : double) : nonneg x = true -> leb x (S754_infinity false) = true.
Proof. by destruct x as [[]|[]| |[] m e]. Qed.

Lemma pow2_digits (x : Z) : 0 <= x -> Zdigits2 x <= 53 -> x < 2 ^ 53.
Proof.
  intros Hx Hd. destruct (Z.eq_dec x 0) as [->|Hne]; [reflexivity|].
  pose proof (Zdigits2_bounds x ltac:(lia)) as [_ Hhi].
  apply Z.lt_le_trans with (2 ^ Zdigits2 x); [assumption|].
  apply Z.pow_le_mono_r; lia.
Qed.

Lemma Zdigits2_nonneg (x : Z) : 0 <= Zdigits2 x.
Proof. destruct x; cbn; lia. Qed.

(** The renormalisation after the rounding of the mantissa is monotone. *)
Lemma rounded_mono (m m' t : Z) :
  0 <= m <= m' -> m' <= 2 ^ 53 -> -1074 <= t ->
  let n2 := Z.max 0 (fexp prec emax (Zdigits2 m + t) - t) in
  let n2' := Z.max 0 (fexp prec emax (Zdigits2 m' + t) - t) in
  leb (rounded false (m / 2 ^ n2) (t + n2)) (rounded false (m' / 2 ^ n2') (t + n2')) = true.
Proof.
  intros Hm Hm' Ht. cbv zeta. rewrite !fexp_eq.
  assert (Hn : forall x, 0 <= x < 2 ^ 53 ->
                 Z.max 0 (Z.max (Zdigits2 x + t - 53) (-1074) - t) = 0).
  { intros x Hx. pose proof (digits_le_53 x ltac:(lia) ltac:(lia)). lia. }
  assert (Hn53 : Z.max 0 (Z.max (Zdigits2 (2 ^ 53) + t - 53) (-1074) - t) = 1).
  { change (Zdigits2 (2 ^ 53)) with 54. lia. }
  destruct (Z.eq_dec m' (2 ^ 53)) as [Hm53|Hm53].
  - subst m'. rewrite Hn53. change (2 ^ 53 / 2 ^ 1) with (Z.pos 4503599627370496).
    destruct (Z.eq_dec m (2 ^ 53)) as [->|Hlt].
    + rewrite Hn53. change (2 ^ 53 / 2 ^ 1) with (Z.pos 4503599627370496).
      unfold rounded. destruct (_ <=? _); [apply leb_refl|]; reflexivity.
    + rewrite (Hn m) by lia. rewrite Z.pow_0_r, Z.div_1_r, Z.add_0_r.
      destruct m as [|p|p]; [| |lia].
      * apply leb_zero_nonneg, rounded_nonneg. lia.
      * unfold rounded.
        destruct (Z.leb_spec (t + 1) (emax - prec)) as [H1|H1].
        -- destruct (Z.leb_spec t (emax - prec)) as [_|H2]; [|lia].
           apply leb_finite. left. lia.
        -- by destruct (t <=? emax - prec).
  - rewrite (Hn m), (Hn m') by lia. rewrite Z.pow_0_r, !Z.div_1_r, Z.add_0_r.
    destruct m as [|p|p]; [| |lia].
    + apply leb_zero_nonneg, rounded_nonneg. lia.
    + destruct m' as [|p'|p']; try lia. unfold rounded.
      destruct (t <=? emax - prec); [|reflexivity].
      apply leb_finite. right. split; [reflexivity|lia].
Qed.

(** Rounding is monotone: of two exact values, aligned for the rounding,
    the smaller one is not rounded to the larger number. *)
Lemma binary_round_aux_mono (M1 E1 M2 E2 : Z) :
  0 < M1 -> 0 < M2 ->
  E1 <= fexp prec emax (Zdigits2 M1 + E1) ->
  E2 <= fexp prec emax (Zdigits2 M2 + E2) ->
  M1 * 2 ^ (E1 - Z.min E1 E2) <= M2 * 2 ^ (E2 - Z.min E1 E2) ->
  leb (binary_round_aux prec emax false M1 E1 loc_Exact)
      (binary_round_aux prec emax false M2 E2 loc_Exact) = true.
Proof.
  intros HM1 HM2 Ha1 Ha2 Hle. rewrite fexp_eq in Ha1, Ha2.
  set (L := Z.min E1 E2) in *.
  assert (Hg : Zdigits2 M1 + E1 <= Zdigits2 M2 + E2).
  { assert (Hd : Zdigits2 (M1 * 2 ^ (E1 - L)) <= Zdigits2 (M2 * 2 ^ (E2 - L))).
    { apply Zdigits2_mono. split; [|assumption].
      apply Z.mul_pos_pos; [lia|apply Z.pow_pos_nonneg; lia]. }
    rewrite !Zdigits2_mul_pow2 in Hd by lia. lia. }
  pose proof (Zdigits2_bounds M1 HM1) as [Hlo1 Hhi1].
  pose proof (Zdigits2_bounds M2 HM2) as [Hlo2 Hhi2].
  set (g1 := Zdigits2 M1 + E1) in *. set (g2 := Zdigits2 M2 + E2) in *.
  set (t1 := Z.max (g1 - 53) (-1074)) in *. set (t2 := Z.max (g2 - 53) (-1074)) in *.
  destruct (Z.eq_dec t1 t2) as [Heq|Hne].
  - (* the same last place *)
    rewrite (binary_round_aux_nearest false M1 E1), (binary_round_aux_nearest false M2 E2)
      by lia.
    cbv zeta. rewrite !fexp_eq. fold g1 g2 t1 t2. rewrite <- Heq.
    rewrite (Z.max_r 0 (t1 - E1)), (Z.max_r 0 (t1 - E2)) by lia.
    replace (E1 + (t1 - E1)) with t1 by lia. replace (E2 + (t1 - E2)) with t1 by lia.
    assert (Hmono : nearest M1 (t1 - E1) <= nearest M2 (t1 - E2)).
    { apply nearest_mono; try lia.
      assert (Hp : 0 < 2 ^ (t1 - Z.max E1 E2)) by (apply Z.pow_pos_nonneg; lia).
      replace (t1 - E2) with ((E1 - L) + (t1 - Z.max E1 E2)) by lia.
      replace (t1 - E1) with ((E2 - L) + (t1 - Z.max E1 E2)) by lia.
      rewrite !Z.pow_add_r, !Z.mul_assoc by lia.
      apply Z.mul_le_mono_nonneg_r; lia. }
    pose proof (nearest_bounds M1 (t1 - E1)) as Hb1.
    pose proof (nearest_bounds M2 (t1 - E2)) as Hb2.
    assert (Hq1 : 0 <= M1 / 2 ^ (t1 - E1))
      by (apply Z.div_pos; [lia|apply Z.pow_pos_nonneg; lia]).
    assert (Hq2 : M2 / 2 ^ (t1 - E2) < 2 ^ 53).
    { apply pow2_digits; [apply Z.div_pos; [lia|apply Z.pow_pos_nonneg; lia]|].
      apply div_pow2_digits; lia. }
    apply rounded_mono; lia.
  - (* a power of two lies between *)
    assert (Ht2 : t2 = g2 - 53) by lia.
    assert (Hg12 : g1 <= g2 - 1) by lia.
    assert (Hcan : canonical_mantissa prec emax 4503599627370496 t2 = true).
    { unfold canonical_mantissa. apply Z.eqb_eq. rewrite fexp_eq.
      change (Z.pos (digits2_pos 4503599627370496)) with 53. lia. }
    assert (Hup : 2 ^ 52 * 2 ^ (t2 - E2) <= M2).
    { rewrite <- Z.pow_add_r by lia.
      apply Z.le_trans with (2 ^ (Zdigits2 M2 - 1)); [|assumption].
      apply Z.pow_le_mono_r; lia. }
    assert (Hright : leb (S754_finite false 4503599627370496 t2)
                         (binary_round_aux prec emax false M2 E2 loc_Exact) = true).
    { replace E2 with (t2 - (t2 - E2)) at 1 by lia.
      apply round_ge; [assumption|lia|]. exact Hup. }
    destruct (Z.le_gt_cases t2 971) as [Hfin|Hover].
    + apply (leb_trans_finite _ _ 4503599627370496 t2); [|assumption].
      replace E1 with (t2 - (t2 - E1)) at 1 by lia.
      apply round_le; [assumption|unfold emax, prec; lia|lia|].
      split; [assumption|]. change (Z.pos 4503599627370496) with (2 ^ 52).
      rewrite <- Z.pow_add_r by lia.
      apply Z.le_trans with (2 ^ Zdigits2 M1); [lia|].
      apply Z.pow_le_mono_r; [lia|]. unfold g1 in Hg12. lia.
    + assert (Hinf : binary_round_aux prec emax false M2 E2 loc_Exact = S754_infinity false).
      { pose proof (binary_round_aux_valid false M2 E2 loc_Exact HM2
                      ltac:(rewrite fexp_eq; fold g2 t2; lia)) as Hv.
        destruct (binary_round_aux prec emax false M2 E2 loc_Exact) as [[]|[]| |[] m e];
          try discriminate Hright; [reflexivity|exfalso].
        apply valid_finite in Hv as [_ Hb]. unfold emax, prec in Hb.
        unfold leb, SFleb, SFcompare in Hright.
        destruct (Z.compare_spec t2 e) as [He|He|He]; [lia|lia|discriminate]. }
      rewrite Hinf. apply leb_nonneg_infinity, binary_round_aux_nonneg. lia.
Qed.


End RoundingIsMonotone.

Section MonotoneOperations.

Lemma leb_finite_inv (m1 m2 : positive) (e1 e2 : Z) :
  leb (S754_finite false m1 e1) (S754_finite false m2 e2) = true ->
  e1 < e2 \/ (e1 = e2 /\ Z.pos m1 <= Z.pos m2).
Proof.
  unfold leb, SFleb, SFcompare.
  destruct (Z.compare_spec e1 e2) as [Heq|Hlt|Hgt]; [|by left|discriminate].
  rewrite Pos.compare_cont_spec. cbn [Pos.switch_Eq].
  destruct (Pos.compare_spec m1 m2); try discriminate; intros _; right; split; lia.
Qed.

(** The order of two binary64 numbers is the order of their values. *)
Lemma leb_value (m1 m2 : positive) (e1 e2 : Z) :
  canonical_mantissa prec emax m1 e1 = true ->
  canonical_mantissa prec emax m2 e2 = true ->
  leb (S754_finite false m1 e1) (S754_finite false m2 e2) = true ->
  Z.pos m1 * 2 ^ (e1 - Z.min e1 e2) <= Z.pos m2 * 2 ^ (e2 - Z.min e1 e2).
Proof.
  intros H1 H2 Hle. apply canonical_exponent in H1, H2.
  apply leb_finite_inv in Hle as [Hlt|[-> Hm]].
  - rewrite Z.min_l by lia. rewrite Z.sub_diag, Z.pow_0_r, Z.mul_1_r.
    pose proof (Zdigits2_bounds (Z.pos m1) ltac:(lia)) as [_ Hhi].
    pose proof (Zdigits2_bounds (Z.pos m2) ltac:(lia)) as [Hlo _].
    assert (Hd1 : Zdigits2 (Z.pos m1) <= 53) by lia.
    assert (Hd2 : Zdigits2 (Z.pos m2) = 53) by lia.
    rewrite Hd2 in Hlo.
    assert (Z.pos m1 < 2 ^ 53).
    { apply Z.lt_le_trans with (2 ^ Zdigits2 (Z.pos m1)); [assumption|].
      apply Z.pow_le_mono_r; lia. }
    assert (2 ^ 1 <= 2 ^ (e2 - e1)) by (apply Z.pow_le_mono_r; lia).
    change (2 ^ 1) with 2 in *. change (2 ^ (53 - 1)) with (2 ^ 52) in Hlo.
    change (2 ^ 53) with (2 ^ 52 * 2) in *. nia.
  - rewrite Z.min_id, Z.sub_diag, Z.pow_0_r. lia.
Qed.

(** Multiplication by a number above zero is monotone. *)
Lemma mul_mono_l (x1 x2 y : double) :
  valid x1 = true -> valid x2 = true -> valid y = true ->
  is_positive x1 = true -> is_positive y = true ->
  leb x1 x2 = true -> leb (mul x1 y) (mul x2 y) = true.
Proof.
  intros Hv1 Hv2 Hvy Hp1 Hpy Hle.
  pose proof (leb_positive _ _ Hp1 Hle) as Hp2.
  destruct y as [sy|sy| |sy my ey]; try destruct sy; try discriminate.
  { destruct x1 as [s1|s1| |s1 m1 e1], x2 as [s2|s2| |s2 m2 e2];
      try destruct s1; try destruct s2; try discriminate; reflexivity. }
  destruct x2 as [s2|s2| |s2 m2 e2]; try destruct s2; try discriminate.
  { change (mul (S754_infinity false) (S754_finite false my ey)) with (S754_infinity false).
    apply leb_nonneg_infinity. by apply mul_positive. }
  destruct x1 as [s1|s1| |s1 m1 e1]; try destruct s1; try discriminate.
  apply valid_finite in Hv1 as [Hc1 _], Hv2 as [Hc2 _], Hvy as [Hcy _].
  unfold mul, SFmul. cbn [xorb].
  apply binary_round_aux_mono; try lia; try (by apply mul_aligned).
  pose proof (leb_value _ _ _ _ Hc1 Hc2 Hle) as Hval.
  replace (e1 + ey - Z.min (e1 + ey) (e2 + ey)) with (e1 - Z.min e1 e2) by lia.
  replace (e2 + ey - Z.min (e1 + ey) (e2 + ey)) with (e2 - Z.min e1 e2) by lia.
  rewrite !Pos2Z.inj_mul.
  replace (Z.pos m1 * Z.pos my * 2 ^ (e1 - Z.min e1 e2))
    with (Z.pos m1 * 2 ^ (e1 - Z.min e1 e2) * Z.pos my) by ring.
  replace (Z.pos m2 * Z.pos my * 2 ^ (e2 - Z.min e1 e2))
    with (Z.pos m2 * 2 ^ (e2 - Z.min e1 e2) * Z.pos my) by ring.
  apply Z.mul_le_mono_nonneg_r; lia.
Qed.

Lemma max_mono_l (a b lo : double) :
  nonneg b = true -> is_nan a = false -> is_nan lo = false ->
  leb a b = true -> leb (max a lo) (max b lo) = true.
Proof.
  intros Hb Ha Hlo Hab. pose proof (nonneg_not_nan _ Hb) as Hbn. unfold max.
  destruct (ltb a lo) eqn:Hal, (ltb b lo) eqn:Hbl.
  - by apply leb_refl.
  - by apply ltb_false_leb.
  - apply ltb_leb_weak in Hbl. by apply (leb_trans_nonneg a b lo).
  - assumption.
Qed.

End MonotoneOperations.

Section MonotoneSums.

(** The same, the two values measured in any smaller unit. *)
Lemma binary_round_aux_mono_unit (M1 E1 M2 E2 L : Z) :
  0 < M1 -> 0 < M2 ->
  E1 <= fexp prec emax (Zdigits2 M1 + E1) ->
  E2 <= fexp prec emax (Zdigits2 M2 + E2) ->
  L <= E1 -> L <= E2 ->
  M1 * 2 ^ (E1 - L) <= M2 * 2 ^ (E2 - L) ->
  leb (binary_round_aux prec emax false M1 E1 loc_Exact)
      (binary_round_aux prec emax false M2 E2 loc_Exact) = true.
Proof.
  intros HM1 HM2 Ha1 Ha2 HL1 HL2 Hle. apply binary_round_aux_mono; try assumption.
  set (L' := Z.min E1 E2).
  assert (Hp : 0 < 2 ^ (L' - L)) by (apply Z.pow_pos_nonneg; lia).
  replace (E1 - L) with ((E1 - L') + (L' - L)) in Hle by lia.
  replace (E2 - L) with ((E2 - L') + (L' - L)) in Hle by lia.
  rewrite !Z.pow_add_r, !Z.mul_assoc in Hle by lia.
  apply Z.mul_le_mono_pos_r in Hle; assumption.
Qed.

(** Rounding after alignment is monotone. *)
Lemma binary_round_mono (m1 m2 : positive) (e1 e2 L : Z) :
  L <= e1 -> L <= e2 ->
  Z.pos m1 * 2 ^ (e1 - L) <= Z.pos m2 * 2 ^ (e2 - L) ->
  leb (binary_round prec emax false m1 e1) (binary_round prec emax false m2 e2) = true.
Proof.
  intros HL1 HL2 Hle.
  destruct (binary_round_aligned m1 e1) as (mz1 & ez1 & -> & Hez1 & Hv1 & Hal1).
  destruct (binary_round_aligned m2 e2) as (mz2 & ez2 & -> & Hez2 & Hv2 & Hal2).
  set (L' := Z.min L (Z.min ez1 ez2)).
  apply (binary_round_aux_mono_unit _ _ _ _ L'); try assumption; try lia.
  rewrite Hv1, Hv2, <- !Z.mul_assoc, <- !Z.pow_add_r by lia.
  replace (e1 - ez1 + (ez1 - L')) with ((e1 - L) + (L - L')) by lia.
  replace (e2 - ez2 + (ez2 - L')) with ((e2 - L) + (L - L')) by lia.
  rewrite !Z.pow_add_r, !Z.mul_assoc by lia.
  apply Z.mul_le_mono_nonneg_r; [apply Z.pow_nonneg; lia|assumption].
Qed.

(** The conversion of an integer is monotone. *)
Lemma of_Z_mono (z1 z2 : Z) : 0 <= z1 <= z2 -> leb (of_Z z1) (of_Z z2) = true.
Proof.
  intros [H0 Hle]. destruct z1 as [|p1|p1]; [| |lia].
  - apply leb_zero_nonneg, of_Z_nonneg. lia.
  - destruct z2 as [|p2|p2]; try lia. unfold of_Z, binary_normalize.
    apply (binary_round_mono _ _ _ _ 0); lia.
Qed.

Lemma of_Z_valid (z : Z) : 0 <= z -> valid (of_Z z) = true.
Proof.
  intros Hz. destruct z as [|p|p]; [reflexivity| |lia]. apply binary_round_valid.
Qed.

Lemma mul_valid (x y : double) :
  valid x = true -> valid y = true -> nonneg x = true -> finite_pos y = true ->
  valid (mul x y) = true.
Proof.
  destruct x as [sx|sx| |sx mx ex]; try destruct sx; try discriminate;
    destruct y as [sy|sy| |sy my ey]; try destruct sy; try discriminate;
    intros Hx Hy _ _; try reflexivity.
  apply valid_finite in Hx as [Hx _]. apply valid_finite in Hy as [Hy _].
  unfold mul, SFmul. cbn [xorb].
  apply binary_round_aux_valid; [lia|]. by apply mul_aligned.
Qed.

Lemma add_valid (x y : double) :
  valid x = true -> valid y = true -> nonneg x = true -> nonneg y = true ->
  valid (add x y) = true.
Proof.
  destruct x as [sx|sx| |sx mx ex]; try destruct sx; try discriminate;
    destruct y as [sy|sy| |sy my ey]; try destruct sy; try discriminate;
    intros Hx Hy _ _; try reflexivity; try assumption.
  unfold add, SFadd. cbn [cond_Zopp].
  match goal with |- context [Z.pos ?a + Z.pos ?b] =>
    change (Z.pos a + Z.pos b) with (Z.pos (a + b)) end.
  cbn [binary_normalize]. apply binary_round_valid.
Qed.

Lemma add_comm_nonneg (x y : double) :
  nonneg x = true -> nonneg y = true -> add x y = add y x.
Proof.
  destruct x as [sx|sx| |sx mx ex]; try destruct sx; try discriminate;
    destruct y as [sy|sy| |sy my ey]; try destruct sy; try discriminate;
    intros _ _; try reflexivity.
  unfold add, SFadd. cbn [cond_Zopp]. rewrite (Z.min_comm ey ex). f_equal. apply Z.add_comm.
Qed.

Lemma add_zero_nonneg (y : double) : nonneg y = true -> add zero y = y.
Proof. by destruct y as [[]|[]| |[] m e]. Qed.

(** Addition of numbers that are zero or above is monotone. *)
Lemma add_mono_r (x y1 y2 : double) :
  valid x = true -> valid y1 = true -> valid y2 = true ->
  nonneg x = true -> nonneg y1 = true -> nonneg y2 = true ->
  leb y1 y2 = true -> leb (add x y1) (add x y2) = true.
Proof.
  intros Hvx Hv1 Hv2 Hx H1 H2 Hle.
  destruct x as [sx|sx| |sx mx ex]; try destruct sx; try discriminate.
  { by rewrite !add_zero_nonneg. }
  { destruct y1 as [[]|[]| |[] m1 e1]; try discriminate;
      destruct y2 as [[]|[]| |[] m2 e2]; try discriminate; reflexivity. }
  destruct y2 as [s2|s2| |s2 m2 e2]; try destruct s2; try discriminate.
  { destruct y1 as [[]|[]| |[] m1 e1]; try discriminate. by apply leb_refl. }
  { change (add (S754_finite false mx ex) (S754_infinity false)) with (S754_infinity false).
    apply leb_nonneg_infinity. by apply add_nonneg. }
  destruct y1 as [s1|s1| |s1 m1 e1]; try destruct s1; try discriminate.
  { change (add (S754_finite false mx ex) (S754_zero false)) with (S754_finite false mx ex).
    apply valid_finite in Hvx as [Hcx _]. by apply add_ge_l. }
  apply valid_finite in Hv1 as [Hc1 _], Hv2 as [Hc2 _].
  pose proof (leb_value _ _ _ _ Hc1 Hc2 Hle) as Hval.
  unfold add, SFadd. cbn [cond_Zopp].
  destruct (shl_align_spec mx ex (Z.min ex e1)) as [Hsx1 Hvx1].
  destruct (shl_align_spec m1 e1 (Z.min ex e1)) as [Hs1 Hw1].
  destruct (shl_align_spec mx ex (Z.min ex e2)) as [Hsx2 Hvx2].
  destruct (shl_align_spec m2 e2 (Z.min ex e2)) as [Hs2 Hw2].
  set (a1 := fst (shl_align mx ex (Z.min ex e1))) in *.
  set (b1 := fst (shl_align m1 e1 (Z.min ex e1))) in *.
  set (a2 := fst (shl_align mx ex (Z.min ex e2))) in *.
  set (b2 := fst (shl_align m2 e2 (Z.min ex e2))) in *.
  change (Z.pos a1 + Z.pos b1) with (Z.pos (a1 + b1)).
  change (Z.pos a2 + Z.pos b2) with (Z.pos (a2 + b2)).
  cbn [binary_normalize].
  set (L := Z.min ex (Z.min e1 e2)).
  apply (binary_round_mono _ _ _ _ L); try lia.
  assert (Hscale : forall m u v w, w <= v -> v <= u ->
                     m * 2 ^ (u - v) * 2 ^ (v - w) = m * 2 ^ (u - w)).
  { intros m u v w Hwv Hvu. rewrite <- Z.mul_assoc, <- Z.pow_add_r by lia.
    do 2 f_equal. lia. }
  rewrite !Pos2Z.inj_add, Hvx1, Hw1, Hvx2, Hw2, Hsx1, Hs1, Hsx2, Hs2.
  rewrite !Z.mul_add_distr_r.
  replace (Z.min ex (Z.min ex e1)) with (Z.min ex e1) by lia.
  replace (Z.min ex (Z.min ex e2)) with (Z.min ex e2) by lia.
  replace (Z.min e1 (Z.min ex e1)) with (Z.min ex e1) by lia.
  replace (Z.min e2 (Z.min ex e2)) with (Z.min ex e2) by lia.
  rewrite !Hscale by lia.
  apply Z.add_le_mono_l.
  rewrite <- (Hscale (Z.pos m1) e1 (Z.min e1 e2) L), <- (Hscale (Z.pos m2) e2 (Z.min e1 e2) L)
    by lia.
  apply Z.mul_le_mono_nonneg_r; [apply Z.pow_nonneg; lia|assumption].
Qed.

Lemma add_mono_l (x1 x2 y : double) :
  valid x1 = true -> valid x2 = true -> valid y = true ->
  nonneg x1 = true -> nonneg x2 = true -> nonneg y = true ->
  leb x1 x2 = true -> leb (add x1 y) (add x2 y) = true.
Proof.
  intros Hv1 Hv2 Hvy H1 H2 Hy Hle.
  rewrite (add_comm_nonneg x1 y), (add_comm_nonneg x2 y) by assumption.
  by apply add_mono_r.
Qed.

(** Multiplication of a number that is zero or above by a finite number
    above zero is monotone. *)
Lemma mul_mono_nonneg_l (x1 x2 y : double) :
  valid x1 = true -> valid x2 = true -> valid y = true ->
  nonneg x1 = true -> nonneg x2 = true -> finite_pos y = true ->
  leb x1 x2 = true -> leb (mul x1 y) (mul x2 y) = true.
Proof.
  intros Hv1 Hv2 Hvy H1 H2 Hy Hle.
  destruct x1 as [s1|s1| |s1 m1 e1]; try destruct s1; try discriminate.
  - assert (Hz : mul (S754_zero false) y = zero)
      by (destruct y as [[]|[]| |[] m e]; try discriminate; reflexivity).
    rewrite Hz. apply leb_zero_nonneg. by apply mul_nonneg_r.
  - apply mul_mono_l; try assumption; try reflexivity.
    by destruct y as [[]|[]| |[] m e].
  - apply mul_mono_l; try assumption; try reflexivity.
    by destruct y as [[]|[]| |[] m e].
Qed.

Lemma mul_comm_nonneg (x y : double) :
  nonneg x = true -> nonneg y = true -> mul x y = mul y x.
Proof.
  destruct x as [sx|sx| |sx mx ex]; try destruct sx; try discriminate;
    destruct y as [sy|sy| |sy my ey]; try destruct sy; try discriminate;
    intros _ _; try reflexivity.
  unfold mul, SFmul. cbn [xorb]. by rewrite Pos.mul_comm, Z.add_comm.
Qed.

Lemma mul_mono_nonneg_r (w y1 y2 : double) :
  valid w = true -> valid y1 = true -> valid y2 = true ->
  finite_pos w = true -> nonneg y1 = true -> nonneg y2 = true ->
  leb y1 y2 = true -> leb (mul w y1) (mul w y2) = true.
Proof.
  intros Hvw Hv1 Hv2 Hw H1 H2 Hle.
  assert (Hwn : nonneg w = true) by (by destruct w as [[]|[]| |[] m e]).
  rewrite (mul_comm_nonneg w y1), (mul_comm_nonneg w y2) by assumption.
  by apply mul_mono_nonneg_l.
Qed.

End MonotoneSums.

(** ** The cost function is monotone *)

Section CostIsMonotone.

Import LoadAware.

Variable MAX_RTT_HISTORY : nat.

(** X12. The cost is monotone in the RTT-based cost: with the same
    metrics and the same calculator, whose weights are finite and above
    zero, of two RTT-based costs above zero the larger one never gets the
    smaller adjusted cost.  Every rounding on the way is monotone. *)
Theorem X12_cost_monotone_in_rtt_cost (now : Time.time_point) (n : Name)
    (r1 r2 : double) (metrics : LinkMetrics) (c : Calculator) :
  ltb zero r1 = true -> valid r1 = true -> valid r2 = true ->
  leb r1 r2 = true ->
  ltb zero (originalCost metrics) = true ->
  finite_pos (m_rttWeight c) = true ->
  finite_pos (m_loadWeight c) = true ->
  finite_pos (m_stabilityWeight c) = true ->
  leb (fst (calculateLoadAwareCost MAX_RTT_HISTORY now n r1 metrics c))
      (fst (calculateLoadAwareCost MAX_RTT_HISTORY now n r2 metrics c)) = true.
Proof.
  intros Hr1 Hv1 Hv2 Hle Ho HwR HwL HwS.
  apply ltb_zero_positive in Hr1, Ho.
  pose proof (leb_positive _ _ Hr1 Hle) as Hr2.
  unfold calculateLoadAwareCost.
  rewrite (positive_not_leb_zero r1), (positive_not_leb_zero r2),
    (positive_not_leb_zero (originalCost metrics)) by (by apply ltb_zero_positive).
  cbn [orb].
  pose proof (getLoadFactor_nonneg MAX_RTT_HISTORY metrics (m_rttHistory c)) as Hlf.
  destruct (getLoadFactor MAX_RTT_HISTORY metrics (m_rttHistory c)) as [loadFactor h1].
  cbn [fst] in Hlf |- *.
  set (A := add (add (mul (m_rttWeight c) (getRttFactor metrics))
                     (mul (m_loadWeight c) loadFactor))
                (mul (m_stabilityWeight c) (getStabilityFactor now metrics))).
  assert (HA : nonneg A = true).
  { apply add_nonneg; [apply add_nonneg|].
    - apply mul_nonneg; [assumption|apply getRttFactor_nonneg].
    - by apply mul_nonneg.
    - apply mul_nonneg; [assumption|apply getStabilityFactor_nonneg]. }
  assert (Hy : is_positive (add d1_0 A) = true) by by apply one_plus_positive.
  assert (Hyv : valid (add d1_0 A) = true) by by apply one_plus_valid.
  set (hi := mul (originalCost metrics) d3_0). set (lo := mul (originalCost metrics) d0_5).
  assert (Hhi : nonneg hi = true) by by apply mul_positive.
  assert (Hlo : nonneg lo = true) by by apply mul_positive.
  assert (Hm1 : nonneg (mul r1 (add d1_0 A)) = true) by by apply mul_positive.
  assert (Hm2 : nonneg (mul r2 (add d1_0 A)) = true) by by apply mul_positive.
  apply max_mono_l.
  - apply min_nonneg; assumption.
  - apply nonneg_not_nan, min_nonneg; assumption.
  - by apply nonneg_not_nan.
  - apply min_mono_l; try (by apply nonneg_not_nan); [assumption|].
    by apply mul_mono_l.
Qed.

End CostIsMonotone.

Section StabilityIsMonotone.

Import LoadAware Queries.

Variable MAX_RTT_HISTORY : nat.

(** The quotient of two normal numbers that does not underflow is a
    binary64 number. *)
Lemma div_valid_normal (m1 m2 : positive) (e1 e2 : Z) :
  Zdigits2 (Z.pos m1) = 53 -> Zdigits2 (Z.pos m2) = 53 -> -1021 <= e1 - e2 ->
  valid (div (S754_finite false m1 e1) (S754_finite false m2 e2)) = true.
Proof.
  intros Hd1 Hd2 He. unfold div, SFdiv, SFdiv_core_binary. cbn [xorb].
  rewrite Hd1, Hd2, fexp_eq.
  replace (Z.min (Z.max (53 + e1 - (53 + e2) - 53) (-1074)) (e1 - e2)) with (e1 - e2 - 53)
    by lia.
  replace (e1 - e2 - (e1 - e2 - 53)) with 53 by lia.
  rewrite Z.shiftl_mul_pow2 by lia.
  pose proof (Zdigits2_bounds (Z.pos m1) ltac:(lia)) as [Hlo1 _].
  pose proof (Zdigits2_bounds (Z.pos m2) ltac:(lia)) as [_ Hhi2].
  rewrite Hd1 in Hlo1. rewrite Hd2 in Hhi2. change (2 ^ (53 - 1)) with (2 ^ 52) in Hlo1.
  pose proof (Z.div_mod (Z.pos m1 * 2 ^ 53) (Z.pos m2) ltac:(lia)) as Hdm.
  pose proof (Z.mod_pos_bound (Z.pos m1 * 2 ^ 53) (Z.pos m2) ltac:(lia)) as Hmb.
  unfold Z.div, Z.modulo in Hdm, Hmb.
  destruct (Z.div_eucl (Z.pos m1 * 2 ^ 53) (Z.pos m2)) as [q r].
  assert (Hq : 2 ^ 52 <= q).
  { destruct (Z.le_gt_cases (2 ^ 52) q) as [|Hlt]; [assumption|exfalso].
    assert (Z.pos m2 * q + r < Z.pos m2 * 2 ^ 52) by nia.
    assert (2 ^ 52 * 2 ^ 53 <= Z.pos m1 * 2 ^ 53) by nia.
    assert (Z.pos m2 * 2 ^ 52 < 2 ^ 53 * 2 ^ 52) by nia.
    lia. }
  apply binary_round_aux_valid; [lia|].
  assert (Hdq : 53 <= Zdigits2 q).
  { change 53 with (Zdigits2 (2 ^ 52)). apply Zdigits2_mono. lia. }
  rewrite fexp_eq. lia.
Qed.

(** The conversion of a count of at least 1 is a normal number. *)
Lemma of_Z_normal (z : Z) (m : positive) (e : Z) :
  1 <= z -> of_Z z = S754_finite false m e ->
  Zdigits2 (Z.pos m) = 53 /\ -52 <= e.
Proof.
  intros Hz Heq.
  pose proof (of_Z_valid z ltac:(lia)) as Hv.
  pose proof (of_Z_mono 1 z ltac:(lia)) as Hle.
  rewrite Heq in Hv, Hle. apply valid_finite in Hv as [Hc _].
  change (of_Z 1) with (S754_finite false 4503599627370496 (-52)) in Hle.
  apply leb_finite_inv in Hle. apply canonical_exponent in Hc. lia.
Qed.

(** The time penalty is a binary64 number that is zero or above. *)
Lemma time_penalty_valid (secs : Z) :
  1 <= secs ->
  let penalty := min d2_0 (mul (div (of_Z secs) d60_0) d0_1) in
  valid penalty = true /\ nonneg penalty = true.
Proof.
  intros Hs. cbv zeta.
  assert (HD : valid (div (of_Z secs) d60_0) = true /\ nonneg (div (of_Z secs) d60_0) = true).
  { split; [|apply div_nonneg; [apply of_Z_nonneg; lia|reflexivity]].
    pose proof (of_Z_positive secs ltac:(lia)) as Hp.
    destruct (of_Z secs) as [[]|[]| |[] m e] eqn:Heq; try discriminate; [reflexivity|].
    destruct (of_Z_normal secs m e Hs Heq) as [Hd He].
    apply div_valid_normal; [assumption|reflexivity|lia]. }
  destruct HD as [HDv HDn].
  assert (HX : valid (mul (div (of_Z secs) d60_0) d0_1) = true
               /\ nonneg (mul (div (of_Z secs) d60_0) d0_1) = true).
  { split; [by apply mul_valid|by apply mul_nonneg_r]. }
  destruct HX as [HXv HXn]. unfold min.
  destruct (ltb _ d2_0); by split.
Qed.

Lemma timeout_penalty (count : N) :
  let penalty := add d0_0 (mul (of_Z (Z.of_N count)) d0_2) in
  valid penalty = true /\ nonneg penalty = true.
Proof.
  cbv zeta.
  assert (Hv : valid (mul (of_Z (Z.of_N count)) d0_2) = true).
  { apply mul_valid; try reflexivity; [apply of_Z_valid|apply of_Z_nonneg]; lia. }
  assert (Hn : nonneg (mul (of_Z (Z.of_N count)) d0_2) = true).
  { apply mul_nonneg_r; [apply of_Z_nonneg; lia|reflexivity]. }
  split; [by apply add_valid|by apply add_nonneg].
Qed.

Lemma timeout_penalty_mono (k1 k2 : N) :
  (k1 <= k2)%N ->
  leb (add d0_0 (mul (of_Z (Z.of_N k1)) d0_2)) (add d0_0 (mul (of_Z (Z.of_N k2)) d0_2)) = true.
Proof.
  intros Hk.
  assert (Hv : forall k, valid (mul (of_Z (Z.of_N k)) d0_2) = true
                         /\ nonneg (mul (of_Z (Z.of_N k)) d0_2) = true).
  { intros k. split.
    - apply mul_valid; try reflexivity; [apply of_Z_valid|apply of_Z_nonneg]; lia.
    - apply mul_nonneg_r; [apply of_Z_nonneg; lia|reflexivity]. }
  apply add_mono_r; try reflexivity; try apply Hv.
  apply mul_mono_nonneg_l; try reflexivity;
    try (apply of_Z_valid; lia); try (apply of_Z_nonneg; lia).
  apply of_Z_mono. lia.
Qed.

(** The stability factor is a binary64 number, and it is monotone in the
    timeout count. *)
Lemma getStabilityFactor_valid (now : Time.time_point) (metrics : LinkMetrics) :
  valid (getStabilityFactor now metrics) = true.
Proof.
  unfold getStabilityFactor.
  assert (H1 : valid (match timeoutCount metrics with
                      | Some count => add d0_0 (mul (of_Z (Z.of_N count)) d0_2)
                      | None => d0_0
                      end) = true
               /\ nonneg (match timeoutCount metrics with
                          | Some count => add d0_0 (mul (of_Z (Z.of_N count)) d0_2)
                          | None => d0_0
                          end) = true).
  { destruct (timeoutCount metrics) as [count|]; [apply timeout_penalty|by split]. }
  destruct H1 as [H1v H1n].
  destruct (lastSuccessTime metrics) as [last|]; [|assumption].
  destruct (Z.ltb_spec 60 (Time.to_seconds (now - last))) as [Hlt|Hge]; [|assumption].
  destruct (time_penalty_valid (Time.to_seconds (now - last)) ltac:(lia)) as [HPv HPn].
  by apply add_valid.
Qed.

Lemma getStabilityFactor_mono (now : Time.time_point) (metrics : LinkMetrics) (k1 k2 : N) :
  (k1 <= k2)%N ->
  leb (getStabilityFactor now (with_timeouts metrics k1))
      (getStabilityFactor now (with_timeouts metrics k2)) = true.
Proof.
  intros Hk. unfold getStabilityFactor, with_timeouts. cbn [timeoutCount lastSuccessTime].
  pose proof (timeout_penalty_mono k1 k2 Hk) as Hmono.
  destruct (timeout_penalty k1) as [Hv1 Hn1]. destruct (timeout_penalty k2) as [Hv2 Hn2].
  destruct (lastSuccessTime metrics) as [last|]; [|assumption].
  destruct (Z.ltb_spec 60 (Time.to_seconds (now - last))) as [Hlt|Hge]; [|assumption].
  destruct (time_penalty_valid (Time.to_seconds (now - last)) ltac:(lia)) as [HPv HPn].
  by apply add_mono_l.
Qed.

End StabilityIsMonotone.

Section TimeoutsRaiseTheCost.

Import LoadAware Queries.

Variable MAX_RTT_HISTORY : nat.

Lemma getRttFactor_valid (metrics : LinkMetrics) : valid (getRttFactor metrics) = true.
Proof.
  unfold getRttFactor. destruct (currentRtt metrics); [|reflexivity].
  repeat (destruct (leb _ _); [reflexivity|]). reflexivity.
Qed.

Lemma getLoadFactor_valid (metrics : LinkMetrics) (h : gmap Name (list double)) :
  valid (fst (getLoadFactor MAX_RTT_HISTORY metrics h)) = true.
Proof.
  unfold getLoadFactor. destruct (_ !! neighbor metrics) as [hist|]; [|reflexivity].
  destruct (length hist <? 3)%nat; [reflexivity|]. cbn [fst].
  unfold load_of_history, classify_variation.
  repeat (destruct (leb _ _); [reflexivity|]). reflexivity.
Qed.

Lemma positive_weight_spec (w : double) :
  positive_weight w = true -> finite_pos w = true /\ valid w = true.
Proof. unfold positive_weight. intros H. by apply andb_prop in H. Qed.

Lemma weighted_valid (w f : double) :
  positive_weight w = true -> valid f = true -> nonneg f = true ->
  valid (mul w f) = true /\ nonneg (mul w f) = true.
Proof.
  intros Hw Hf Hn. apply positive_weight_spec in Hw as [Hp Hv].
  split; [|by apply mul_nonneg].
  rewrite mul_comm_nonneg; [by apply mul_valid| |assumption].
  by destruct w as [[]|[]| |[] m e].
Qed.

(** X13. More timeouts never lower the cost: with costs above zero and
    weights that are finite binary64 numbers above zero, of two metrics
    that differ in the timeout count only, the one with the larger count
    never gets the smaller cost.  The stability factor is monotone in the
    count, and so is every operation between it and the returned cost. *)
Theorem X13_more_timeouts_never_lower_the_cost (now : Time.time_point) (n : Name)
    (rttBasedCost : double) (metrics : LinkMetrics) (c : Calculator) (k1 k2 : N) :
  ltb zero rttBasedCost = true -> valid rttBasedCost = true ->
  ltb zero (originalCost metrics) = true ->
  positive_weight (m_rttWeight c) = true ->
  positive_weight (m_loadWeight c) = true ->
  positive_weight (m_stabilityWeight c) = true ->
  (k1 <= k2)%N ->
  leb (fst (calculateLoadAwareCost MAX_RTT_HISTORY now n rttBasedCost
              (with_timeouts metrics k1) c))
      (fst (calculateLoadAwareCost MAX_RTT_HISTORY now n rttBasedCost
              (with_timeouts metrics k2) c)) = true.
Proof.
  intros Hr Hrv Ho HwR HwL HwS Hk.
  apply ltb_zero_positive in Hr, Ho.
  unfold calculateLoadAwareCost.
  change (originalCost (with_timeouts metrics k1)) with (originalCost metrics).
  change (originalCost (with_timeouts metrics k2)) with (originalCost metrics).
  rewrite (positive_not_leb_zero rttBasedCost),
    (positive_not_leb_zero (originalCost metrics)) by (by apply ltb_zero_positive).
  cbn [orb].
  change (getLoadFactor MAX_RTT_HISTORY (with_timeouts metrics k1) (m_rttHistory c))
    with (getLoadFactor MAX_RTT_HISTORY metrics (m_rttHistory c)).
  change (getLoadFactor MAX_RTT_HISTORY (with_timeouts metrics k2) (m_rttHistory c))
    with (getLoadFactor MAX_RTT_HISTORY metrics (m_rttHistory c)).
  change (getRttFactor (with_timeouts metrics k1)) with (getRttFactor metrics).
  change (getRttFactor (with_timeouts metrics k2)) with (getRttFactor metrics).
  pose proof (getLoadFactor_nonneg MAX_RTT_HISTORY metrics (m_rttHistory c)) as Hlf.
  pose proof (getLoadFactor_valid metrics (m_rttHistory c)) as Hlv.
  destruct (getLoadFactor MAX_RTT_HISTORY metrics (m_rttHistory c)) as [loadFactor h1].
  cbn [fst] in Hlf, Hlv |- *.
  destruct (weighted_valid _ _ HwR (getRttFactor_valid metrics) (getRttFactor_nonneg metrics))
    as [HRv HRn].
  destruct (weighted_valid _ _ HwL Hlv Hlf) as [HLv HLn].
  set (B := add (mul (m_rttWeight c) (getRttFactor metrics)) (mul (m_loadWeight c) loadFactor)).
  assert (HBv : valid B = true) by by apply add_valid.
  assert (HBn : nonneg B = true) by by apply add_nonneg.
  set (S1 := getStabilityFactor now (with_timeouts metrics k1)).
  set (S2 := getStabilityFactor now (with_timeouts metrics k2)).
  pose proof (getStabilityFactor_mono now metrics k1 k2 Hk) as HS. fold S1 S2 in HS.
  destruct (weighted_valid _ S1 HwS (getStabilityFactor_valid now _)
              (getStabilityFactor_nonneg now _)) as [HS1v HS1n].
  destruct (weighted_valid _ S2 HwS (getStabilityFactor_valid now _)
              (getStabilityFactor_nonneg now _)) as [HS2v HS2n].
  destruct (positive_weight_spec _ HwS) as [HwSp HwSv].
  assert (HwS12 : leb (mul (m_stabilityWeight c) S1) (mul (m_stabilityWeight c) S2) = true).
  { apply mul_mono_nonneg_r; try assumption;
      try apply getStabilityFactor_valid; apply getStabilityFactor_nonneg. }
  set (A1 := add B (mul (m_stabilityWeight c) S1)) in *.
  set (A2 := add B (mul (m_stabilityWeight c) S2)) in *.
  assert (HA12 : leb A1 A2 = true) by by apply add_mono_r.
  assert (HA1v : valid A1 = true) by by apply add_valid.
  assert (HA2v : valid A2 = true) by by apply add_valid.
  assert (HA1n : nonneg A1 = true) by by apply add_nonneg.
  assert (HA2n : nonneg A2 = true) by by apply add_nonneg.
  assert (HY12 : leb (add d1_0 A1) (add d1_0 A2) = true) by by apply add_mono_r.
  assert (HY1 : is_positive (add d1_0 A1) = true) by by apply one_plus_positive.
  assert (HY2 : is_positive (add d1_0 A2) = true) by by apply one_plus_positive.
  assert (HY1v : valid (add d1_0 A1) = true) by by apply one_plus_valid.
  assert (HY2v : valid (add d1_0 A2) = true) by by apply one_plus_valid.
  assert (Hmul : leb (mul rttBasedCost (add d1_0 A1)) (mul rttBasedCost (add d1_0 A2)) = true).
  { rewrite (mul_comm_nonneg rttBasedCost (add d1_0 A1)),
      (mul_comm_nonneg rttBasedCost (add d1_0 A2)) by (by apply positive_is_nonneg).
    by apply mul_mono_l. }
  set (hi := mul (originalCost metrics) d3_0). set (lo := mul (originalCost metrics) d0_5).
  assert (Hhi : nonneg hi = true) by by apply mul_positive.
  assert (Hlo : nonneg lo = true) by by apply mul_positive.
  assert (Hm1 : nonneg (mul rttBasedCost (add d1_0 A1)) = true) by by apply mul_positive.
  assert (Hm2 : nonneg (mul rttBasedCost (add d1_0 A2)) = true) by by apply mul_positive.
  apply max_mono_l.
  - apply min_nonneg; assumption.
  - apply nonneg_not_nan, min_nonneg; assumption.
  - by apply nonneg_not_nan.
  - apply min_mono_l; try (by apply nonneg_not_nan); assumption.
Qed.

End TimeoutsRaiseTheCost.

Section ClampIsMonotone.

Import LoadAware Queries.

Variable MAX_RTT_HISTORY : nat.

Lemma min_mono_r (a h1 h2 : double) :
  nonneg h1 = true -> is_nan a = false -> is_nan h2 = false ->
  leb h1 h2 = true -> leb (min a h1) (min a h2) = true.
Proof.
  intros Hh1 Ha Hh2 Hle. pose proof (nonneg_not_nan _ Hh1) as Hh1n. unfold min.
  destruct (ltb h1 a) eqn:H1, (ltb h2 a) eqn:H2.
  - assumption.
  - by apply ltb_leb_weak.
  - apply ltb_false_leb in H1; [|assumption|assumption].
    by apply (leb_trans_nonneg a h1 h2).
  - by apply leb_refl.
Qed.

Lemma max_mono (x1 x2 l1 l2 : double) :
  nonneg x2 = true -> nonneg l2 = true -> is_nan x1 = false -> is_nan l1 = false ->
  leb x1 x2 = true -> leb l1 l2 = true -> leb (max x1 l1) (max x2 l2) = true.
Proof.
  intros Hx2 Hl2 Hx1 Hl1 Hx Hl.
  pose proof (nonneg_not_nan _ Hx2) as Hx2n. pose proof (nonneg_not_nan _ Hl2) as Hl2n.
  unfold max. destruct (ltb x1 l1) eqn:H1, (ltb x2 l2) eqn:H2.
  - assumption.
  - apply ltb_false_leb in H2; [|assumption|assumption].
    by apply (leb_trans_nonneg l1 l2 x2).
  - apply ltb_leb_weak in H2. by apply (leb_trans_nonneg x1 x2 l2).
  - assumption.
Qed.

(** X14. The cost is monotone in the original cost: of two metrics that
    differ in the original cost only, both above zero, the one with the
    larger original cost never gets the smaller cost: both clamp bounds
    move up with it. *)
Theorem X14_cost_monotone_in_original_cost (now : Time.time_point) (n : Name)
    (rttBasedCost : double) (metrics : LinkMetrics) (c : Calculator) (o1 o2 : double) :
  ltb zero rttBasedCost = true ->
  ltb zero o1 = true -> valid o1 = true -> valid o2 = true ->
  leb o1 o2 = true ->
  finite_pos (m_rttWeight c) = true ->
  finite_pos (m_loadWeight c) = true ->
  finite_pos (m_stabilityWeight c) = true ->
  leb (fst (calculateLoadAwareCost MAX_RTT_HISTORY now n rttBasedCost
              (with_original_cost metrics o1) c))
      (fst (calculateLoadAwareCost MAX_RTT_HISTORY now n rttBasedCost
              (with_original_cost metrics o2) c)) = true.
Proof.
  intros Hr Ho1 Hv1 Hv2 Hle HwR HwL HwS.
  apply ltb_zero_positive in Hr, Ho1.
  pose proof (leb_positive _ _ Ho1 Hle) as Ho2.
  unfold calculateLoadAwareCost. cbn [originalCost with_original_cost].
  rewrite (positive_not_leb_zero rttBasedCost), (positive_not_leb_zero o1),
    (positive_not_leb_zero o2) by (by apply ltb_zero_positive).
  cbn [orb].
  change (getLoadFactor MAX_RTT_HISTORY (with_original_cost metrics o1) (m_rttHistory c))
    with (getLoadFactor MAX_RTT_HISTORY (with_original_cost metrics o2) (m_rttHistory c)).
  change (getRttFactor (with_original_cost metrics o1))
    with (getRttFactor (with_original_cost metrics o2)).
  change (getStabilityFactor now (with_original_cost metrics o1))
    with (getStabilityFactor now (with_original_cost metrics o2)).
  pose proof (getLoadFactor_nonneg MAX_RTT_HISTORY (with_original_cost metrics o2)
                (m_rttHistory c)) as Hlf.
  destruct (getLoadFactor MAX_RTT_HISTORY (with_original_cost metrics o2) (m_rttHistory c))
    as [loadFactor h1].
  cbn [fst] in Hlf |- *.
  set (A := add (add (mul (m_rttWeight c) (getRttFactor (with_original_cost metrics o2)))
                     (mul (m_loadWeight c) loadFactor))
                (mul (m_stabilityWeight c)
                   (getStabilityFactor now (with_original_cost metrics o2)))).
  assert (HA : nonneg A = true).
  { apply add_nonneg; [apply add_nonneg|].
    - apply mul_nonneg; [assumption|apply getRttFactor_nonneg].
    - by apply mul_nonneg.
    - apply mul_nonneg; [assumption|apply getStabilityFactor_nonneg]. }
  assert (Hy : is_positive (add d1_0 A) = true) by by apply one_plus_positive.
  assert (Hadj : nonneg (mul rttBasedCost (add d1_0 A)) = true) by by apply mul_positive.
  assert (Hhi1 : nonneg (mul o1 d3_0) = true) by by apply mul_positive.
  assert (Hhi2 : nonneg (mul o2 d3_0) = true) by by apply mul_positive.
  assert (Hlo1 : nonneg (mul o1 d0_5) = true) by by apply mul_positive.
  assert (Hlo2 : nonneg (mul o2 d0_5) = true) by by apply mul_positive.
  apply max_mono.
  - by apply min_nonneg.
  - assumption.
  - by apply nonneg_not_nan, min_nonneg.
  - by apply nonneg_not_nan.
  - apply min_mono_r; try (by apply nonneg_not_nan); [assumption|].
    by apply mul_mono_l.
  - by apply mul_mono_l.
Qed.

End ClampIsMonotone.

(** ** The Hello protocol: what the handlers emit and change *)

Section HandlerShapes.
Import Hello Exchange.

Variable wireEncode : Name -> Component.
Variable blockFromValue : Component -> option Name.
Variable conf : ConfParameter.

(** The response handler on a name with [INFO] in its place. *)
Lemma onContentValidated_info (l : AdjacencyList) (d : Data) :
  get_back 3 (dataName d) = Some INFO_COMPONENT ->
  let n := getPrefix_back 4 (dataName d) in
  onContentValidated conf l d
  = Some (setTimedOutInterestCount (setStatusOfNeighbor l n STATUS_ACTIVE) n 0,
          [ OnDataReceived n ]
          ++ (match l !! n with
              | Some a =>
                  match status a with
                  | STATUS_INACTIVE =>
                      [ OnNeighborStatusChanged n STATUS_ACTIVE; reconverge conf;
                        OnInitialHelloDataValidated n ]
                  | STATUS_ACTIVE => []
                  end
              | None => []
              end)
          ++ [ HpIncrementSignal RCV_HELLO_DATA ]).
Proof.
  intros Hget. cbv zeta. unfold onContentValidated. rewrite Hget. cbn [mbind option_bind].
  change (String.eqb INFO_COMPONENT INFO_COMPONENT) with true. cbv iota.
  rewrite status_after_set_count, status_after_set.
  destruct (decide (_ = _)) as [_|Hne]; [|by destruct Hne].
  unfold getStatusOfNeighbor, isNeighbor.
  destruct (l !! getPrefix_back 4 (dataName d)) as [a|]; [destruct (status a)|]; reflexivity.
Qed.

Lemma onContentValidated_other (l : AdjacencyList) (d : Data) (l' : AdjacencyList)
    (es : list Effect) :
  onContentValidated conf l d = Some (l', es) ->
  get_back 3 (dataName d) <> Some INFO_COMPONENT ->
  l' = l /\ es = [ HpIncrementSignal RCV_HELLO_DATA ].
Proof.
  unfold onContentValidated. intros Hrun Hne.
  destruct (get_back 3 (dataName d)) as [c|]; [|discriminate].
  cbn [mbind option_bind] in Hrun.
  destruct (String.eqb_spec c INFO_COMPONENT) as [Heq|_]; [destruct Hne; by rewrite Heq|].
  by injection Hrun as <- <-.
Qed.

(** The timeout handler on a name with [INFO] in its place. *)
Lemma processInterestTimedOut_info (l : AdjacencyList) (i : Interest) :
  get_back 2 (interestName i) = Some INFO_COMPONENT ->
  let n := getPrefix_back 3 (interestName i) in
  let l1 := incrementTimedOutInterestCount l n in
  let k := to_uint32 (getTimedOutInterestCount l1 n) in
  processInterestTimedOut wireEncode conf l i
  = Some (if (k <? getInterestRetryNumber conf)%N then
            (l1, [ OnTimeout n k ]
                 ++ expressInterest (helloName wireEncode conf n) (getInterestResendTime conf))
          else
            match getStatusOfNeighbor l n with
            | STATUS_ACTIVE =>
                (setStatusOfNeighbor l1 n STATUS_INACTIVE,
                 [ OnTimeout n k ]
                 ++ [ OnNeighborStatusChanged n STATUS_INACTIVE; reconverge conf ])
            | STATUS_INACTIVE => (l1, [ OnTimeout n k ])
            end).
Proof.
  intros Hget. cbv zeta. unfold processInterestTimedOut. rewrite Hget.
  cbn [mbind option_bind]. change (negb (String.eqb INFO_COMPONENT INFO_COMPONENT)) with false.
  cbv iota. rewrite status_after_increment.
  destruct (_ <? _)%N; [reflexivity|]. by destruct (getStatusOfNeighbor _ _).
Qed.

Lemma processInterestTimedOut_other (l : AdjacencyList) (i : Interest) (l' : AdjacencyList)
    (es : list Effect) :
  processInterestTimedOut wireEncode conf l i = Some (l', es) ->
  get_back 2 (interestName i) <> Some INFO_COMPONENT ->
  l' = l /\ es = [].
Proof.
  unfold processInterestTimedOut. intros Hrun Hne.
  destruct (get_back 2 (interestName i)) as [c|]; [|discriminate].
  cbn [mbind option_bind] in Hrun.
  destruct (String.eqb_spec c INFO_COMPONENT) as [Heq|_]; [destruct Hne; by rewrite Heq|].
  by injection Hrun as <- <-.
Qed.

(** The events other than a timeout and a validated response leave the
    adjacency list as it is. *)
Lemma step_quiet (l l' : AdjacencyList) (x : Input) (es : list Effect) :
  step wireEncode blockFromValue conf l x = Some (l', es) ->
  (forall i, x <> InterestTimedOut i) -> (forall d, x <> ContentValidated d) ->
  l' = l.
Proof.
  intros Hstep Ht Hc. destruct x as [m|i v|i|secs i|d|d|d]; cbn [step] in Hstep;
    try (by injection Hstep as <- <-).
  - destruct (processInterest _ _ _ _ _ _); [|discriminate]. cbn in Hstep.
    by injection Hstep as <- <-.
  - by destruct (Ht i).
  - by destruct (Hc d).
Qed.

(** The adjacency list after one handled event: untouched, or a count
    incremented, or a count incremented and a status set to [INACTIVE], or
    a neighbor set to [ACTIVE] with a count of 0. *)
Lemma step_adjacency (l l' : AdjacencyList) (x : Input) (es : list Effect) :
  step wireEncode blockFromValue conf l x = Some (l', es) ->
  l' = l
  \/ (exists i, x = InterestTimedOut i
      /\ get_back 2 (interestName i) = Some INFO_COMPONENT
      /\ let n := getPrefix_back 3 (interestName i) in
         let l1 := incrementTimedOutInterestCount l n in
         let k := to_uint32 (getTimedOutInterestCount l1 n) in
         (l' = l1 /\ (getStatusOfNeighbor l n = STATUS_ACTIVE
                      -> (k <? getInterestRetryNumber conf)%N = true))
         \/ (l' = setStatusOfNeighbor l1 n STATUS_INACTIVE
             /\ (k <? getInterestRetryNumber conf)%N = false
             /\ getStatusOfNeighbor l n = STATUS_ACTIVE))
  \/ (exists d, x = ContentValidated d
      /\ get_back 3 (dataName d) = Some INFO_COMPONENT
      /\ let n := getPrefix_back 4 (dataName d) in
         l' = setTimedOutInterestCount (setStatusOfNeighbor l n STATUS_ACTIVE) n 0).
Proof.
  intros Hstep.
  destruct x as [m|i v|i|secs i|d|d|d];
    try (left; eapply step_quiet; [exact Hstep|discriminate|discriminate]).
  - cbn [step] in Hstep.
    destruct (decide (get_back 2 (interestName i) = Some INFO_COMPONENT)) as [Hi|Hi].
    + right; left. exists i. split; [reflexivity|]. split; [assumption|]. cbv zeta.
      rewrite (processInterestTimedOut_info l i Hi) in Hstep. cbv zeta in Hstep.
      destruct (_ <? _)%N.
      * left. injection Hstep as <- <-. by split.
      * destruct (getStatusOfNeighbor l _) eqn:Hst.
        -- left. injection Hstep as <- <-. by split.
        -- right. injection Hstep as <- <-. by repeat split.
    + left. by destruct (processInterestTimedOut_other l i l' es Hstep Hi).
  - cbn [step] in Hstep.
    destruct (decide (get_back 3 (dataName d) = Some INFO_COMPONENT)) as [Hd|Hd].
    + right; right. exists d. split; [reflexivity|]. split; [assumption|]. cbv zeta.
      rewrite (onContentValidated_info l d Hd) in Hstep. cbv zeta in Hstep.
      by injection Hstep as <- <-.
    + left. by destruct (onContentValidated_other l d l' es Hstep Hd).
Qed.

Lemma groups_app (es1 es2 : list Effect) :
  groups wireEncode conf es1 -> groups wireEncode conf es2 ->
  groups wireEncode conf (es1 ++ es2).
Proof.
  induction 1 as [|g es Hg _ IH]; intros H2; [assumption|].
  rewrite <- app_assoc. apply groups_cons; auto.
Qed.

Lemma groups_one (g : list Effect) : group wireEncode conf g -> groups wireEncode conf g.
Proof. intros Hg. rewrite <- (app_nil_r g). apply groups_cons; [assumption|constructor]. Qed.

(** What one handled event emits is made of such groups. *)
Lemma step_groups (l l' : AdjacencyList) (x : Input) (es : list Effect) :
  step wireEncode blockFromValue conf l x = Some (l', es) -> groups wireEncode conf es.
Proof.
  destruct x as [m|i v|i|secs i|d|d|d]; cbn [step]; intros Hstep.
  - injection Hstep as <- <-. unfold sendHelloInterest.
    destruct (findAdjacent l m); [|constructor].
    apply groups_app; [|apply groups_one; constructor].
    destruct (negb _); [apply groups_one|]; constructor.
  - destruct (processInterest _ _ _ _ _ _) as [e|] eqn:He; [|discriminate].
    cbn in Hstep. injection Hstep as <- <-. unfold processInterest in He.
    destruct (get_back 2 _); [|discriminate]. cbn [mbind option_bind] in He.
    destruct (negb _); [injection He as <-; apply groups_one; constructor|].
    destruct (get_back 1 _); [|discriminate]. cbn [mbind option_bind] in He.
    destruct (blockFromValue _) as [m|]; [|discriminate]. cbn [mbind option_bind] in He.
    destruct (isNeighbor l m); [|injection He as <-; apply groups_one; constructor].
    destruct (findAdjacent l m) as [a|]; [|discriminate]. cbn [mbind option_bind] in He.
    assert (Hreplied : forall d, groups wireEncode conf
              ([HpIncrementSignal RCV_HELLO_INTEREST]
               ++ [FacePut d; HpIncrementSignal SENT_HELLO_DATA])).
    { intros d. apply groups_app; apply groups_one; constructor. }
    destruct (status a); [destruct (negb _)|]; injection He as <-;
      try apply Hreplied.
    apply (groups_app [_; _; _]); [apply Hreplied|apply groups_one; constructor].
  - destruct (decide (get_back 2 (interestName i) = Some INFO_COMPONENT)) as [Hi|Hi].
    + rewrite (processInterestTimedOut_info l i Hi) in Hstep. cbv zeta in Hstep.
      destruct (_ <? _)%N; [|destruct (getStatusOfNeighbor l _)]; injection Hstep as <- <-.
      * apply (groups_app [_]); apply groups_one; constructor.
      * apply groups_one; constructor.
      * apply (groups_app [_]); apply groups_one; constructor.
    + destruct (processInterestTimedOut_other l i l' es Hstep Hi) as [_ ->]. constructor.
  - injection Hstep as <- <-. apply groups_one; constructor.
  - injection Hstep as <- <-. apply groups_one; constructor.
  - destruct (decide (get_back 3 (dataName d) = Some INFO_COMPONENT)) as [Hd|Hd].
    + rewrite (onContentValidated_info l d Hd) in Hstep. cbv zeta in Hstep.
      injection Hstep as <- <-.
      apply (groups_app [_]); [apply groups_one; constructor|].
      apply groups_app; [|apply groups_one; constructor].
      destruct (l !! _) as [a|]; [destruct (status a)|]; try constructor.
      apply groups_one; constructor.
    + destruct (onContentValidated_other l d l' es Hstep Hd) as [_ ->].
      apply groups_one; constructor.
  - injection Hstep as <- <-. constructor.
Qed.

(** Induction along a trace. *)
Lemma run_cons (l l' : AdjacencyList) (x : Input) (rest : list Input) (es : list Effect) :
  run wireEncode blockFromValue conf l (x :: rest) = Some (l', es) ->
  exists l1 e1 e2,
    step wireEncode blockFromValue conf l x = Some (l1, e1)
    /\ run wireEncode blockFromValue conf l1 rest = Some (l', e2)
    /\ es = e1 ++ e2.
Proof.
  cbn [run]. intros Hrun.
  destruct (step _ _ _ l x) as [[l1 e1]|] eqn:Hstep; [|discriminate].
  cbn [mbind option_bind] in Hrun.
  destruct (run _ _ _ l1 rest) as [[l2 e2]|] eqn:Hrest; [|discriminate].
  cbn in Hrun. injection Hrun as <- <-. by exists l1, e1, e2.
Qed.

Lemma run_groups (xs : list Input) :
  forall (l l' : AdjacencyList) (es : list Effect),
  run wireEncode blockFromValue conf l xs = Some (l', es) -> groups wireEncode conf es.
Proof.
  induction xs as [|x rest IH]; intros l l' es Hrun.
  - injection Hrun as <- <-. constructor.
  - apply run_cons in Hrun as (l1 & e1 & e2 & Hstep & Hrest & ->).
    apply groups_app; [by eapply step_groups|by eapply IH].
Qed.

Lemma run_invariant (P : AdjacencyList -> Prop) :
  (forall l x l' es, P l -> step wireEncode blockFromValue conf l x = Some (l', es) -> P l') ->
  forall xs l l' es,
  run wireEncode blockFromValue conf l xs = Some (l', es) -> P l -> P l'.
Proof.
  intros Hstep. induction xs as [|x rest IH]; intros l l' es Hrun HP.
  - by injection Hrun as <- <-.
  - apply run_cons in Hrun as (l1 & e1 & e2 & Hs & Hrest & ->).
    eapply IH; [exact Hrest|]. by eapply Hstep.
Qed.

End HandlerShapes.

Section EffectReadings.
Import Hello Exchange.

Lemma sent_to_app (es1 es2 : list Effect) : sent_to (es1 ++ es2) = sent_to es1 ++ sent_to es2.
Proof. induction es1 as [|[] es1 IH]; cbn; by rewrite ?IH. Qed.

Lemma expressed_app (es1 es2 : list Effect) :
  expressed (es1 ++ es2) = expressed es1 ++ expressed es2.
Proof. induction es1 as [|[] es1 IH]; cbn; by rewrite ?IH. Qed.

Lemma count_app (p : Effect -> bool) (es1 es2 : list Effect) :
  count p (es1 ++ es2) = (count p es1 + count p es2)%nat.
Proof. unfold count. by rewrite List.filter_app, length_app. Qed.

End EffectReadings.

Section HelloEffects.
Import Hello Exchange.

Variable wireEncode : Name -> Component.
Variable blockFromValue : Component -> option Name.
Variable conf : ConfParameter.

(** X15. Along every trace, the interests the engine hands to the face
    are hello probes and nothing else: one for each [InterestSent] signal,
    in the same order, named [/<neighbor>/NLSR/INFO/<router>] for the
    neighbor of the signal, with the configured resend time as lifetime,
    must-be-fresh and can-be-prefix; and [SENT_HELLO_INTEREST] is counted
    once for each of them. *)
Theorem X15_every_interest_is_a_hello_probe (l l' : AdjacencyList) (xs : list Input)
    (es : list Effect) :
  run wireEncode blockFromValue conf l xs = Some (l', es) ->
  expressed es
  = map (fun n =>
           {| interestName :=
                n ++ [NLSR_COMPONENT; INFO_COMPONENT; wireEncode (getRouterPrefix conf)];
              interestLifetime := getInterestResendTime conf;
              mustBeFresh := true;
              canBePrefix := true |})
        (sent_to es)
  /\ count is_sent_interest_count es = length (sent_to es).
Proof.
  intros Hrun. apply run_groups in Hrun.
  change (expressed es
          = map (fun n => helloInterest (helloName wireEncode conf n)
                            (getInterestResendTime conf)) (sent_to es)
          /\ count is_sent_interest_count es = length (sent_to es)).
  induction Hrun as [|g es Hg _ [IH1 IH2]]; [by split|].
  rewrite expressed_app, sent_to_app, count_app, map_app, length_app, IH1, IH2.
  assert (Hone : expressed g
                 = map (fun n => helloInterest (helloName wireEncode conf n)
                                   (getInterestResendTime conf)) (sent_to g)
                 /\ count is_sent_interest_count g = length (sent_to g)).
  { destruct Hg; try (by split).
    - cbn. by rewrite getPrefix_back_helloName.
    - unfold reconverge. by destruct (getHyperbolicState conf).
    - unfold reconverge. by destruct (getHyperbolicState conf). }
  destruct Hone as [-> ->]. by split.
Qed.

(** X16. Along every trace the engine asks for a routing reconvergence
    exactly as often as it reports a change of status, and emits
    [InitialHelloDataValidated] exactly as often as it reports an
    activation. *)
Theorem X16_one_reconvergence_per_status_change (l l' : AdjacencyList) (xs : list Input)
    (es : list Effect) :
  run wireEncode blockFromValue conf l xs = Some (l', es) ->
  count is_reconverge es = count is_status_change es
  /\ count is_initial_validated es = count is_activation es.
Proof.
  intros Hrun. apply run_groups in Hrun.
  induction Hrun as [|g es Hg _ [IH1 IH2]]; [by split|].
  rewrite !count_app, IH1, IH2.
  assert (Hone : count is_reconverge g = count is_status_change g
                 /\ count is_initial_validated g = count is_activation g).
  { destruct Hg; try (by split);
      unfold reconverge; by destruct (getHyperbolicState conf). }
  destruct Hone as [-> ->]. by split.
Qed.

(** X17. The status signals are faithful: after every trace, the status
    of a neighbor in the adjacency list is the last one reported for it by
    [NeighborStatusChanged], and the status it had at the start if none
    was reported. *)
Theorem X17_status_is_last_reported (n : Name) (l l' : AdjacencyList) (xs : list Input)
    (es : list Effect) :
  run wireEncode blockFromValue conf l xs = Some (l', es) ->
  getStatusOfNeighbor l' n = default (getStatusOfNeighbor l n) (last (status_events n es)).
Proof.
  revert l l' es. induction xs as [|x rest IH]; intros l l' es Hrun.
  - by injection Hrun as <- <-.
  - apply run_cons in Hrun as (l1 & e1 & e2 & Hstep & Hrest & ->).
    rewrite status_events_app, (IH _ _ _ Hrest).
    destruct (step_status wireEncode blockFromValue conf n _ _ _ _ Hstep)
      as [[-> ->]|(s & -> & _ & ->)]; [reflexivity|].
    cbn [app]. by destruct (status_events n e2) as [|s2 ss] using rev_ind;
      [|rewrite app_comm_cons, !last_snoc].
Qed.

(** X18. The engine adds no neighbor, removes none and changes no face
    id: after every trace the adjacency list has the names it had, each
    with the face id it had. *)
Theorem X18_neighbors_and_faces_fixed (l l' : AdjacencyList) (xs : list Input)
    (es : list Effect) (m : Name) :
  run wireEncode blockFromValue conf l xs = Some (l', es) ->
  faceId <$> l' !! m = faceId <$> l !! m.
Proof.
  intros Hrun.
  apply (run_invariant wireEncode blockFromValue conf
           (fun l1 => faceId <$> l1 !! m = faceId <$> l !! m)) in Hrun; [assumption| |reflexivity].
  clear. intros l1 x l2 es HP Hstep. rewrite <- HP. clear HP.
  assert (Halter : forall (f : Adjacent -> Adjacent) (n : Name) (l0 : AdjacencyList),
             (forall a, faceId (f a) = faceId a) ->
             faceId <$> alter f n l0 !! m = faceId <$> l0 !! m).
  { intros f n l0 Hf. destruct (decide (n = m)) as [->|Hne].
    - rewrite lookup_alter_eq. destruct (l0 !! m); cbn; by rewrite ?Hf.
    - by rewrite lookup_alter_ne. }
  destruct (step_adjacency wireEncode blockFromValue conf _ _ _ _ Hstep)
    as [->|[(i & _ & _ & [[-> _]|(-> & _)])|(d & _ & _ & ->)]]; [reflexivity|..];
    unfold setStatusOfNeighbor, setTimedOutInterestCount, incrementTimedOutInterestCount;
    rewrite ?Halter; reflexivity.
Qed.

(** X19. With a retry limit above 0, if the count of timed-out probes of
    every [ACTIVE] neighbor is below the limit, it is so after every
    trace: a neighbor that has used up its retries is never left
    [ACTIVE]. *)
Theorem X19_active_neighbor_below_retry_limit (l l' : AdjacencyList) (xs : list Input)
    (es : list Effect) :
  (0 < getInterestRetryNumber conf)%N ->
  (forall n a, l !! n = Some a -> status a = STATUS_ACTIVE ->
               (to_uint32 (interestTimedOutNo a) < getInterestRetryNumber conf)%N) ->
  run wireEncode blockFromValue conf l xs = Some (l', es) ->
  forall n a, l' !! n = Some a -> status a = STATUS_ACTIVE ->
              (to_uint32 (interestTimedOutNo a) < getInterestRetryNumber conf)%N.
Proof.
  intros Hpos Hinit Hrun.
  refine (run_invariant wireEncode blockFromValue conf
            (fun l1 => forall n a, l1 !! n = Some a -> status a = STATUS_ACTIVE ->
               (to_uint32 (interestTimedOutNo a) < getInterestRetryNumber conf)%N)
            _ xs l l' es Hrun Hinit).
  clear -Hpos. intros l1 x l2 es HP Hstep n a Hn Ha.
  destruct (step_adjacency wireEncode blockFromValue conf _ _ _ _ Hstep)
    as [->|[(i & _ & _ & [[-> Hk]|(-> & Hk & Hst)])|(d & _ & _ & ->)]]; [by eapply HP|..].
  - set (m := getPrefix_back 3 (interestName i)) in *.
    unfold incrementTimedOutInterestCount in Hn.
    destruct (decide (m = n)) as [<-|Hne]; [|rewrite lookup_alter_ne in Hn by done; by eapply HP].
    rewrite lookup_alter_eq in Hn.
    unfold getStatusOfNeighbor, getTimedOutInterestCount, incrementTimedOutInterestCount in Hk.
    rewrite lookup_alter_eq in Hk.
    destruct (l1 !! m) as [a1|]; [|discriminate]. cbn in Hn, Hk. injection Hn as <-.
    cbn in Ha |- *. apply N.ltb_lt. by apply Hk.
  - set (m := getPrefix_back 3 (interestName i)) in *.
    unfold setStatusOfNeighbor, incrementTimedOutInterestCount in Hn.
    destruct (decide (m = n)) as [<-|Hne];
      [|rewrite !lookup_alter_ne in Hn by done; by eapply HP].
    rewrite !lookup_alter_eq in Hn.
    destruct (l1 !! m) as [a1|]; [|discriminate]. cbn in Hn. injection Hn as <-.
    discriminate.
  - set (m := getPrefix_back 4 (dataName d)) in *.
    unfold setTimedOutInterestCount, setStatusOfNeighbor in Hn.
    destruct (decide (m = n)) as [<-|Hne];
      [|rewrite !lookup_alter_ne in Hn by done; by eapply HP].
    rewrite !lookup_alter_eq in Hn.
    destruct (l1 !! m) as [a1|]; [|discriminate]. cbn in Hn. injection Hn as <-.
    cbn. exact Hpos.
Qed.

End HelloEffects.

Section HelloHandlers.
Import Hello Exchange.

Variable wireEncode : Name -> Component.
Variable blockFromValue : Component -> option Name.

Lemma get_back_app (k : nat) (prefix suffix : Name) :
  (1 <= k <= length suffix)%nat ->
  get_back k (prefix ++ suffix) = get_back k suffix.
Proof.
  intros Hk. unfold get_back. rewrite length_app.
  destruct (Nat.leb_spec k (length prefix + length suffix)) as [_|Hlt]; [|lia].
  destruct (Nat.leb_spec k (length suffix)) as [_|Hlt]; [|lia].
  rewrite lookup_app_r by lia. f_equal. lia.
Qed.

Lemma getPrefix_back_app (prefix suffix : Name) :
  getPrefix_back (length suffix) (prefix ++ suffix) = prefix.
Proof.
  unfold getPrefix_back. rewrite length_app.
  destruct (Nat.leb_spec (length suffix) (length prefix + length suffix)) as [_|Hlt]; [|lia].
  replace (length prefix + length suffix - length suffix)%nat with (length prefix) by lia.
  by rewrite take_app_length.
Qed.

Lemma setStatus_setCount_again (l : AdjacencyList) (n : Name) :
  let l1 := setTimedOutInterestCount (setStatusOfNeighbor l n STATUS_ACTIVE) n 0 in
  setTimedOutInterestCount (setStatusOfNeighbor l1 n STATUS_ACTIVE) n 0 = l1.
Proof.
  cbv zeta. unfold setTimedOutInterestCount, setStatusOfNeighbor. apply map_eq. intros m.
  destruct (decide (n = m)) as [->|Hne].
  - rewrite !lookup_alter_eq. by destruct (l !! m).
  - by rewrite !lookup_alter_ne.
Qed.

(** X20. Handling the same validated response a second time changes
    nothing: the adjacency list stays as the first handling left it, and
    the effects are those of the first handling without the notices of a
    change (the status signal, the reconvergence request,
    [InitialHelloDataValidated]). *)
Theorem X20_repeated_response_changes_nothing (conf : ConfParameter) (l l1 : AdjacencyList)
    (d : Data) (es : list Effect) :
  onContentValidated conf l d = Some (l1, es) ->
  onContentValidated conf l1 d
  = Some (l1, List.filter (fun e => negb (is_change_notice e)) es).
Proof.
  intros Hrun.
  destruct (decide (get_back 3 (dataName d) = Some INFO_COMPONENT)) as [Hd|Hd].
  - rewrite (onContentValidated_info conf l d Hd) in Hrun. cbv zeta in Hrun.
    rewrite (onContentValidated_info conf l1 d Hd). cbv zeta.
    set (n := getPrefix_back 4 (dataName d)) in *.
    injection Hrun as <- <-. rewrite setStatus_setCount_again. f_equal. f_equal.
    unfold setTimedOutInterestCount, setStatusOfNeighbor. rewrite !lookup_alter_eq.
    destruct (l !! n) as [a|]; [destruct (status a)|]; try reflexivity.
    cbn. unfold is_change_notice, reconverge. by destruct (getHyperbolicState conf).
  - destruct (onContentValidated_other conf l d l1 es Hrun Hd) as [-> ->].
    exact Hrun.
Qed.

(** X21. A round trip between two routers.  Let router A have router B
    as a neighbor with a face, and B have A as a neighbor, the codec
    decoding A's encoded prefix to A's prefix.  Then the periodic send of
    A expresses one interest; its name is under the name of B's interest
    filter; B's interest handler answers it with one data packet; and A's
    response handler, given that packet, reports [DataReceived] for B and
    leaves B [ACTIVE] with a count of 0. *)
Theorem X21_probe_reply_round_trip (confA confB : ConfParameter) (lA lB : AdjacencyList)
    (a : Adjacent) (version : Component) :
  let rA := getRouterPrefix confA in
  let rB := getRouterPrefix confB in
  blockFromValue (wireEncode rA) = Some rA ->
  lA !! rB = Some a -> faceId a <> 0%N ->
  isNeighbor lB rA = true ->
  exists (i : Interest) (esB : list Effect) (d : Data) (lA' : AdjacencyList)
         (esA : list Effect),
    expressed (sendHelloInterest wireEncode confA lA rB) = [i]
    /\ filterName confB `prefix_of` interestName i
    /\ processInterest wireEncode blockFromValue confB lB i version = Some esB
    /\ put esB = [d]
    /\ onContentValidated confA lA d = Some (lA', esA)
    /\ In (OnDataReceived rB) esA
    /\ getStatusOfNeighbor lA' rB = STATUS_ACTIVE
    /\ getTimedOutInterestCount lA' rB = 0%N.
Proof.
  cbv zeta. intros Hcodec Ha Hface HnB.
  set (rA := getRouterPrefix confA) in *. set (rB := getRouterPrefix confB) in *.
  set (i := helloInterest (helloName wireEncode confA rB) (getInterestResendTime confA)).
  set (d := {| dataName := interestName i ++ [version]; freshnessPeriod := 0;
               content := INFO_COMPONENT; signedWith := Some (getSigningInfo confB) |}).
  assert (Hd3 : get_back 3 (dataName d) = Some INFO_COMPONENT).
  { cbn [dataName d interestName i helloInterest]. unfold helloName.
    rewrite <- app_assoc. by rewrite get_back_app by (cbn; lia). }
  assert (Hd4 : getPrefix_back 4 (dataName d) = rB).
  { cbn [dataName d interestName i helloInterest]. unfold helloName.
    rewrite <- app_assoc. apply (getPrefix_back_app rB [_; _; _; _]). }
  exists i.
  assert (HesB : exists esB, processInterest wireEncode blockFromValue confB lB i version = Some esB
                             /\ put esB = [d]).
  { unfold processInterest. cbv zeta.
    change (interestName i) with (helloName wireEncode confA rB).
    rewrite get_back_helloName. cbn [mbind option_bind].
    change (negb (String.eqb INFO_COMPONENT INFO_COMPONENT)) with false. cbv iota.
    assert (H1 : get_back 1 (helloName wireEncode confA rB) = Some (wireEncode rA)).
    { unfold helloName. by rewrite get_back_app by (cbn; lia). }
    rewrite H1. cbn [mbind option_bind]. rewrite Hcodec. cbn [mbind option_bind].
    rewrite HnB. unfold isNeighbor in HnB. unfold findAdjacent.
    destruct (lB !! rA) as [b|]; [|discriminate]. cbn [mbind option_bind].
    destruct (status b); [destruct (negb _)|]; eexists; split; reflexivity. }
  destruct HesB as (esB & HesB & Hput). exists esB, d.
  eexists. eexists.
  split.
  { unfold sendHelloInterest, findAdjacent. rewrite Ha.
    destruct (N.eqb_spec (faceId a) 0) as [H0|_]; [contradiction|]. reflexivity. }
  split.
  { cbn [interestName i helloInterest]. unfold helloName, filterName. fold rB.
    exists [wireEncode rA]. by rewrite <- app_assoc. }
  split; [exact HesB|]. split; [exact Hput|].
  split; [apply (onContentValidated_info confA lA d Hd3)|]. cbv zeta. rewrite Hd4.
  split; [by left|]. split.
  - rewrite status_after_set_count, status_after_set.
    destruct (decide (rB = rB)) as [_|Hne]; [|by destruct Hne].
    unfold isNeighbor. by rewrite Ha.
  - apply count_after_set_count. rewrite isNeighbor_after_set. unfold isNeighbor.
    by rewrite Ha.
Qed.

(** X22. The interest handler puts data on the face only for a hello
    interest whose last component decodes to a neighbor in the adjacency
    list, and then exactly one packet: the interest's name with the
    version appended, freshness 0, the content [INFO], signed as
    configured.  It sends a probe only together with such a reply, and
    exactly when that neighbor is [INACTIVE] and has a face. *)
Theorem X22_reply_only_to_a_neighbor (conf : ConfParameter) (l : AdjacencyList)
    (i : Interest) (version : Component) (es : list Effect) :
  processInterest wireEncode blockFromValue conf l i version = Some es ->
  (put es = [] /\ expressed es = [])
  \/ (exists (last : Component) (n : Name) (a : Adjacent),
        get_back 2 (interestName i) = Some INFO_COMPONENT
        /\ get_back 1 (interestName i) = Some last
        /\ blockFromValue last = Some n
        /\ l !! n = Some a
        /\ put es = [ {| dataName := interestName i ++ [version]; freshnessPeriod := 0;
                         content := INFO_COMPONENT;
                         signedWith := Some (getSigningInfo conf) |} ]
        /\ expressed es
           = if bool_decide (status a = STATUS_INACTIVE /\ faceId a <> 0%N)
             then [ helloInterest (helloName wireEncode conf n) (getInterestResendTime conf) ]
             else []).
Proof.
  unfold processInterest. intros He.
  destruct (get_back 2 _) as [c|] eqn:H2; [|discriminate]. cbn [mbind option_bind] in He.
  destruct (String.eqb_spec c INFO_COMPONENT) as [->|_]; cbn [negb] in He;
    [|injection He as <-; by left].
  destruct (get_back 1 _) as [last|] eqn:H1; [|discriminate]. cbn [mbind option_bind] in He.
  destruct (blockFromValue last) as [n|] eqn:Hn; [|discriminate].
  cbn [mbind option_bind] in He.
  destruct (isNeighbor l n); [|injection He as <-; by left].
  unfold findAdjacent in He.
  destruct (l !! n) as [a|] eqn:Ha; [|discriminate]. cbn [mbind option_bind] in He.
  right. exists last, n, a. do 4 (split; [done|]).
  destruct (status a) eqn:Hst; [destruct (N.eqb_spec (faceId a) 0) as [H0|H0]|];
    cbn [negb] in He; injection He as <-; split; try reflexivity.
  - rewrite bool_decide_eq_false_2; [reflexivity|]. intros [_ Hf]. contradiction.
  - by rewrite bool_decide_eq_true_2.
Qed.

End HelloHandlers.

Section HelloCauses.
Import Hello Exchange.

Variable wireEncode : Name -> Component.
Variable blockFromValue : Component -> option Name.
Variable conf : ConfParameter.

(** One handled event changes the status of a neighbor only if it is a
    validated response naming it (to [ACTIVE]) or a timeout naming it (to
    [INACTIVE]). *)
Lemma step_status_cause (l l' : AdjacencyList) (x : Input) (es : list Effect) (m : Name) :
  step wireEncode blockFromValue conf l x = Some (l', es) ->
  getStatusOfNeighbor l' m = getStatusOfNeighbor l m
  \/ (getStatusOfNeighbor l' m = STATUS_INACTIVE
      /\ exists i, x = InterestTimedOut i
                   /\ get_back 2 (interestName i) = Some INFO_COMPONENT
                   /\ getPrefix_back 3 (interestName i) = m)
  \/ (getStatusOfNeighbor l' m = STATUS_ACTIVE
      /\ exists d, x = ContentValidated d
                   /\ get_back 3 (dataName d) = Some INFO_COMPONENT
                   /\ getPrefix_back 4 (dataName d) = m).
Proof.
  intros Hstep.
  destruct (step_adjacency wireEncode blockFromValue conf _ _ _ _ Hstep)
    as [->|[(i & -> & Hi & [[-> _]|(-> & _ & _)])|(d & -> & Hd & ->)]]; [by left|..].
  - left. apply status_after_increment.
  - rewrite status_after_set, status_after_increment.
    destruct (decide (_ = m)) as [Heq|_]; [|by left].
    right; left. split; [by destruct (isNeighbor _ _)|]. by exists i.
  - rewrite status_after_set_count, status_after_set.
    destruct (decide (_ = m)) as [Heq|_]; [|by left].
    unfold isNeighbor, getStatusOfNeighbor. subst m.
    destruct (l !! _); [|by left].
    right; right. split; [reflexivity|]. by exists d.
Qed.

(** X23. A status changes only for a cause in the trace: a neighbor
    whose status differs at the end of a trace from what it was at the
    start is [ACTIVE] only if the trace holds a validated response whose
    name has [INFO] in its place and that neighbor as its prefix, and
    [INACTIVE] only if it holds a timeout of such an interest. *)
Theorem X23_status_changes_have_a_cause (l l' : AdjacencyList) (xs : list Input)
    (es : list Effect) (m : Name) :
  run wireEncode blockFromValue conf l xs = Some (l', es) ->
  getStatusOfNeighbor l m <> getStatusOfNeighbor l' m ->
  match getStatusOfNeighbor l' m with
  | STATUS_ACTIVE =>
      exists d, In (ContentValidated d) xs
                /\ get_back 3 (dataName d) = Some INFO_COMPONENT
                /\ getPrefix_back 4 (dataName d) = m
  | STATUS_INACTIVE =>
      exists i, In (InterestTimedOut i) xs
                /\ get_back 2 (interestName i) = Some INFO_COMPONENT
                /\ getPrefix_back 3 (interestName i) = m
  end.
Proof.
  revert l l' es. induction xs as [|x rest IH]; intros l l' es Hrun Hne.
  - injection Hrun as <- <-. by destruct Hne.
  - apply run_cons in Hrun as (l1 & e1 & e2 & Hstep & Hrest & ->).
    destruct (decide (getStatusOfNeighbor l1 m = getStatusOfNeighbor l' m)) as [Hsame|Hdiff].
    + destruct (step_status_cause _ _ _ _ m Hstep)
        as [Heq|[(Hst & i & -> & Hi & Hm)|(Hst & d & -> & Hd & Hm)]].
      * destruct Hne. congruence.
      * rewrite <- Hsame, Hst. exists i. split; [by left|by split].
      * rewrite <- Hsame, Hst. exists d. split; [by left|by split].
    + specialize (IH _ _ _ Hrest Hdiff).
      destruct (getStatusOfNeighbor l' m); destruct IH as (y & Hin & Hrest');
        exists y; (split; [by right|assumption]).
Qed.

End HelloCauses.

(** ** The properties on the sample data *)

Section Scenarios.

Import LoadAware Hello.

(** The scenarios of the design: a cold start brings the neighbor up with
    the events in program order; a cost of 100 on the loaded link becomes
    161; a cost of 10 is raised to the lower clamp 50, a cost of 200 on a
    link with ten timeouts is cut to the upper clamp 300. *)
Example cold_start_to_active :
  run Sample.encode Sample.decode Sample.conf Sample.adjacency_down
      [ SendHelloTick Sample.r1; ContentValidated Sample.response ]
  = Some ({[ Sample.r1 := Sample.r1_active ]},
          [ OnInterestSent Sample.r1;
            FaceExpressInterest Sample.probe;
            HpIncrementSignal SENT_HELLO_INTEREST;
            Schedule 60 (SendHelloInterestTask Sample.r1);
            OnDataReceived Sample.r1;
            OnNeighborStatusChanged Sample.r1 STATUS_ACTIVE;
            ScheduleAdjLsaBuild;
            OnInitialHelloDataValidated Sample.r1;
            HpIncrementSignal RCV_HELLO_DATA ]).
Proof. vm_compute. reflexivity. Qed.

Example cost_adjustment :
  fst (calculateLoadAwareCost 16 Sample.now Sample.r1 (of_Z 100)
         Sample.loaded_metrics Sample.four_samples)
  = of_Z 161.
Proof. vm_compute. reflexivity. Qed.

Example cost_clamp_low :
  fst (calculateLoadAwareCost 16 Sample.now Sample.r1 (of_Z 10)
         (Sample.metrics None) initial)
  = of_Z 50.
Proof. vm_compute. reflexivity. Qed.

Example cost_clamp_high :
  fst (calculateLoadAwareCost 16 Sample.now Sample.r1 (of_Z 200)
         {| neighbor := Sample.r1; originalCost := of_Z 100;
            currentRtt := Some (Time.of_milliseconds 250);
            timeoutCount := Some 10%N; lastSuccessTime := None |}
         Sample.two_samples)
  = of_Z 300.
Proof. vm_compute. reflexivity. Qed.

(** C3, as stated, fails: a [currentRtt] of 10.0001 ms is more than 10 ms
    and at most 50 ms, and its factor is 0.0, not 0.2. *)
Lemma C3_counterexample :
  Time.of_milliseconds 10 < Sample.rtt_10_0001ms <= Time.of_milliseconds 50
  /\ getRttFactor (Sample.metrics (Some Sample.rtt_10_0001ms)) = d0_0
  /\ d0_0 <> d0_2.
Proof. split; [|split]; [vm_compute; split; congruence | reflexivity | discriminate]. Qed.

Lemma C3_witness :
  getRttFactor (Sample.metrics (Some (Time.of_milliseconds 30))) = d0_2.
Proof.
  refine (proj2 (C3_rtt_factor_of_whole_milliseconds
                   (Sample.metrics (Some (Time.of_milliseconds 30)))
                   (Time.of_milliseconds 30) eq_refl) _).
  vm_compute. split; congruence.
Defined.

(** C4, as stated, fails: validated data without [INFO] in the expected
    position is counted as [RCV_HELLO_DATA]. *)
Lemma C4_counterexample :
  get_back 3 (dataName Sample.stray) = Some "LSA"%string
  /\ exists l es,
       onContentValidated Sample.conf Sample.adjacency_up Sample.stray = Some (l, es)
       /\ In (HpIncrementSignal RCV_HELLO_DATA) es.
Proof.
  split; [reflexivity|].
  exists Sample.adjacency_up, [ HpIncrementSignal RCV_HELLO_DATA ].
  split; [reflexivity|]. left. reflexivity.
Qed.

Lemma C4_witness :
  onContentValidated Sample.conf Sample.adjacency_up Sample.stray
  = Some (Sample.adjacency_up, [ HpIncrementSignal RCV_HELLO_DATA ]).
Proof.
  apply (C4_malformed_data_only_counted Sample.conf Sample.adjacency_up Sample.stray "LSA"%string).
  - reflexivity.
  - discriminate.
Defined.

Lemma C7_witness :
  exists l' es,
    onContentValidated Sample.conf Sample.adjacency_down Sample.response = Some (l', es)
    /\ In (OnDataReceived Sample.r1) es
    /\ getTimedOutInterestCount l' Sample.r1 = 0%N
    /\ getStatusOfNeighbor l' Sample.r1 = STATUS_ACTIVE.
Proof.
  destruct (onContentValidated Sample.conf Sample.adjacency_down Sample.response)
    as [[l' es]|] eqn:Hrun; [|vm_compute in Hrun; discriminate].
  exists l', es. split; [reflexivity|].
  assert (Hin : In (OnDataReceived Sample.r1) es).
  { vm_compute in Hrun. injection Hrun as <- <-. left. reflexivity. }
  split; [exact Hin|].
  exact (C7_data_received_resets Sample.conf Sample.adjacency_down l' Sample.response
           es Sample.r1 Hrun Hin eq_refl).
Defined.

Lemma C8_witness :
  existsb is_probe (sendHelloInterest Sample.encode Sample.conf Sample.adjacency_up Sample.r1)
  = true.
Proof.
  apply (proj1 (C8_probe_iff_face_and_reschedule Sample.encode Sample.conf
                  Sample.adjacency_up Sample.r1 Sample.r1_active eq_refl)).
  discriminate.
Defined.

Lemma C2_witness :
  exists es,
    run Sample.encode Sample.decode Sample.conf Sample.adjacency_up
        (replicate 3 (InterestTimedOut Sample.probe))
    = Some (<[ Sample.r1 := with_status (with_count Sample.r1_active 3) STATUS_INACTIVE ]>
              Sample.adjacency_up, es)
    /\ status_events Sample.r1 es = [ STATUS_INACTIVE ]
    /\ length (List.filter is_reconverge es) = 1%nat.
Proof.
  eexists.
  pose proof (C2_timeouts_up_to_retry_limit Sample.encode Sample.decode Sample.conf
                Sample.adjacency_up Sample.r1 Sample.r1_active
                eq_refl eq_refl eq_refl eq_refl eq_refl) as (Hrun & Hev & Hre & _).
  split; [exact Hrun|]. split; [exact Hev|exact Hre].
Defined.

(** A trace: a response brings the neighbor up, three timeouts take it
    down, a response brings it up again. *)
Lemma C6_witness :
  exists l' es,
    run Sample.encode Sample.decode Sample.conf Sample.adjacency_down
        ([ SendHelloTick Sample.r1; ContentValidated Sample.response ]
         ++ replicate 3 (InterestTimedOut Sample.probe)
         ++ [ ContentValidated Sample.response ])
    = Some (l', es)
    /\ status_events Sample.r1 es = [ STATUS_ACTIVE; STATUS_INACTIVE; STATUS_ACTIVE ]
    /\ alternates (status_events Sample.r1 es) = true.
Proof.
  destruct (run Sample.encode Sample.decode Sample.conf Sample.adjacency_down
              ([ SendHelloTick Sample.r1; ContentValidated Sample.response ]
               ++ replicate 3 (InterestTimedOut Sample.probe)
               ++ [ ContentValidated Sample.response ]))
    as [[l' es]|] eqn:Hrun; [|vm_compute in Hrun; discriminate].
  exists l', es. split; [reflexivity|]. split.
  - vm_compute in Hrun. injection Hrun as <- <-. reflexivity.
  - exact (proj1 (C6_status_events_alternate Sample.encode Sample.decode Sample.conf
                    Sample.r1 Sample.adjacency_down l' _ es Hrun)).
Defined.

Lemma C9_witness :
  history_of Sample.r1
    (updateRttHistory 2 Sample.r1 (of_Z 30) (m_rttHistory Sample.two_samples))
  = [ of_Z 100; of_Z 30 ].
Proof.
  rewrite (proj1 (proj2 (C9_history_bounded_fifo 2 Sample.r1 (of_Z 30)
                           (m_rttHistory Sample.two_samples)))).
  reflexivity.
Defined.

(** C10, as stated, fails: a call made under one name with the metrics of
    another neighbor appends the sample once to each of the two histories,
    and to none of them twice. *)
Lemma C10_counterexample :
  let metrics := Sample.metrics (Some (Time.of_milliseconds 30)) in
  let c' := snd (calculateLoadAwareCost 16 Sample.now Sample.r2 (of_Z 100) metrics initial) in
  (ltb zero (of_Z 100) = true
   /\ ltb zero (originalCost metrics) = true
   /\ currentRtt metrics = Some (Time.of_milliseconds 30)
   /\ neighbor metrics = Sample.r1
   /\ Sample.r1 <> Sample.r2)
  /\ (m_rttHistory initial !! Sample.r1 = None
      /\ m_rttHistory initial !! Sample.r2 = None)
  /\ (m_rttHistory c' !! Sample.r1 = Some [ of_Z 30 ]
      /\ m_rttHistory c' !! Sample.r2 = Some [ of_Z 30 ])
  /\ [ of_Z 30 ] <> [ of_Z 30; of_Z 30 ].
Proof.
  cbv zeta. repeat split; try (vm_compute; reflexivity); vm_compute; discriminate.
Qed.

Lemma C10_witness :
  m_rttHistory
    (snd (calculateLoadAwareCost 16 Sample.now Sample.r1 (of_Z 100)
            (Sample.metrics (Some (Time.of_milliseconds 30))) initial)) !! Sample.r1
  = Some [ of_Z 30; of_Z 30 ].
Proof.
  exact (proj1 (proj2 (C10_sample_appended_under_both_names 16 Sample.now Sample.r1
                         (of_Z 100) (Sample.metrics (Some (Time.of_milliseconds 30)))
                         initial (Time.of_milliseconds 30) eq_refl eq_refl eq_refl))
               eq_refl).
Defined.

Lemma C1_witness :
  let cost := fst (calculateLoadAwareCost 16 Sample.now Sample.r1 (of_Z 100)
                     (Sample.metrics (Some (Time.of_milliseconds 60))) initial) in
  leb (mul (of_Z 100) d0_5) cost = true /\ leb cost (mul (of_Z 100) d3_0) = true.
Proof.
  exact (C1_cost_within_clamp 16 Sample.now Sample.r1 (of_Z 100)
           (Sample.metrics (Some (Time.of_milliseconds 60))) initial
           eq_refl eq_refl eq_refl eq_refl eq_refl eq_refl).
Defined.

(** C5, as stated, fails twice.  With an empty history, no timeout and a
    success at the instant of the call, a cost of 10 against an original
    cost of 100 comes back as 50, the lower clamp, where
    [rttBasedCost * (1 + w_R * f_R)] is 10.  And with a history of two
    samples the sample of the call makes a third before the load factor is
    computed, so the load factor counts: the call returns 190 where the
    formula gives 130. *)
Lemma C5_counterexample :
  let m := Sample.metrics (Some (Time.of_milliseconds 5)) in
  let m' := Sample.metrics (Some (Time.of_milliseconds 200)) in
  (history_of Sample.r1 (m_rttHistory initial) = []
   /\ fst (calculateLoadAwareCost 16 Sample.now Sample.r1 (of_Z 10) m initial) = of_Z 50
   /\ mul (of_Z 10) (add d1_0 (mul (m_rttWeight initial) (getRttFactor m))) = of_Z 10
   /\ of_Z 50 <> of_Z 10)
  /\ (length (history_of Sample.r1 (m_rttHistory Sample.two_samples)) = 2%nat
      /\ fst (calculateLoadAwareCost 16 Sample.now Sample.r1 (of_Z 100) m' Sample.two_samples)
         = of_Z 190
      /\ mul (of_Z 100) (add d1_0 (mul (m_rttWeight Sample.two_samples) (getRttFactor m')))
         = of_Z 130
      /\ of_Z 190 <> of_Z 130).
Proof. cbv zeta. repeat split; try (vm_compute; reflexivity); vm_compute; discriminate. Qed.

Lemma C5_witness :
  fst (calculateLoadAwareCost 16 Sample.now Sample.r1 (of_Z 10)
         (Sample.metrics (Some (Time.of_milliseconds 5))) initial)
  = of_Z 50.
Proof.
  rewrite (C5_cost_without_load_and_stability 16 Sample.now Sample.r1 (of_Z 10)
             (Sample.metrics (Some (Time.of_milliseconds 5))) initial Sample.now
             eq_refl eq_refl eq_refl eq_refl).
  - vm_compute. reflexivity.
  - vm_compute. lia.
  - reflexivity.
  - reflexivity.
  - vm_compute. split; discriminate.
Defined.

(** The further properties on the sample data. *)

Import Queries Exchange.

Lemma X2_witness :
  leb (getRttFactor (Sample.metrics (Some (Time.of_milliseconds 30))))
      (getRttFactor (Sample.metrics (Some (Time.of_milliseconds 60)))) = true.
Proof.
  apply (X2_rtt_factor_monotone _ _ (Time.of_milliseconds 30) (Time.of_milliseconds 60));
    [reflexivity|reflexivity|]. vm_compute. discriminate.
Defined.

Lemma X3_witness :
  let cost := fst (calculateLoadAwareCost 16 Sample.now Sample.r1 (of_Z 100)
                     (Sample.metrics (Some (Time.of_milliseconds 60))) initial) in
  leb (min (of_Z 100) (mul (of_Z 100) d3_0)) cost = true /\ is_positive cost = true.
Proof.
  exact (X3_cost_not_below_rtt_cost 16 Sample.now Sample.r1 (of_Z 100)
           (Sample.metrics (Some (Time.of_milliseconds 60))) initial
           eq_refl eq_refl eq_refl eq_refl eq_refl eq_refl eq_refl).
Defined.

Lemma X7_witness :
  let r := serve 2 [ Sample.query_r2; Sample.query_r2 ] initial in
  length (fst r) = 2%nat
  /\ (forall n history, m_rttHistory (snd r) !! n = Some history ->
                        (length history <= 2)%nat).
Proof.
  apply (X7_histories_stay_bounded 2 [ Sample.query_r2; Sample.query_r2 ] initial).
  intros n history H. change (m_rttHistory initial) with (∅ : gmap Name (list double)) in H.
  rewrite lookup_empty in H. discriminate.
Defined.

Lemma X8_witness :
  fst (calculateLoadAwareCost 16 Sample.now Sample.r1 (of_Z 100) Sample.loaded_metrics
         (snd (serve 16 [ Sample.query_r2 ] Sample.four_samples)))
  = fst (calculateLoadAwareCost 16 Sample.now Sample.r1 (of_Z 100) Sample.loaded_metrics
           Sample.four_samples).
Proof.
  apply (X8_queries_on_other_neighbors_do_not_interfere 16 [ Sample.query_r2 ]
           Sample.four_samples Sample.now Sample.r1 (of_Z 100) Sample.loaded_metrics).
  constructor; [|constructor]. split; vm_compute; discriminate.
Defined.

Lemma X9_witness :
  nonneg (getStabilityFactor Sample.now Sample.unwatched_metrics) = true
  /\ leb (getStabilityFactor Sample.now Sample.unwatched_metrics) d2_0 = true.
Proof.
  destruct (X9_time_penalty_capped Sample.now Sample.unwatched_metrics eq_refl)
    as (H1 & H2 & _).
  exact (conj H1 H2).
Defined.

Lemma X10_witness :
  fst (getLoadFactor 16 (Sample.metrics (Some (Time.of_milliseconds 30)))
         Sample.steady_history)
  = d0_0.
Proof.
  apply (X10_steady_link_has_no_load_penalty 16
           (Sample.metrics (Some (Time.of_milliseconds 30))) Sample.steady_history
           (Time.of_milliseconds 30) 2).
  - reflexivity.
  - vm_compute. discriminate.
  - reflexivity.
  - vm_compute. reflexivity.
Defined.

Lemma X11_witness :
  fst (calculateLoadAwareCost 16 Sample.now Sample.r1 (of_Z 100)
         (Sample.metrics (Some (Time.of_milliseconds 5))) Sample.steady_calculator)
  = of_Z 100.
Proof.
  rewrite (X11_perfect_link_keeps_cost 16 Sample.now Sample.r1 (of_Z 100)
             (Sample.metrics (Some (Time.of_milliseconds 5))) Sample.steady_calculator
             (Time.of_milliseconds 5) 3 eq_refl eq_refl eq_refl eq_refl eq_refl eq_refl
             eq_refl).
  - vm_compute. reflexivity.
  - vm_compute. split; discriminate.
  - reflexivity.
  - vm_compute. reflexivity.
  - right. reflexivity.
  - intros last [= <-]. vm_compute. reflexivity.
Defined.

Lemma X12_witness :
  leb (fst (calculateLoadAwareCost 16 Sample.now Sample.r1 (of_Z 100) Sample.loaded_metrics
              Sample.four_samples))
      (fst (calculateLoadAwareCost 16 Sample.now Sample.r1 (of_Z 120) Sample.loaded_metrics
              Sample.four_samples))
  = true.
Proof.
  exact (X12_cost_monotone_in_rtt_cost 16 Sample.now Sample.r1 (of_Z 100) (of_Z 120)
           Sample.loaded_metrics Sample.four_samples
           eq_refl eq_refl eq_refl eq_refl eq_refl eq_refl eq_refl eq_refl).
Defined.

Lemma X13_witness :
  leb (fst (calculateLoadAwareCost 16 Sample.now Sample.r1 (of_Z 100)
              (with_timeouts Sample.loaded_metrics 1) Sample.four_samples))
      (fst (calculateLoadAwareCost 16 Sample.now Sample.r1 (of_Z 100)
              (with_timeouts Sample.loaded_metrics 4) Sample.four_samples))
  = true.
Proof.
  apply (X13_more_timeouts_never_lower_the_cost 16 Sample.now Sample.r1 (of_Z 100)
           Sample.loaded_metrics Sample.four_samples 1 4);
    try reflexivity.
  vm_compute. discriminate.
Defined.

Lemma X14_witness :
  leb (fst (calculateLoadAwareCost 16 Sample.now Sample.r1 (of_Z 100)
              (with_original_cost Sample.loaded_metrics (of_Z 100)) Sample.four_samples))
      (fst (calculateLoadAwareCost 16 Sample.now Sample.r1 (of_Z 100)
              (with_original_cost Sample.loaded_metrics (of_Z 150)) Sample.four_samples))
  = true.
Proof.
  exact (X14_cost_monotone_in_original_cost 16 Sample.now Sample.r1 (of_Z 100)
           Sample.loaded_metrics Sample.four_samples (of_Z 100) (of_Z 150)
           eq_refl eq_refl eq_refl eq_refl eq_refl eq_refl eq_refl eq_refl).
Defined.

Lemma X15_witness :
  sent_to Sample.lifecycle_effects = [ Sample.r1; Sample.r1; Sample.r1 ]
  /\ expressed Sample.lifecycle_effects
     = map (fun n =>
              {| interestName :=
                   n ++ [NLSR_COMPONENT; INFO_COMPONENT;
                         Sample.encode (getRouterPrefix Sample.conf)];
                 interestLifetime := getInterestResendTime Sample.conf;
                 mustBeFresh := true;
                 canBePrefix := true |})
           (sent_to Sample.lifecycle_effects)
  /\ count is_sent_interest_count Sample.lifecycle_effects
     = length (sent_to Sample.lifecycle_effects).
Proof.
  split; [reflexivity|].
  apply (X15_every_interest_is_a_hello_probe Sample.encode Sample.decode Sample.conf
           Sample.adjacency_down Sample.adjacency_up Sample.lifecycle).
  vm_compute. reflexivity.
Defined.

Lemma X16_witness :
  count is_status_change Sample.lifecycle_effects = 3%nat
  /\ count is_reconverge Sample.lifecycle_effects
     = count is_status_change Sample.lifecycle_effects
  /\ count is_initial_validated Sample.lifecycle_effects
     = count is_activation Sample.lifecycle_effects.
Proof.
  split; [reflexivity|].
  apply (X16_one_reconvergence_per_status_change Sample.encode Sample.decode Sample.conf
           Sample.adjacency_down Sample.adjacency_up Sample.lifecycle).
  vm_compute. reflexivity.
Defined.

Lemma X17_witness :
  getStatusOfNeighbor Sample.adjacency_up Sample.r1
  = default STATUS_INACTIVE (last (status_events Sample.r1 Sample.lifecycle_effects)).
Proof.
  apply (X17_status_is_last_reported Sample.encode Sample.decode Sample.conf Sample.r1
           Sample.adjacency_down Sample.adjacency_up Sample.lifecycle
           Sample.lifecycle_effects).
  vm_compute. reflexivity.
Defined.

Lemma X18_witness :
  faceId <$> Sample.adjacency_up !! Sample.r1 = faceId <$> Sample.adjacency_down !! Sample.r1.
Proof.
  apply (X18_neighbors_and_faces_fixed Sample.encode Sample.decode Sample.conf
           Sample.adjacency_down Sample.adjacency_up Sample.lifecycle
           Sample.lifecycle_effects Sample.r1).
  vm_compute. reflexivity.
Defined.

(** After two timeouts the neighbor is still [ACTIVE], with a count of 2,
    below the limit of 3. *)
Lemma X19_witness :
  (to_uint32 2 < getInterestRetryNumber Sample.conf)%N.
Proof.
  apply (X19_active_neighbor_below_retry_limit Sample.encode Sample.decode Sample.conf
           Sample.adjacency_up {[ Sample.r1 := with_count Sample.r1_active 2 ]}
           (replicate 2 (InterestTimedOut Sample.probe))
           (reissues Sample.encode Sample.conf Sample.r1 0 2)
           eq_refl) with (n := Sample.r1) (a := with_count Sample.r1_active 2).
  - intros n a H _. unfold Sample.adjacency_up in H.
    apply lookup_singleton_Some in H as [_ <-]. reflexivity.
  - vm_compute. reflexivity.
  - vm_compute. reflexivity.
  - reflexivity.
Defined.

Lemma X20_witness :
  onContentValidated Sample.conf Sample.adjacency_up Sample.response
  = Some (Sample.adjacency_up, [ OnDataReceived Sample.r1; HpIncrementSignal RCV_HELLO_DATA ]).
Proof.
  apply (X20_repeated_response_changes_nothing Sample.conf Sample.adjacency_down
           Sample.adjacency_up Sample.response
           [ OnDataReceived Sample.r1; OnNeighborStatusChanged Sample.r1 STATUS_ACTIVE;
             ScheduleAdjLsaBuild; OnInitialHelloDataValidated Sample.r1;
             HpIncrementSignal RCV_HELLO_DATA ]).
  vm_compute. reflexivity.
Defined.

Lemma X21_witness :
  exists i esB d lA' esA,
    expressed (sendHelloInterest Sample.encode Sample.conf_r1 Sample.adjacency_of_r1
                 Sample.router)
    = [ i ]
    /\ filterName Sample.conf `prefix_of` interestName i
    /\ processInterest Sample.encode Sample.decode Sample.conf Sample.adjacency_down i
         "v1"%string
       = Some esB
    /\ put esB = [ d ]
    /\ onContentValidated Sample.conf_r1 Sample.adjacency_of_r1 d = Some (lA', esA)
    /\ In (OnDataReceived Sample.router) esA
    /\ getStatusOfNeighbor lA' Sample.router = STATUS_ACTIVE
    /\ getTimedOutInterestCount lA' Sample.router = 0%N.
Proof.
  apply (X21_probe_reply_round_trip Sample.encode Sample.decode Sample.conf_r1 Sample.conf
           Sample.adjacency_of_r1 Sample.adjacency_down
           {| faceId := 9; status := STATUS_INACTIVE; interestTimedOutNo := 0 |}
           "v1"%string);
    [reflexivity|reflexivity|discriminate|reflexivity].
Defined.

Lemma X22_witness :
  (put Sample.reply_effects = [] /\ expressed Sample.reply_effects = [])
  \/ (exists (last : Component) (n : Name) (a : Adjacent),
        get_back 2 (interestName Sample.probe_of_r1) = Some INFO_COMPONENT
        /\ get_back 1 (interestName Sample.probe_of_r1) = Some last
        /\ Sample.decode last = Some n
        /\ Sample.adjacency_down !! n = Some a
        /\ put Sample.reply_effects = [ Sample.reply ]
        /\ expressed Sample.reply_effects
           = if bool_decide (status a = STATUS_INACTIVE /\ faceId a <> 0%N)
             then [ helloInterest (helloName Sample.encode Sample.conf n)
                      (getInterestResendTime Sample.conf) ]
             else []).
Proof.
  apply (X22_reply_only_to_a_neighbor Sample.encode Sample.decode Sample.conf
           Sample.adjacency_down Sample.probe_of_r1 "v1"%string Sample.reply_effects).
  vm_compute. reflexivity.
Defined.

Lemma X23_witness :
  exists d, In (ContentValidated d) Sample.lifecycle
            /\ get_back 3 (dataName d) = Some INFO_COMPONENT
            /\ getPrefix_back 4 (dataName d) = Sample.r1.
Proof.
  apply (X23_status_changes_have_a_cause Sample.encode Sample.decode Sample.conf
           Sample.adjacency_down Sample.adjacency_up Sample.lifecycle
           Sample.lifecycle_effects Sample.r1).
  - vm_compute. reflexivity.
  - vm_compute. discriminate.
Defined.

End Scenarios.
